(** * Synapse operator charm: main designation, instance map, signing key
      and reconcile

    A shallow embedding of [src/charm.py] (class [SynapseCharm]), the
    properties its specification states about it, and further properties
    of its methods, event handlers and actions.

    Python strings are modelled as [string] (ASCII characters; Juju unit and
    application names are ASCII).  Python dictionaries whose insertion
    order is observable (the instance map) are association lists with the
    in-place update of [d[k] = v]; dictionaries used as plain maps (relation
    data, secret content, files in the workload container) are [gmap]s.
    Methods that mutate the model or raise are functions in a small
    state-and-exception monad that also records the calls made to the
    collaborators of the charm.

    The [ops] library is modelled where its behaviour decides what the
    charm does: it refuses a write to the application data of a relation
    on a unit that is not leader ([RelationDataAccessError]), and reading
    a file the workload does not hold raises [ops.pebble.PathError].
    The charm writes unit names and secret ids to the relation data;
    they are never empty ([ops] removes a key that is set to the empty
    string). *)

From Stdlib Require Import ZArith Ascii String DecimalString List Bool Lia.
From stdpp Require Import base option list gmap strings.

Local Open Scope string_scope.
Local Open Scope list_scope.
Local Open Scope Z_scope.

(** ** Python string operations used by the charm *)

Module PyStr.

(** [c.isdigit()] for one ASCII character. *)
Definition is_digit (c : ascii) : bool :=
  (Ascii.leb "0" c && Ascii.leb c "9")%char.

(** [s.replace(old, new)] for one-character [old] and [new]. *)
Fixpoint replace (old new : ascii) (s : string) : string :=
  match s with
  | EmptyString => EmptyString
  | String c s' =>
      String (if Ascii.eqb c old then new else c) (replace old new s')
  end.

(** [s.split(sep)[0]]: the text before the first [sep], all of [s] when
    there is none. *)
Fixpoint split_head (sep : ascii) (s : string) : string :=
  match s with
  | EmptyString => EmptyString
  | String c s' =>
      if Ascii.eqb c sep then EmptyString else String c (split_head sep s')
  end.

(** [s.rfind(c)]: the index of the last [c] in [s], [-1] when there is
    none. *)
Fixpoint rfind (c : ascii) (s : string) : Z :=
  match s with
  | EmptyString => -1
  | String a s' =>
      let r := rfind c s' in
      if 0 <=? r then r + 1 else if Ascii.eqb a c then 0 else -1
  end.

Fixpoint drop (n : nat) (s : string) : string :=
  match n, s with
  | O, _ => s
  | S n', EmptyString => EmptyString
  | S n', String _ s' => drop n' s'
  end.

(** [s[b:]], with Python's treatment of a negative [b]. *)
Definition slice_from (b : Z) (s : string) : string :=
  let len := Z.of_nat (String.length s) in
  let start := if b <? 0 then Z.max 0 (len + b) else b in
  drop (Z.to_nat start) s.

(** The longest prefix of decimal digits: what [\d+] consumes. *)
Fixpoint take_digits (s : string) : string :=
  match s with
  | EmptyString => EmptyString
  | String c s' =>
      if is_digit c then String c (take_digits s') else EmptyString
  end.

Definition starts_with_digit (s : string) : bool :=
  match s with
  | EmptyString => false
  | String c _ => is_digit c
  end.

(** [re.search(r"-(\d+)", s)]: [None] when nothing matches, otherwise
    [group(1)] of the leftmost match, the digits after the first hyphen
    that is followed by a digit. *)
Fixpoint re_search_hyphen_digits (s : string) : option string :=
  match s with
  | EmptyString => None
  | String c s' =>
      if Ascii.eqb c "-" && starts_with_digit s'
      then Some (take_digits s')
      else re_search_hyphen_digits s'
  end.

(** [c.isspace()] for one ASCII character. *)
Definition is_space (c : ascii) : bool :=
  let n := nat_of_ascii c in
  ((9 <=? n)%nat && (n <=? 13)%nat)
  || ((28 <=? n)%nat && (n <=? 32)%nat).

(** [s.rstrip()]. *)
Fixpoint rstrip (s : string) : string :=
  match s with
  | EmptyString => EmptyString
  | String c s' =>
      match rstrip s' with
      | EmptyString => if is_space c then EmptyString else String c EmptyString
      | r => String c r
      end
  end.

(** Truth value of a string: [bool(s)]. *)
Definition truthy (s : string) : bool :=
  match s with
  | EmptyString => false
  | String _ _ => true
  end.

Definition all_digits (s : string) : bool :=
  forallb is_digit (list_ascii_of_string s).

Definition has_digit (s : string) : bool :=
  existsb is_digit (list_ascii_of_string s).

Definition has_char (c : ascii) (s : string) : bool :=
  existsb (Ascii.eqb c) (list_ascii_of_string s).

End PyStr.

(** ** Exceptions and results *)

(** The exceptions that occur in the charm.  [PebbleServiceError] and
    [FileNotFoundError] carry [str(exc)], [ops.pebble.PathError] its
    [kind]. *)
Inductive exn : Type :=
| AttributeError
| SecretNotFoundError
| ValueError
| TypeError
| PebbleServiceError (msg : string)
| FileNotFoundError (msg : string)
| PathError (kind : string)
| RelationDataAccessError
| OtherError (msg : string).

Inductive result (A : Type) : Type :=
| Ret (a : A)
| Raise (e : exn).
Arguments Ret {A} a.
Arguments Raise {A} e.

(** ** The model the charm runs against *)

(** [ops.StatusBase] *)
Inductive Status : Type :=
| UnknownStatus
| ActiveStatus (msg : string)
| MaintenanceStatus (msg : string)
| BlockedStatus (msg : string)
| WaitingStatus (msg : string).

(** One relation of the peer endpoint: the remote units, in the order
    [relation.units] yields them, and the application data bag. *)
Record Relation : Type := mkRelation {
  rel_units : list string;
  rel_app_data : gmap string string;
}.

(** The workload container as the charm sees it through Pebble. *)
Record Container : Type := mkContainer {
  can_connect : bool;
  files : gmap string string;
  services : gmap string bool;  (* service name -> is_running() *)
}.

Record World : Type := mkWorld {
  unit_name : string;                 (* self.unit.name *)
  app_name : string;                  (* self.app.name *)
  is_leader : bool;                   (* self.unit.is_leader() *)
  planned_units : Z;                  (* self.app.planned_units() *)
  peer_relations : list Relation;     (* self.model.relations[PEER] *)
  secrets : gmap string (gmap string string);     (* id -> content *)
  container : Container;
  status : Status;                    (* self.unit.status *)
}.

Definition MAIN_UNIT_ID : string := "main_unit_id".
Definition SECRET_SIGNING_ID : string := "secret-signing-id".
Definition SECRET_SIGNING_KEY : string := "secret-signing-key".

(** [d[k] = v] on a dictionary that remembers insertion order. *)
Fixpoint dict_set {V : Type} (k : string) (v : V) (d : list (string * V))
  : list (string * V) :=
  match d with
  | [] => [(k, v)]
  | (k', v') :: d' =>
      if String.eqb k' k then (k, v) :: d' else (k', v') :: dict_set k v d'
  end.

Record Endpoint : Type := mkEndpoint {
  host : string;
  port : Z;
}.

(** ** Pure methods of [SynapseCharm] *)

Definition peer_units_total (w : World) : Z := planned_units w.

Definition get_main_unit (w : World) : option string :=
  match peer_relations w with
  | [] => None
  | relation :: _ => rel_app_data relation !! MAIN_UNIT_ID
  end.

Definition is_main (w : World) : bool :=
  match get_main_unit w with
  | Some m => String.eqb m (unit_name w)
  | None => false
  end.

(** [f"{name.replace('/', '-')}.{app}-endpoints"] *)
Definition unit_address (name app : string) : string :=
  PyStr.replace "/" "-" name +:+ "." +:+ app +:+ "-endpoints".

Definition get_main_unit_address (w : World) : string :=
  let main_unit_name :=
    match get_main_unit w with
    | None => unit_name w
    | Some m => m
    end in
  unit_address main_unit_name (app_name w).

Definition get_unit_number (w : World) (name : string) : result string :=
  let name := if PyStr.truthy name then name else unit_name w in
  let unit_part := PyStr.split_head "." name in
  let index := PyStr.rfind "/" unit_part in
  let index := if index =? -1 then PyStr.rfind "-" unit_part else index in
  let begin := index + 1 in
  let unit_id := PyStr.slice_from begin unit_part in
  Ret unit_id.

(** The list [addresses] of [instance_map]: this unit first, then the
    units of the first peer relation. *)
Definition addresses (w : World) : list string :=
  let own := [unit_address (unit_name w) (app_name w)] in
  match peer_relations w with
  | [] => own
  | relation :: _ =>
      own ++ map (fun u => unit_address u (app_name w)) (rel_units relation)
  end.

Definition worker_entry (unit_number address : string) : string * Endpoint :=
  ("worker" +:+ unit_number, mkEndpoint address 8034).

(** The loop [for address in addresses] of [instance_map]. *)
Fixpoint instance_map_loop (main_address : string) (addrs : list string)
    (imap : list (string * Endpoint)) : result (list (string * Endpoint)) :=
  match addrs with
  | [] => Ret imap
  | address :: rest =>
      let m := PyStr.re_search_hyphen_digits address in
      if String.eqb address main_address
      then instance_map_loop main_address rest imap
      else
        match m with
        | None => Raise AttributeError        (* None.group(1) *)
        | Some unit_number =>
            let (instance_name, v) := worker_entry unit_number address in
            instance_map_loop main_address rest (dict_set instance_name v imap)
        end
  end.

Definition instance_map (w : World)
  : result (option (list (string * Endpoint))) :=
  if peer_units_total w =? 1 then Ret None
  else
    let seed :=
      [ ("main", mkEndpoint (get_main_unit_address w) 8035);
        ("federationsender1", mkEndpoint (get_main_unit_address w) 8034) ] in
    match instance_map_loop (get_main_unit_address w) (addresses w) seed with
    | Ret imap => Ret (Some imap)
    | Raise e => Raise e
    end.

(** ** Updates of the model *)

Definition with_status (s : Status) (w : World) : World :=
  mkWorld (unit_name w) (app_name w) (is_leader w) (planned_units w)
    (peer_relations w) (secrets w) (container w) s.

Definition with_container (c : Container) (w : World) : World :=
  mkWorld (unit_name w) (app_name w) (is_leader w) (planned_units w)
    (peer_relations w) (secrets w) c (status w).

Definition with_secrets (ss : gmap string (gmap string string)) (w : World)
  : World :=
  mkWorld (unit_name w) (app_name w) (is_leader w) (planned_units w)
    (peer_relations w) ss (container w) (status w).

(** The model after a change of [peer_relation[0].data[self.app]];
    nothing happens when there is no peer relation. *)
Definition with_peer_app_data (f : gmap string string → gmap string string)
    (w : World) : World :=
  mkWorld (unit_name w) (app_name w) (is_leader w) (planned_units w)
    (match peer_relations w with
     | [] => []
     | relation :: rest =>
         mkRelation (rel_units relation) (f (rel_app_data relation)) :: rest
     end)
    (secrets w) (container w) (status w).

Definition with_file (path content : string) (c : Container) : Container :=
  mkContainer (can_connect c) (<[path := content]> (files c)) (services c).

(** [container.get_services(name)]: the services of that name, none or one. *)
Definition get_services (c : Container) (name : string)
  : list (string * bool) :=
  match services c !! name with
  | Some running => [(name, running)]
  | None => []
  end.

(** Calls to the collaborators, in the order the charm makes them.
    [CharmState] is the type of [charm_state.CharmState]. *)
Inductive Effect (CharmState : Type) : Type :=
| EPush (path content : string)
| EPull (path : string)
| EApplyConfig (charm_state : CharmState) (is_main : bool)
    (unit_number : string)
| EAddSecret (content : gmap string string)
| EMatrixAuth (charm_state : CharmState)
| ERestartNginx (main_unit_address : string).
Arguments EPush {CharmState} path content.
Arguments EPull {CharmState} path.
Arguments EApplyConfig {CharmState} charm_state is_main unit_number.
Arguments EAddSecret {CharmState} content.
Arguments EMatrixAuth {CharmState} charm_state.
Arguments ERestartNginx {CharmState} main_unit_address.

(** What running a method gives: its result, the model it leaves and the
    calls it made. *)
Record Outcome (CharmState A : Type) : Type := mkOutcome {
  res : result A;
  post : World;
  trace : list (Effect CharmState);
}.
Arguments mkOutcome {CharmState A} res post trace.
Arguments res {CharmState A} o.
Arguments post {CharmState A} o.
Arguments trace {CharmState A} o.

(** ** The charm's stateful methods *)

(** [CharmState] and the modules [pebble], [synapse] and
    [matrix_auth_observer] are collaborators of [charm.py]; what they do is
    a parameter of the development. *)
Record Collaborators (CharmState : Type) : Type := mkCollaborators {
  (** [charm_state.synapse_config.server_name] *)
  server_name : CharmState → string;
  (** [synapse.SYNAPSE_SERVICE_NAME], [synapse.SYNAPSE_NGINX_SERVICE_NAME] *)
  SYNAPSE_SERVICE_NAME : string;
  SYNAPSE_NGINX_SERVICE_NAME : string;
  (** [pebble.reconcile(charm_state, container, is_main, unit_number)]:
      what it returns or raises, and the container it leaves. *)
  pebble_reconcile :
    CharmState → Container → bool → string → result unit * Container;
  (** [pebble.restart_nginx(container, main_unit_address)] *)
  restart_nginx : Container → string → result unit * Container;
  (** [self._matrix_auth.update_matrix_auth_integration(charm_state)] *)
  update_matrix_auth_integration : CharmState → result unit;
  (** The id Juju gives to the secret created next. *)
  new_secret_id : gmap string (gmap string string) → string;
}.
Arguments mkCollaborators {CharmState}.
Arguments server_name {CharmState} c charm_state.
Arguments SYNAPSE_SERVICE_NAME {CharmState} c.
Arguments SYNAPSE_NGINX_SERVICE_NAME {CharmState} c.
Arguments pebble_reconcile {CharmState} c charm_state container is_main unit_number.
Arguments restart_nginx {CharmState} c container address.
Arguments update_matrix_auth_integration {CharmState} c charm_state.
Arguments new_secret_id {CharmState} c secrets.

Section Charm.

Context {CharmState : Type} (env : Collaborators CharmState).

Definition M (A : Type) : Type := World → Outcome CharmState A.

Definition ret {A} (a : A) : M A := fun w => mkOutcome (Ret a) w [].
Definition raise {A} (e : exn) : M A := fun w => mkOutcome (Raise e) w [].

Definition bind {A B} (m : M A) (k : A → M B) : M B :=
  fun w =>
    let o := m w in
    match res o with
    | Ret a =>
        let o' := k a (post o) in
        mkOutcome (res o') (post o') (trace o ++ trace o')
    | Raise e => mkOutcome (Raise e) (post o) (trace o)
    end.

Definition gets {A} (f : World → A) : M A :=
  fun w => mkOutcome (Ret (f w)) w [].
Definition modify (f : World → World) : M unit :=
  fun w => mkOutcome (Ret tt) (f w) [].
Definition emit (e : Effect CharmState) : M unit :=
  fun w => mkOutcome (Ret tt) w [e].
Definition lift {A} (r : result A) : M A :=
  fun w => mkOutcome r w [].
(** A call of a method that reads the model and may raise. *)
Definition gets_result {A} (f : World → result A) : M A :=
  fun w => mkOutcome (f w) w [].

(** [try: body except ...: handler]; [handler exc = None] when no clause
    catches [exc]. *)
Definition try_except {A} (body : M A) (handler : exn → option (M A))
  : M A :=
  fun w =>
    let o := body w in
    match res o with
    | Ret a => o
    | Raise exc =>
        match handler exc with
        | Some h =>
            let o' := h (post o) in
            mkOutcome (res o') (post o') (trace o ++ trace o')
        | None => o
        end
    end.

Declare Scope charm_scope.
Delimit Scope charm_scope with charm.
Notation "x <- m ;; k" := (bind m (fun x => k))
  (at level 100, m at next level, right associativity) : charm_scope.
Notation "m ;; k" := (bind m (fun _ => k))
  (at level 100, right associativity) : charm_scope.
Local Open Scope charm_scope.

Definition when (b : bool) (m : M unit) : M unit :=
  if b then m else ret tt.

Definition set_status (s : Status) : M unit := modify (with_status s).

(** [container.push(path, content, make_dirs=True, encoding="utf-8")] *)
Definition push (path content : string) : M unit :=
  modify (fun w => with_container (with_file path content (container w)) w) ;;
  emit (EPush path content).

(** [container.pull(path).read()]; for a file the workload does not hold
    Pebble answers with [ops.pebble.PathError] of kind [not-found]. *)
Definition pull (path : string) : M string :=
  c <- gets container ;;
  match files c !! path with
  | Some content => emit (EPull path) ;; ret content
  | None => raise (PathError "not-found")
  end.

(** [self.model.get_secret(id=secret_id).get_content()] *)
Definition get_secret_content (secret_id : string)
  : M (gmap string string) :=
  ss <- gets secrets ;;
  match ss !! secret_id with
  | Some content => ret content
  | None => raise SecretNotFoundError
  end.

(** [self.app.add_secret(content).id] *)
Definition add_secret (content : gmap string string) : M string :=
  ss <- gets secrets ;;
  let id := new_secret_id env ss in
  modify (with_secrets (<[id := content]> ss)) ;;
  emit (EAddSecret content) ;;
  ret id.

(** A write to [peer_relation[0].data[self.app]] ([update] or [del]):
    [ops] raises [RelationDataAccessError], and writes nothing, on a unit
    that is not leader. *)
Definition write_peer_app_data
    (f : gmap string string → gmap string string) : M unit :=
  leader <- gets is_leader ;;
  if leader then modify (with_peer_app_data f)
  else raise RelationDataAccessError.

Definition set_main_unit (unit_ : string) : M unit :=
  peer_relation <- gets peer_relations ;;
  match peer_relation with
  | [] => ret tt
  | _ :: _ => write_peer_app_data (<[MAIN_UNIT_ID := unit_]>)
  end.

Definition get_signing_key : M (option string) :=
  peer_relation <- gets peer_relations ;;
  match peer_relation with
  | [] => ret None
  | relation :: _ =>
      match rel_app_data relation !! SECRET_SIGNING_ID with
      | Some secret_id =>
          if PyStr.truthy secret_id then
            try_except
              (content <- get_secret_content secret_id ;;
               ret (content !! SECRET_SIGNING_KEY))
              (fun exc =>
                 match exc with
                 | SecretNotFoundError | ValueError | TypeError =>
                     Some (write_peer_app_data (delete SECRET_SIGNING_ID) ;;
                           ret None)
                 | _ => None
                 end)
          else ret None
      | None => ret None
      end
  end.

Definition set_signing_key (signing_key : string) : M unit :=
  peer_relation <- gets peer_relations ;;
  match peer_relation with
  | [] => ret tt
  | _ :: _ =>
      current <- get_signing_key ;;
      if bool_decide (Some signing_key = current) then ret tt
      else
        leader <- gets is_leader ;;
        if leader then
          secret_id <- add_secret {[SECRET_SIGNING_KEY := signing_key]} ;;
          write_peer_app_data (<[SECRET_SIGNING_ID := secret_id]>)
        else ret tt
  end.

Definition is_blocked (s : Status) : bool :=
  match s with
  | BlockedStatus _ => true
  | _ => false
  end.

(** [not d or [s for s in d.values() if not s.is_running()]] *)
Definition missing_or_not_running (d : list (string * bool)) : bool :=
  match d with
  | [] => true
  | _ :: _ =>
      match filter (fun s => negb s) (map snd d) with
      | [] => false
      | _ :: _ => true
      end
  end.

Definition _set_unit_status : M unit :=
  st <- gets status ;;
  if is_blocked st then ret tt
  else
    c <- gets container ;;
    if negb (can_connect c) then
      set_status (MaintenanceStatus "Waiting for Synapse pebble")
    else if missing_or_not_running (get_services c (SYNAPSE_SERVICE_NAME env)) then
      set_status (MaintenanceStatus "Waiting for Synapse")
    else if missing_or_not_running
              (get_services c (SYNAPSE_NGINX_SERVICE_NAME env)) then
      set_status (MaintenanceStatus "Waiting for NGINX")
    else set_status (ActiveStatus "").

Definition call_pebble_reconcile (charm_state : CharmState)
    (main : bool) (unit_number : string) : M unit :=
  fun w =>
    let (r, c) :=
    pebble_reconcile env charm_state (container w) main unit_number in
    mkOutcome r (with_container c w) [EApplyConfig charm_state main unit_number].

Definition call_restart_nginx (address : string) : M unit :=
  fun w =>
    let (r, c) := restart_nginx env (container w) address in
    mkOutcome r (with_container c w) [ERestartNginx address].

Definition call_update_matrix_auth (charm_state : CharmState) : M unit :=
  emit (EMatrixAuth charm_state) ;;
  lift (update_matrix_auth_integration env charm_state).

Definition truthy_key (k : option string) : bool :=
  match k with
  | Some s => PyStr.truthy s
  | None => false
  end.

(** The body of the [try] statement of [reconcile]. *)
Definition reconcile_try (charm_state : CharmState) : M unit :=
  let signing_key_path :=
    "/data/" +:+ server_name env charm_state +:+ ".signing.key" in
  signing_key_from_secret <- get_signing_key ;;
  when (truthy_key signing_key_from_secret)
    (push signing_key_path (default "" signing_key_from_secret)) ;;
  main <- gets is_main ;;
  unit_number <- gets_result (fun w => get_unit_number w "") ;;
  call_pebble_reconcile charm_state main unit_number ;;
  main <- gets is_main ;;
  when (main && negb (truthy_key signing_key_from_secret))
    (signing_key <- pull signing_key_path ;;
     set_signing_key (PyStr.rstrip signing_key)) ;;
  leader <- gets is_leader ;;
  when leader (call_update_matrix_auth charm_state).

(** The first statement of [reconcile]: a leader that finds no main unit
    recorded records itself. *)
Definition reconcile_bootstrap : M unit :=
  main <- gets get_main_unit ;;
  leader <- gets is_leader ;;
  when (bool_decide (main = None) && leader)
    (name <- gets unit_name ;; set_main_unit name).

(** The last two statements of [reconcile]. *)
Definition reconcile_finish : M unit :=
  address <- gets get_main_unit_address ;;
  call_restart_nginx address ;;
  _set_unit_status.

(** The clauses of [except (pebble.PebbleServiceError, FileNotFoundError)]. *)
Definition reconcile_except (exc : exn) : option (M bool) :=
  match exc with
  | PebbleServiceError msg | FileNotFoundError msg =>
      Some (set_status (BlockedStatus msg) ;; ret false)
  | _ => None
  end.

Definition reconcile (charm_state : CharmState) : M unit :=
  reconcile_bootstrap ;;
  c <- gets container ;;
  if negb (can_connect c) then
    set_status (MaintenanceStatus "Waiting for Synapse pebble")
  else
    set_status (MaintenanceStatus "Configuring Synapse") ;;
    completed <-
      try_except (reconcile_try charm_state ;; ret true) reconcile_except ;;
    if completed : bool then reconcile_finish else ret tt.

(** [event.departing_unit] is the name of the departing unit, [None]
    when Juju does not tell. *)
Definition _on_relation_departed (departing_unit : option string)
    (charm_state : CharmState) : M unit :=
  name <- gets unit_name ;;
  if bool_decide (departing_unit = Some name) then ret tt
  else
    main <- gets get_main_unit ;;
    leader <- gets is_leader ;;
    when (match departing_unit with
          | Some d => bool_decide (Some d = main) && leader
          | None => false
          end)
      (set_main_unit name) ;;
    reconcile charm_state.

Definition _on_leader_elected (charm_state : CharmState) : M unit :=
  leader <- gets is_leader ;;
  if negb leader then ret tt
  else
    name <- gets unit_name ;;
    set_main_unit name ;;
    reconcile charm_state.

End Charm.

Arguments M : clear implicits.

(** ** The other event handlers *)

(** What a call into [synapse], [actions] or the token service gives: a
    value, the error its caller catches ([synapse.APIError], and
    [actions.RegisterUserError] for [actions.register_user]) with
    [str(exc)], or another exception. *)
Inductive api_result (A : Type) : Type :=
| ApiRet (a : A)
| ApiError (msg : string)
| ApiRaise (e : exn).
Arguments ApiRet {A} a.
Arguments ApiError {A} msg.
Arguments ApiRaise {A} e.

(** The collaborators of the handlers below. *)
Record Services (CharmState : Type) : Type := mkServices {
  (** [charm_state.redis_config is None] *)
  redis_config_is_none : CharmState → bool;
  (** [synapse.get_version(main_unit_address)] *)
  get_version : string → api_result string;
  (** [actions.register_user(container, username, admin).password] *)
  register_user : Container → string → bool → api_result string;
  (** [self.token_service.get(container)] *)
  token_service_get : Container → api_result (option string);
  (** [synapse.promote_user_admin(User(username, admin), server,
      admin_access_token)] *)
  promote_user_admin : string → bool → string → string → api_result unit;
  (** [synapse.deactivate_user(User(username, admin), server,
      admin_access_token)] *)
  deactivate_user : string → bool → string → string → api_result unit;
}.
Arguments mkServices {CharmState}.
Arguments redis_config_is_none {CharmState} s charm_state.
Arguments get_version {CharmState} s main_unit_address.
Arguments register_user {CharmState} s container username admin.
Arguments token_service_get {CharmState} s container.
Arguments promote_user_admin {CharmState} s username admin server token.
Arguments deactivate_user {CharmState} s username admin server token.

(** The calls a hook makes: those of [reconcile], and those that read and
    report the version of the workload. *)
Inductive HookEffect (CharmState : Type) : Type :=
| HCharm (e : Effect CharmState)
| HGetVersion (main_unit_address : string)
| HSetWorkloadVersion (version : string).
Arguments HCharm {CharmState} e.
Arguments HGetVersion {CharmState} main_unit_address.
Arguments HSetWorkloadVersion {CharmState} version.

Record HookOutcome (CharmState : Type) : Type := mkHookOutcome {
  hook_res : result unit;
  hook_post : World;
  hook_trace : list (HookEffect CharmState);
}.
Arguments mkHookOutcome {CharmState} hook_res hook_post hook_trace.
Arguments hook_res {CharmState} h.
Arguments hook_post {CharmState} h.
Arguments hook_trace {CharmState} h.

(** A value of the results of an action. *)
Inductive ActionValue : Type :=
| VBool (b : bool)
| VStr (s : string).

(** [ops.charm.ActionEvent]: the parameters the handlers read, the message
    of [event.fail] and the dictionary given to [event.set_results]. *)
Record ActionEvent : Type := mkActionEvent {
  param_username : string;            (* event.params["username"] *)
  param_admin : bool;                 (* event.params["admin"] *)
  failure : option string;
  results : option (list (string * ActionValue));
}.

Definition fail (message : string) (event : ActionEvent) : ActionEvent :=
  mkActionEvent (param_username event) (param_admin event) (Some message)
    (results event).

Definition set_results (r : list (string * ActionValue))
    (event : ActionEvent) : ActionEvent :=
  mkActionEvent (param_username event) (param_admin event) (failure event)
    (Some r).

(** The calls an action handler makes. *)
Inductive ApiCall : Type :=
| CRegisterUser (username : string) (admin : bool)
| CGetToken
| CPromoteUserAdmin (username : string) (admin : bool) (server token : string)
| CDeactivateUser (username : string) (admin : bool) (server token : string).

Record ActionOutcome : Type := mkActionOutcome {
  action_res : result unit;
  action_event : ActionEvent;
  action_calls : list ApiCall;
}.

Section Handlers.

Context {CharmState : Type} (env : Collaborators CharmState)
  (api : Services CharmState).

Declare Scope charm_scope.
Delimit Scope charm_scope with charm.
Notation "x <- m ;; k" := (bind m (fun x => k))
  (at level 100, m at next level, right associativity) : charm_scope.
Notation "m ;; k" := (bind m (fun _ => k))
  (at level 100, right associativity) : charm_scope.
Local Open Scope charm_scope.

Definition _on_relation_changed (charm_state : CharmState) : M CharmState unit :=
  reconcile env charm_state.

Definition _on_synapse_pebble_ready (charm_state : CharmState)
  : M CharmState unit :=
  total <- gets peer_units_total ;;
  if redis_config_is_none api charm_state && (total >? 1) then
    set_status (BlockedStatus "Redis integration is required.")
  else
    set_status (ActiveStatus "") ;;
    reconcile env charm_state.

Definition _set_workload_version (w : World) : HookOutcome CharmState :=
  if negb (can_connect (container w)) then
    mkHookOutcome (Ret tt)
      (with_status (MaintenanceStatus "Waiting for Synapse pebble") w) []
  else
    let address := get_main_unit_address w in
    match get_version api address with
    | ApiRet synapse_version =>
        mkHookOutcome (Ret tt) w
          [HGetVersion address; HSetWorkloadVersion synapse_version]
    | ApiError _ => mkHookOutcome (Ret tt) w [HGetVersion address]
    | ApiRaise e => mkHookOutcome (Raise e) w [HGetVersion address]
    end.

Definition _on_config_changed (charm_state : CharmState) (w : World)
  : HookOutcome CharmState :=
  if redis_config_is_none api charm_state && (peer_units_total w >? 1) then
    mkHookOutcome (Ret tt)
      (with_status (BlockedStatus "Redis integration is required.") w) []
  else
    let o := reconcile env charm_state w in
    match res o with
    | Raise e => mkHookOutcome (Raise e) (post o) (map HCharm (trace o))
    | Ret _ =>
        let o' := _set_workload_version (post o) in
        mkHookOutcome (hook_res o') (hook_post o')
          (map HCharm (trace o) ++ hook_trace o')
    end.

Definition _on_register_user_action (w : World) (event : ActionEvent)
  : ActionOutcome :=
  let container := container w in
  if negb (can_connect container) then
    mkActionOutcome (Ret tt) (fail "Failed to connect to the container" event)
      []
  else
    let username := param_username event in
    let admin := param_admin event in
    match register_user api container username admin with
    | ApiRet password =>
        let results :=
          [("register-user", VBool true); ("user-password", VStr password)] in
        mkActionOutcome (Ret tt) (set_results results event)
          [CRegisterUser username admin]
    | ApiError msg =>
        mkActionOutcome (Ret tt) (fail msg event) [CRegisterUser username admin]
    | ApiRaise e => mkActionOutcome (Raise e) event [CRegisterUser username admin]
    end.

Definition _on_promote_user_admin_action (charm_state : CharmState)
    (w : World) (event : ActionEvent) : ActionOutcome :=
  let results := [("promote-user-admin", VBool false)] in
  let container := container w in
  if negb (can_connect container) then
    mkActionOutcome (Ret tt) (fail "Failed to connect to the container" event)
      []
  else
    match token_service_get api container with
    | ApiError msg => mkActionOutcome (Ret tt) (fail msg event) [CGetToken]
    | ApiRaise e => mkActionOutcome (Raise e) event [CGetToken]
    | ApiRet admin_access_token =>
        if negb (truthy_key admin_access_token) then
          mkActionOutcome (Ret tt)
            (fail "Failed to get admin access token" event) [CGetToken]
        else
          let token := default "" admin_access_token in
          let username := param_username event in
          let server := server_name env charm_state in
          let calls := [CGetToken; CPromoteUserAdmin username true server token] in
          match promote_user_admin api username true server token with
          | ApiRet _ =>
              let results :=
                dict_set "promote-user-admin" (VBool true) results in
              mkActionOutcome (Ret tt) (set_results results event) calls
          | ApiError msg => mkActionOutcome (Ret tt) (fail msg event) calls
          | ApiRaise e => mkActionOutcome (Raise e) event calls
          end
    end.

Definition _on_anonymize_user_action (charm_state : CharmState)
    (w : World) (event : ActionEvent) : ActionOutcome :=
  let results := [("anonymize-user", VBool false)] in
  let container := container w in
  let api_failure :=
    "Failed to anonymize the user. Check if the user is created and active." in
  if negb (can_connect container) then
    mkActionOutcome (Ret tt)
      (fail "Container not yet ready. Try again later" event) []
  else
    match token_service_get api container with
    | ApiError _ => mkActionOutcome (Ret tt) (fail api_failure event) [CGetToken]
    | ApiRaise e => mkActionOutcome (Raise e) event [CGetToken]
    | ApiRet admin_access_token =>
        if negb (truthy_key admin_access_token) then
          mkActionOutcome (Ret tt)
            (fail "Failed to get admin access token" event) [CGetToken]
        else
          let token := default "" admin_access_token in
          let username := param_username event in
          let server := server_name env charm_state in
          let calls := [CGetToken; CDeactivateUser username false server token] in
          match deactivate_user api username false server token with
          | ApiRet _ =>
              let results := dict_set "anonymize-user" (VBool true) results in
              mkActionOutcome (Ret tt) (set_results results event) calls
          | ApiError _ => mkActionOutcome (Ret tt) (fail api_failure event) calls
          | ApiRaise e => mkActionOutcome (Raise e) event calls
          end
    end.

(** The hook events [__init__] observes, with what their handlers read
    from them. *)
Inductive HookEvent : Type :=
| ConfigChanged
| LeaderElected
| PeerRelationDeparted (departing_unit : option string)
| PeerRelationChanged
| SynapsePebbleReady.

(** The handler [__init__] registers for each hook event, and the model
    it leaves. *)
Definition handle (event : HookEvent) (charm_state : CharmState) (w : World)
  : World :=
  match event with
  | ConfigChanged => hook_post (_on_config_changed charm_state w)
  | LeaderElected => post (_on_leader_elected env charm_state w)
  | PeerRelationDeparted departing_unit =>
      post (_on_relation_departed env departing_unit charm_state w)
  | PeerRelationChanged => post (_on_relation_changed charm_state w)
  | SynapsePebbleReady => post (_on_synapse_pebble_ready charm_state w)
  end.

(** A run of hook events, each handled with the charm state built for
    it. *)
Fixpoint handle_all (events : list (HookEvent * CharmState)) (w : World)
  : World :=
  match events with
  | [] => w
  | (event, charm_state) :: rest =>
      handle_all rest (handle event charm_state w)
  end.

End Handlers.

(** ** Notions used to state the properties *)

(** The unit number [instance_map] reads off an address ([""] when the
    search finds none). *)
Definition unit_number_of (address : string) : string :=
  default "" (PyStr.re_search_hyphen_digits address).

(** The addresses the loop of [instance_map] does not skip. *)
Definition non_main_addresses (w : World) : list string :=
  filter (λ a, a ≠ get_main_unit_address w) (addresses w).

Definition worker_entries (others : list string)
  : list (string * Endpoint) :=
  map (λ a, worker_entry (unit_number_of a) a) others.

(** The two entries every instance map starts with. *)
Definition seed_entries (w : World) : list (string * Endpoint) :=
  [ ("main", mkEndpoint (get_main_unit_address w) 8035);
    ("federationsender1", mkEndpoint (get_main_unit_address w) 8034) ].

(** ** Notions used to state the properties of the stateful methods *)

(** [peer_relation[0].data[self.app]], empty when there is no peer
    relation. *)
Definition peer_app_data (w : World) : gmap string string :=
  match peer_relations w with
  | [] => ∅
  | relation :: _ => rel_app_data relation
  end.

(** The secret the published reference resolves to, if any. *)
Definition referenced_secret (w : World) : option (gmap string string) :=
  match peer_app_data w !! SECRET_SIGNING_ID with
  | Some secret_id =>
      if PyStr.truthy secret_id then secrets w !! secret_id else None
  | None => None
  end.

(** The reference is published but does not resolve. *)
Definition dangling_reference (w : World) : bool :=
  match peer_app_data w !! SECRET_SIGNING_ID with
  | Some secret_id =>
      PyStr.truthy secret_id && bool_decide (secrets w !! secret_id = None)
  | None => false
  end.

(** The key [get_signing_key] returns. *)
Definition stored_key (w : World) : option string :=
  match referenced_secret w with
  | Some content => content !! SECRET_SIGNING_KEY
  | None => None
  end.

(** The model [get_signing_key] leaves when it returns. *)
Definition clear_dangling (w : World) : World :=
  if dangling_reference w
  then with_peer_app_data (delete SECRET_SIGNING_ID) w
  else w.

(** The reference does not resolve and the unit, not being leader, may
    not remove it: [get_signing_key] raises. *)
Definition access_denied (w : World) : bool :=
  dangling_reference w && negb (is_leader w).

(** The arguments of the calls of [pebble.reconcile] in a trace. *)
Definition applied_configs {CharmState : Type}
    (t : list (Effect CharmState)) : list (CharmState * bool * string) :=
  omap (λ e, match e with
             | EApplyConfig cs main n => Some (cs, main, n)
             | _ => None
             end) t.

(** The contents of the secrets created in a trace. *)
Definition created_secrets {CharmState : Type}
    (t : list (Effect CharmState)) : list (gmap string string) :=
  omap (λ e, match e with
             | EAddSecret content => Some content
             | _ => None
             end) t.

(** The files pushed to the workload in a trace. *)
Definition pushed_files {CharmState : Type}
    (t : list (Effect CharmState)) : list (string * string) :=
  omap (λ e, match e with
             | EPush path content => Some (path, content)
             | _ => None
             end) t.

(** The status [_set_unit_status] computes from the workload. *)
Definition health_status {CharmState : Type} (env : Collaborators CharmState)
    (c : Container) : Status :=
  if negb (can_connect c) then
    MaintenanceStatus "Waiting for Synapse pebble"
  else if missing_or_not_running (get_services c (SYNAPSE_SERVICE_NAME env))
  then MaintenanceStatus "Waiting for Synapse"
  else if missing_or_not_running
            (get_services c (SYNAPSE_NGINX_SERVICE_NAME env))
  then MaintenanceStatus "Waiting for NGINX"
  else ActiveStatus "".

(** The model after the first statement of [reconcile]. *)
Definition bootstrap (w : World) : World :=
  if bool_decide (get_main_unit w = None) && is_leader w
  then with_peer_app_data (<[MAIN_UNIT_ID := unit_name w]>) w
  else w.

(** [set_signing_key] creates a secret: there is a peer relation, the key
    differs from the stored one and the unit is leader. *)
Definition creates_secret (signing_key : string) (w : World) : bool :=
  match peer_relations w with
  | [] => false
  | _ :: _ =>
      negb (bool_decide (Some signing_key = stored_key w)) && is_leader w
  end.

(** The model after a secret for [signing_key] is created and its id
    published. *)
Definition publish_key {CharmState : Type} (env : Collaborators CharmState)
    (signing_key : string) (w : World) : World :=
  let id := new_secret_id env (secrets w) in
  with_peer_app_data (<[SECRET_SIGNING_ID := id]>)
    (with_secrets (<[id := {[SECRET_SIGNING_KEY := signing_key]}]> (secrets w))
       w).

(** The path of the signing key in the workload. *)
Definition signing_key_path {CharmState : Type}
    (env : Collaborators CharmState) (cs : CharmState) : string :=
  "/data/" +:+ server_name env cs +:+ ".signing.key".

(** What the methods of the charm never change, and what only
    [set_main_unit] changes. *)
Definition same_identity (w w' : World) : Prop :=
  unit_name w' = unit_name w ∧ app_name w' = app_name w
  ∧ is_leader w' = is_leader w ∧ planned_units w' = planned_units w.

Definition same_main (w w' : World) : Prop :=
  same_identity w w'
  ∧ get_main_unit w' = get_main_unit w
  ∧ (peer_relations w' = [] ↔ peer_relations w = []).

(** The peer data and the secrets are the same. *)
Definition same_store (w w' : World) : Prop :=
  peer_relations w' = peer_relations w ∧ secrets w' = secrets w.

(** The unit number [reconcile] hands to [pebble.reconcile]. *)
Definition unit_number (w : World) : string :=
  match get_unit_number w "" with
  | Ret n => n
  | Raise _ => ""
  end.

(** The collaborators behave the same on every run.  [pebble.reconcile]
    and [restart_nginx] answer the same whatever the container holds, and
    keep Pebble reachable.  The services [pebble.reconcile] leaves, and
    whether the workload holds a key file then, are determined by its
    arguments; the services [restart_nginx] leaves are determined by the
    services it finds.  Both may write files and start services. *)
Definition steady_workload {CharmState : Type}
    (env : Collaborators CharmState) : Prop :=
  (∀ cs c c' main n,
     (pebble_reconcile env cs c main n).1
     = (pebble_reconcile env cs c' main n).1)
  ∧ (∀ c c' address,
       (restart_nginx env c address).1 = (restart_nginx env c' address).1)
  ∧ (∀ cs c main n,
       can_connect (pebble_reconcile env cs c main n).2 = can_connect c)
  ∧ (∀ c address, can_connect (restart_nginx env c address).2 = can_connect c)
  ∧ (∀ cs c c' main n,
       services (pebble_reconcile env cs c main n).2
       = services (pebble_reconcile env cs c' main n).2)
  ∧ (∀ c c' address,
       services c = services c' →
       services (restart_nginx env c address).2
       = services (restart_nginx env c' address).2)
  ∧ (∀ cs c c' main n,
       files (pebble_reconcile env cs c main n).2 !! signing_key_path env cs
       = None
       ↔ files (pebble_reconcile env cs c' main n).2 !! signing_key_path env cs
         = None).

(** What the [try] block of [reconcile] returns or raises:
    [RelationDataAccessError] when [get_signing_key] is refused; or the
    error of [pebble.reconcile]; or [PathError] when the main unit has no
    key in the store and the workload no key file; or else what updating
    the [matrix-auth] integration gives on a leader. *)
Definition try_result {CharmState : Type} (env : Collaborators CharmState)
    (cs : CharmState) (w : World) : result unit :=
  let rc :=
    pebble_reconcile env cs (container w) (is_main w) (unit_number w) in
  if access_denied w then Raise RelationDataAccessError
  else
    match rc.1 with
    | Raise e => Raise e
    | Ret _ =>
        if is_main w && negb (truthy_key (stored_key w))
           && bool_decide (files rc.2 !! signing_key_path env cs = None)
        then Raise (PathError "not-found")
        else if is_leader w then update_matrix_auth_integration env cs
        else Ret tt
    end.

(** The message of an exception [reconcile] turns into [Blocked]. *)
Definition blocked_message (e : exn) : option string :=
  match e with
  | PebbleServiceError msg | FileNotFoundError msg => Some msg
  | _ => None
  end.

(** What a [reconcile] returns, the status it leaves and the arguments it
    gives to [pebble.reconcile], when the collaborators behave the same on
    every run. *)
Definition reconcile_summary {CharmState : Type}
    (env : Collaborators CharmState) (cs : CharmState) (w : World)
  : result unit * Status * list (CharmState * bool * string) :=
  let wb := bootstrap w in
  let rc :=
    pebble_reconcile env cs (container wb) (is_main wb) (unit_number wb) in
  let rn := restart_nginx env rc.2 (get_main_unit_address wb) in
  let cfg :=
    if access_denied wb then [] else [(cs, is_main wb, unit_number wb)] in
  if negb (can_connect (container wb)) then
    (Ret tt, MaintenanceStatus "Waiting for Synapse pebble", [])
  else
    match try_result env cs wb with
    | Raise e =>
        match blocked_message e with
        | Some msg => (Ret tt, BlockedStatus msg, cfg)
        | None => (Raise e, MaintenanceStatus "Configuring Synapse", cfg)
        end
    | Ret _ =>
        match rn.1 with
        | Raise e => (Raise e, MaintenanceStatus "Configuring Synapse", cfg)
        | Ret _ => (Ret tt, health_status env rn.2, cfg)
        end
    end.

(** Nothing was published: no secret was added and the peer data got no
    new entry. *)
Definition no_publication (w w' : World) : Prop :=
  is_leader w' = is_leader w
  ∧ secrets w' = secrets w
  ∧ peer_app_data w' ⊆ peer_app_data w.

(** [runs m w r w' t]: the method [m], started in [w], gives [r], leaves
    [w'] and makes the calls [t]. *)
Definition runs {CharmState A : Type} (m : M CharmState A) (w : World)
    (r : result A) (w' : World) (t : list (Effect CharmState)) : Prop :=
  m w = mkOutcome r w' t.

(** What the [try] block of [reconcile] does, statement by statement:
    [get_signing_key] raises when it may not remove a reference that does
    not resolve; otherwise the key found in the store is pushed; the
    configuration is applied; a main unit that found no key reads the key
    file and publishes it; a leader updates the [matrix-auth]
    integration. *)
Definition reconcile_try_outcome {CharmState : Type}
    (env : Collaborators CharmState) (cs : CharmState) (w : World)
  : Outcome CharmState unit :=
  let path := signing_key_path env cs in
  let key := stored_key w in
  let w0 := clear_dangling w in
  let w1 :=
    if truthy_key key
    then with_container (with_file path (default "" key) (container w0)) w0
    else w0 in
  let t1 := if truthy_key key then [EPush path (default "" key)] else [] in
  let rc :=
    pebble_reconcile env cs (container w1) (is_main w) (unit_number w) in
  let w2 := with_container rc.2 w1 in
  let t2 := t1 ++ [EApplyConfig cs (is_main w) (unit_number w)] in
  let update w3 t3 :=
    if is_leader w
    then mkOutcome (update_matrix_auth_integration env cs) w3
           (t3 ++ [EMatrixAuth cs])
    else mkOutcome (Ret tt) w3 t3 in
  if access_denied w then mkOutcome (Raise RelationDataAccessError) w []
  else
    match rc.1 with
    | Raise e => mkOutcome (Raise e) w2 t2
    | Ret _ =>
        if is_main w && negb (truthy_key key) then
          match files rc.2 !! path with
          | None => mkOutcome (Raise (PathError "not-found")) w2 t2
          | Some content =>
              let k := PyStr.rstrip content in
              if creates_secret k w2
              then update (publish_key env k w2)
                     (t2 ++ [EPull path; EAddSecret {[SECRET_SIGNING_KEY := k]}])
              else update w2 (t2 ++ [EPull path])
          end
        else update w2 t2
    end.

(** The units of the peer relations are the same. *)
Definition same_peers (w w' : World) : Prop :=
  map rel_units (peer_relations w') = map rel_units (peer_relations w).

(** The addresses NGINX was restarted for in a trace. *)
Definition nginx_restarts {CharmState : Type}
    (t : list (Effect CharmState)) : list string :=
  omap (λ e, match e with
             | ERestartNginx address => Some address
             | _ => None
             end) t.

(** The charm states given to the [matrix-auth] integration in a trace. *)
Definition matrix_auth_updates {CharmState : Type}
    (t : list (Effect CharmState)) : list CharmState :=
  omap (λ e, match e with
             | EMatrixAuth cs => Some cs
             | _ => None
             end) t.

(** The files read from the workload in a trace. *)
Definition pulled_files {CharmState : Type}
    (t : list (Effect CharmState)) : list string :=
  omap (λ e, match e with
             | EPull path => Some path
             | _ => None
             end) t.

(** The workload is up: Pebble answers, Synapse and NGINX run. *)
Definition healthy {CharmState : Type} (env : Collaborators CharmState)
    (c : Container) : Prop :=
  can_connect c = true
  ∧ services c !! SYNAPSE_SERVICE_NAME env = Some true
  ∧ services c !! SYNAPSE_NGINX_SERVICE_NAME env = Some true.

(** A unit id: a non-empty run of digits. *)
Definition is_unit_id (n : string) : bool :=
  PyStr.truthy n && PyStr.all_digits n.

(** The name of unit [n] of application [app]. *)
Definition unit_of (app n : string) : string := app +:+ String "/" n.

(** The versions reported in the trace of a hook. *)
Definition workload_versions {CharmState : Type}
    (t : list (HookEffect CharmState)) : list string :=
  omap (λ e, match e with
             | HSetWorkloadVersion v => Some v
             | _ => None
             end) t.

(** The calls of a hook that come from [reconcile]. *)
Definition charm_calls {CharmState : Type}
    (t : list (HookEffect CharmState)) : list (Effect CharmState) :=
  omap (λ e, match e with
             | HCharm e => Some e
             | _ => None
             end) t.

(** The calls of an action that reach the Synapse API. *)
Definition is_api_call (c : ApiCall) : bool :=
  match c with
  | CPromoteUserAdmin _ _ _ _ | CDeactivateUser _ _ _ _ => true
  | _ => false
  end.

(** An action event as Juju hands it to the handler. *)
Definition fresh_event (username : string) (admin : bool) : ActionEvent :=
  mkActionEvent username admin None None.

(** ** Scenarios *)

Module Scenario.

(** Collaborators that always succeed and leave the workload as it is. *)
Definition env : Collaborators unit :=
  mkCollaborators
    (λ _, "example.com")
    "synapse" "synapse-nginx"
    (λ _ c _ _, (Ret tt, c))
    (λ c _, (Ret tt, c))
    (λ _, Ret tt)
    (λ ss, "secret:" +:+ NilEmpty.string_of_uint (Nat.to_uint (size ss))).

Definition key_path : string := "/data/example.com.signing.key".

(** A workload that is up, with the key file Synapse wrote. *)
Definition workload : Container :=
  mkContainer true
    {[ key_path := "ed25519 a_key abc" +:+ String "010" "" ]}
    {[ "synapse" := true; "synapse-nginx" := true ]}.

(** The example of the specification: three units, [unit/0] is leader
    and main. *)
Definition three_units : World :=
  mkWorld "unit/0" "app" true 3
    [mkRelation ["unit/1"; "unit/2"] {[ MAIN_UNIT_ID := "unit/0" ]}]
    ∅ workload UnknownStatus.

(** Two units are planned and the second has not joined the peer
    relation yet. *)
Definition second_unit_joining : World :=
  mkWorld "synapse/0" "synapse" true 2
    [mkRelation [] {[ MAIN_UNIT_ID := "synapse/0" ]}]
    ∅ workload UnknownStatus.

(** An application whose name holds a hyphen followed by a digit. *)
Definition hyphen_digit_app : World :=
  mkWorld "syn-2go/0" "syn-2go" true 3
    [mkRelation ["syn-2go/1"; "syn-2go/2"] {[ MAIN_UNIT_ID := "syn-2go/0" ]}]
    ∅ workload UnknownStatus.

(** A unit without a number is the main unit. *)
Definition main_without_number : World :=
  mkWorld "synapse" "synapse" true 2
    [mkRelation ["synapse/1"] ∅] ∅ workload UnknownStatus.

(** A peer without a number. *)
Definition peer_without_number : World :=
  mkWorld "synapse/0" "synapse" true 2
    [mkRelation ["broken"] {[ MAIN_UNIT_ID := "synapse/0" ]}]
    ∅ workload UnknownStatus.

(** A leader right after deployment: the peer relation exists, nothing is
    recorded in it. *)
Definition fresh_leader : World :=
  mkWorld "synapse/0" "synapse" true 1
    [mkRelation [] ∅] ∅ workload UnknownStatus.

(** A leader before the peer relation exists. *)
Definition leader_without_relation : World :=
  mkWorld "synapse/0" "synapse" true 1 [] ∅ workload UnknownStatus.

(** The main unit [synapse/1] is recorded; [synapse/0] is leader. *)
Definition other_main : World :=
  mkWorld "synapse/0" "synapse" true 2
    [mkRelation ["synapse/1"] {[ MAIN_UNIT_ID := "synapse/1" ]}]
    ∅ workload UnknownStatus.

(** The signing key is published. *)
Definition key_published : World :=
  mkWorld "synapse/0" "synapse" true 1
    [mkRelation []
       {[ MAIN_UNIT_ID := "synapse/0"; SECRET_SIGNING_ID := "secret:0" ]}]
    {[ "secret:0" := {[ SECRET_SIGNING_KEY := "ed25519 a_key abc" ]} ]}
    workload UnknownStatus.

(** The main unit does not hold leadership and no key is published. *)
Definition main_not_leader : World :=
  mkWorld "synapse/0" "synapse" false 2
    [mkRelation ["synapse/1"] {[ MAIN_UNIT_ID := "synapse/0" ]}]
    ∅ workload UnknownStatus.

(** A unit that an earlier error left blocked. *)
Definition blocked : World :=
  mkWorld "synapse/0" "synapse" true 1
    [mkRelation [] {[ MAIN_UNIT_ID := "synapse/0" ]}]
    ∅ workload (BlockedStatus "Redis integration is required.").

(** The reference to the signing key names a secret that does not
    exist. *)
Definition dangling_key : World :=
  mkWorld "synapse/0" "synapse" true 1
    [mkRelation []
       {[ MAIN_UNIT_ID := "synapse/0"; SECRET_SIGNING_ID := "secret:9" ]}]
    ∅ workload UnknownStatus.

(** Pebble in the workload container is not reachable yet. *)
Definition unreachable : World :=
  mkWorld "synapse/0" "synapse" true 1
    [mkRelation [] ∅] ∅ (mkContainer false ∅ ∅) UnknownStatus.

(** The workload is up but holds no key file. *)
Definition no_key_file : World :=
  mkWorld "synapse/0" "synapse" true 1
    [mkRelation [] {[ MAIN_UNIT_ID := "synapse/0" ]}]
    ∅
    (mkContainer true ∅ {[ "synapse" := true; "synapse-nginx" := true ]})
    UnknownStatus.

(** Collaborators whose [pebble.reconcile] fails. *)
Definition failing_env : Collaborators unit :=
  mkCollaborators
    (λ _, "example.com")
    "synapse" "synapse-nginx"
    (λ _ c _ _, (Raise (PebbleServiceError "Failed to restart Synapse"), c))
    (λ c _, (Ret tt, c))
    (λ _, Ret tt)
    (λ ss, "secret:" +:+ NilEmpty.string_of_uint (Nat.to_uint (size ss))).

(** No Redis is integrated; the Synapse API answers. *)
Definition api : Services unit :=
  mkServices
    (λ _, true)
    (λ _, ApiRet "1.98.0")
    (λ _ _ _, ApiRet "a_password")
    (λ _, ApiRet (Some "a_token"))
    (λ _ _ _ _, ApiRet tt)
    (λ _ _ _ _, ApiRet tt).

(** Redis is integrated; the Synapse API does not answer yet. *)
Definition api_down : Services unit :=
  mkServices
    (λ _, false)
    (λ _, ApiError "Failed to connect to Synapse")
    (λ _ _ _, ApiError "User already exists")
    (λ _, ApiRet None)
    (λ _ _ _ _, ApiError "Failed to connect to Synapse")
    (λ _ _ _ _, ApiError "Failed to connect to Synapse").

(** The published reference resolves to a secret whose signing key is
    empty. *)
Definition empty_key_published : World :=
  mkWorld "synapse/0" "synapse" true 1
    [mkRelation []
       {[ MAIN_UNIT_ID := "synapse/0"; SECRET_SIGNING_ID := "secret:0" ]}]
    {[ "secret:0" := {[ SECRET_SIGNING_KEY := "" ]} ]}
    workload UnknownStatus.

(** The main unit does not hold leadership, and the reference to the
    signing key names a secret that does not exist. *)
Definition dangling_non_leader : World :=
  mkWorld "synapse/0" "synapse" false 2
    [mkRelation ["synapse/1"]
       {[ MAIN_UNIT_ID := "synapse/0"; SECRET_SIGNING_ID := "secret:9" ]}]
    ∅ workload UnknownStatus.

(** A unit that an earlier error left blocked, with Pebble not
    reachable. *)
Definition blocked_unreachable : World :=
  mkWorld "synapse/0" "synapse" true 1
    [mkRelation [] {[ MAIN_UNIT_ID := "synapse/0" ]}]
    ∅ (mkContainer false ∅ ∅)
    (BlockedStatus "Redis integration is required.").

(** A leader right after deployment whose workload runs no service and
    holds no file yet. *)
Definition stopped_leader : World :=
  mkWorld "synapse/0" "synapse" true 1
    [mkRelation [] ∅] ∅ (mkContainer true ∅ ∅) UnknownStatus.

(** Collaborators that apply a configuration: [pebble.reconcile] writes
    the configuration file, has Synapse generate its key file when there
    is none, and starts Synapse; [restart_nginx] starts NGINX. *)
Definition applying_env : Collaborators unit :=
  mkCollaborators
    (λ _, "example.com")
    "synapse" "synapse-nginx"
    (λ _ c _ n,
       (Ret tt,
        mkContainer (can_connect c)
          (<[ "/data/homeserver.yaml" := "worker_name: worker" +:+ n ]>
             (match files c !! key_path with
              | Some _ => files c
              | None =>
                  <[ key_path := "ed25519 a_key generated" +:+ String "010" "" ]>
                    (files c)
              end))
          {[ "synapse" := true ]}))
    (λ c _,
       (Ret tt,
        mkContainer (can_connect c) (files c)
          (<[ "synapse-nginx" := true ]> (services c))))
    (λ _, Ret tt)
    (λ ss, "secret:" +:+ NilEmpty.string_of_uint (Nat.to_uint (size ss))).

End Scenario.

(** * Properties *)

(** ** Facts about the string operations *)

Section StringFacts.
Import PyStr.

Lemma append_cons x a b : String x a +:+ b = String x (a +:+ b).
Proof. reflexivity. Qed.

Lemma append_nil_l a : "" +:+ a = a.
Proof. reflexivity. Qed.

Lemma append_assoc_str a b c : (a +:+ b) +:+ c = a +:+ (b +:+ c).
Proof.
  induction a as [|x a IH]; [reflexivity|].
  rewrite !append_cons. by rewrite IH.
Qed.

Lemma length_append a b :
  String.length (a +:+ b) = (String.length a + String.length b)%nat.
Proof.
  induction a as [|x a IH]; [reflexivity|].
  rewrite append_cons. cbn [String.length]. by rewrite IH.
Qed.

Lemma has_char_cons c a s :
  has_char c (String a s) = Ascii.eqb c a || has_char c s.
Proof. reflexivity. Qed.

Lemma has_char_app c a b :
  has_char c (a +:+ b) = has_char c a || has_char c b.
Proof.
  induction a as [|x a IH]; [reflexivity|].
  rewrite append_cons, !has_char_cons, IH. apply orb_assoc.
Qed.

Lemma has_digit_cons a s :
  has_digit (String a s) = is_digit a || has_digit s.
Proof. reflexivity. Qed.

Lemma all_digits_cons a s :
  all_digits (String a s) = is_digit a && all_digits s.
Proof. reflexivity. Qed.

(** A digit is none of the separators. *)
Lemma is_digit_not_sep c d :
  is_digit d = true → is_digit c = false → Ascii.eqb c d = false.
Proof.
  intros Hd Hc. destruct (Ascii.eqb_spec c d) as [->|]; [congruence|done].
Qed.

Lemma all_digits_has_char c n :
  is_digit c = false → all_digits n = true → has_char c n = false.
Proof.
  intros Hc. induction n as [|d n IH]; [reflexivity|].
  rewrite all_digits_cons, has_char_cons.
  intros [Hd Hn]%andb_prop. by rewrite (is_digit_not_sep c d), IH.
Qed.

Lemma rfind_none c s : has_char c s = false → rfind c s = -1.
Proof.
  induction s as [|a s IH]; [reflexivity|].
  rewrite has_char_cons. intros [Ha Hs]%orb_false_elim.
  cbn [rfind]. rewrite (IH Hs). cbn.
  rewrite Ascii.eqb_sym. by rewrite Ha.
Qed.

Lemma rfind_app_last c a n :
  has_char c n = false →
  rfind c (a +:+ String c n) = Z.of_nat (String.length a).
Proof.
  intros Hn. induction a as [|x a IH].
  - rewrite append_nil_l. cbn [rfind].
    rewrite (rfind_none _ _ Hn). cbn. by rewrite Ascii.eqb_refl.
  - rewrite append_cons. cbn [rfind String.length]. rewrite IH.
    destruct (Z.leb_spec 0 (Z.of_nat (String.length a))); lia.
Qed.

Lemma drop_app_length a b : drop (String.length a) (a +:+ b) = b.
Proof. induction a as [|x a IH]; [by destruct b|exact IH]. Qed.

Lemma slice_from_after_sep a c n :
  slice_from (Z.of_nat (String.length a) + 1) (a +:+ String c n) = n.
Proof.
  unfold slice_from.
  destruct (Z.ltb_spec (Z.of_nat (String.length a) + 1) 0) as [?|_]; [lia|].
  replace (Z.to_nat (Z.of_nat (String.length a) + 1))
    with (String.length (a +:+ String c EmptyString)).
  - replace (a +:+ String c n) with ((a +:+ String c EmptyString) +:+ n)
      by apply append_assoc_str.
    apply drop_app_length.
  - rewrite length_append. cbn [String.length]. lia.
Qed.

(** [split(".")[0]] of a dot-free text followed by nothing or by a
    dotted suffix is that text. *)
Lemma split_head_app sep a suffix :
  has_char sep a = false →
  (suffix = EmptyString ∨ ∃ t, suffix = String sep t) →
  split_head sep (a +:+ suffix) = a.
Proof.
  intros Ha Hsuf. induction a as [|x a IH].
  - destruct Hsuf as [->|[t ->]]; [reflexivity|].
    rewrite append_nil_l. cbn [split_head]. by rewrite Ascii.eqb_refl.
  - rewrite has_char_cons in Ha. apply orb_false_elim in Ha as [Hx Ha].
    rewrite append_cons. cbn [split_head].
    rewrite Ascii.eqb_sym, Hx. by rewrite (IH Ha).
Qed.

Lemma replace_app old new a b :
  replace old new (a +:+ b) = replace old new a +:+ replace old new b.
Proof.
  induction a as [|x a IH]; [reflexivity|].
  rewrite append_cons. cbn [replace]. by rewrite IH.
Qed.

Lemma replace_absent old new s :
  has_char old s = false → replace old new s = s.
Proof.
  induction s as [|x s IH]; [reflexivity|].
  rewrite has_char_cons. intros [Hx Hs]%orb_false_elim.
  cbn [replace]. rewrite Ascii.eqb_sym, Hx. by rewrite (IH Hs).
Qed.

Lemma take_digits_app n t :
  all_digits n = true → starts_with_digit t = false →
  take_digits (n +:+ t) = n.
Proof.
  intros Hn Ht. induction n as [|d n IH].
  - destruct t as [|c t]; [reflexivity|].
    rewrite append_nil_l. cbn [take_digits starts_with_digit] in *.
    by rewrite Ht.
  - rewrite all_digits_cons in Hn. apply andb_prop in Hn as [Hd Hn].
    rewrite append_cons. cbn [take_digits]. rewrite Hd. by rewrite (IH Hn).
Qed.

Lemma starts_with_digit_app a b :
  starts_with_digit (a +:+ b) =
  match a with
  | EmptyString => starts_with_digit b
  | String _ _ => starts_with_digit a
  end.
Proof. by destruct a. Qed.

(** The search finds the unit number of an address when nothing before
    it looks like a hyphen followed by a digit. *)
Lemma re_search_after_prefix a d n t :
  re_search_hyphen_digits a = None →
  is_digit d = true → all_digits n = true →
  starts_with_digit t = false →
  re_search_hyphen_digits (a +:+ String "-" (String d n +:+ t))
  = Some (String d n).
Proof.
  intros Ha Hd Hn Ht. induction a as [|x a IH].
  - rewrite append_nil_l, append_cons.
    cbn [re_search_hyphen_digits starts_with_digit].
    rewrite Hd. cbn [Ascii.eqb Bool.eqb andb]. f_equal.
    change (String d (n +:+ t)) with (String d n +:+ t).
    apply take_digits_app; [|done].
    by rewrite all_digits_cons, Hd, Hn.
  - rewrite append_cons. cbn [re_search_hyphen_digits] in Ha |- *.
    rewrite starts_with_digit_app.
    destruct a as [|y a].
    + cbn [starts_with_digit] in *.
      replace (is_digit "-") with false by reflexivity.
      rewrite andb_false_r. apply IH.
      rewrite andb_false_r in Ha. exact Ha.
    + destruct (Ascii.eqb x "-" && starts_with_digit (String y a));
        [discriminate|]. by apply IH.
Qed.

(** Two runs of digits followed by a dot are equal when the texts are. *)
Lemma digits_before_dot_inj n1 n2 t1 t2 :
  all_digits n1 = true → all_digits n2 = true →
  n1 +:+ String "." t1 = n2 +:+ String "." t2 → n1 = n2.
Proof.
  revert n2. induction n1 as [|d1 n1 IH]; intros [|d2 n2] H1 H2 Heq.
  - reflexivity.
  - rewrite all_digits_cons in H2. apply andb_prop in H2 as [Hd _].
    cbn in Heq. injection Heq as <- _. discriminate.
  - rewrite all_digits_cons in H1. apply andb_prop in H1 as [Hd _].
    cbn in Heq. injection Heq as -> _. discriminate.
  - rewrite all_digits_cons in H1, H2.
    apply andb_prop in H1 as [_ H1]. apply andb_prop in H2 as [_ H2].
    rewrite !append_cons in Heq. injection Heq as -> Heq.
    f_equal. by apply (IH n2).
Qed.

Lemma has_digit_split_head sep s :
  has_digit s = false → has_digit (split_head sep s) = false.
Proof.
  induction s as [|x s IH]; [reflexivity|].
  rewrite has_digit_cons. intros [Hx Hs]%orb_false_elim.
  cbn [split_head]. destruct (Ascii.eqb x sep); [reflexivity|].
  by rewrite has_digit_cons, Hx, IH.
Qed.

Lemma has_digit_drop n s :
  has_digit s = false → has_digit (drop n s) = false.
Proof.
  revert s. induction n as [|n IH]; intros [|x s]; try done.
  rewrite has_digit_cons. intros [_ Hs]%orb_false_elim. by apply IH.
Qed.

End StringFacts.

(** ** Unit numbers and addresses *)

Section UnitIdentity.
Import PyStr.

Lemma truthy_app_cons a c s : truthy (a +:+ String c s) = true.
Proof. by destruct a. Qed.

Lemma get_unit_number_of_part (w : World) (name part n : string) (i : Z) :
  truthy name = true →
  split_head "." name = part →
  (if rfind "/" part =? -1 then rfind "-" part else rfind "/" part) = i →
  slice_from (i + 1) part = n →
  get_unit_number w name = Ret n.
Proof.
  intros Hname Hpart Hi Hn. unfold get_unit_number.
  rewrite Hname, Hpart. cbv zeta. by rewrite Hi, Hn.
Qed.

Lemma get_unit_number_slash (w : World) (app n suffix : string) :
  has_char "." app = false →
  all_digits n = true →
  (suffix = "" ∨ ∃ t, suffix = String "." t) →
  get_unit_number w (app +:+ String "/" n +:+ suffix) = Ret n.
Proof.
  intros Happ Hn Hsuf.
  apply (get_unit_number_of_part w _ (app +:+ String "/" n) n
           (Z.of_nat (String.length app))).
  - apply truthy_app_cons.
  - replace (app +:+ String "/" n +:+ suffix)
      with ((app +:+ String "/" n) +:+ suffix)
      by (by rewrite append_assoc_str).
    apply split_head_app; [|done].
    rewrite has_char_app, has_char_cons, Happ.
    by rewrite (all_digits_has_char "." n).
  - rewrite rfind_app_last by (by apply all_digits_has_char).
    destruct (Z.eqb_spec (Z.of_nat (String.length app)) (-1)); [lia|done].
  - apply slice_from_after_sep.
Qed.

Lemma get_unit_number_hyphen (w : World) (app n suffix : string) :
  has_char "." app = false →
  has_char "/" app = false →
  all_digits n = true →
  (suffix = "" ∨ ∃ t, suffix = String "." t) →
  get_unit_number w (app +:+ String "-" n +:+ suffix) = Ret n.
Proof.
  intros Happ Hslash Hn Hsuf.
  apply (get_unit_number_of_part w _ (app +:+ String "-" n) n
           (Z.of_nat (String.length app))).
  - apply truthy_app_cons.
  - replace (app +:+ String "-" n +:+ suffix)
      with ((app +:+ String "-" n) +:+ suffix)
      by (by rewrite append_assoc_str).
    apply split_head_app; [|done].
    rewrite has_char_app, has_char_cons, Happ.
    by rewrite (all_digits_has_char "." n).
  - rewrite (rfind_none "/").
    + cbn [Z.eqb Pos.eqb Z.opp]. by apply rfind_app_last, all_digits_has_char.
    + rewrite has_char_app, has_char_cons, Hslash.
      by rewrite (all_digits_has_char "/" n).
  - apply slice_from_after_sep.
Qed.

Lemma get_unit_number_no_digit (w : World) (name : string) :
  name ≠ "" → has_digit name = false →
  ∃ v, get_unit_number w name = Ret v ∧ has_digit v = false.
Proof.
  intros Hne Hnd. unfold get_unit_number.
  destruct name as [|c name]; [done|]. cbn [truthy]. cbv zeta.
  eexists. split; [reflexivity|].
  unfold slice_from. by apply has_digit_drop, has_digit_split_head.
Qed.

(** C2 (as amended): for a name [app/N] or [app-N], each with an optional
    dotted suffix, where [app] has no dot (and, in the hyphen form, no
    slash) and [N] is a run of digits, [get_unit_number] returns [N]; it
    never raises: for every name it returns a string, and for a non-empty
    name without digits the string it returns has no digit either. *)
Theorem get_unit_number_spec (w : World) (app n suffix : string) :
  has_char "." app = false →
  all_digits n = true →
  (suffix = "" ∨ ∃ t, suffix = String "." t) →
  get_unit_number w (app +:+ String "/" n +:+ suffix) = Ret n
  ∧ (has_char "/" app = false →
     get_unit_number w (app +:+ String "-" n +:+ suffix) = Ret n)
  ∧ (∀ name, ∃ v, get_unit_number w name = Ret v)
  ∧ (∀ name, name ≠ "" → has_digit name = false →
       ∃ v, get_unit_number w name = Ret v ∧ has_digit v = false).
Proof.
  intros Happ Hn Hsuf. repeat split.
  - by apply get_unit_number_slash.
  - intros Hslash. by apply get_unit_number_hyphen.
  - intros name. by eexists.
  - apply get_unit_number_no_digit.
Qed.

Lemma unit_address_unfold name app :
  unit_address name app
  = replace "/" "-" name +:+ String "." (app +:+ "-endpoints").
Proof. reflexivity. Qed.

Lemma unit_address_of_unit app n app' :
  all_digits n = true →
  unit_address (app +:+ String "/" n) app'
  = replace "/" "-" app +:+ String "-" (n +:+ String "." (app' +:+ "-endpoints")).
Proof.
  intros Hn. rewrite unit_address_unfold, replace_app.
  cbn [replace]. rewrite Ascii.eqb_refl.
  rewrite (replace_absent "/" "-" n) by (by apply all_digits_has_char).
  by rewrite append_assoc_str.
Qed.

(** Units of one application with different numbers have different
    addresses. *)
Lemma unit_address_inj app n1 n2 app' :
  all_digits n1 = true → all_digits n2 = true →
  unit_address (app +:+ String "/" n1) app'
  = unit_address (app +:+ String "/" n2) app' →
  n1 = n2.
Proof.
  intros H1 H2. rewrite !unit_address_of_unit by done.
  intros Heq%(inj (String.app _)). injection Heq as Heq.
  by apply digits_before_dot_inj in Heq.
Qed.

(** The unit number [instance_map] finds in the address of unit
    [app/N], when the application name holds no hyphen followed by a
    digit. *)
Lemma re_search_unit_address app d n app' :
  re_search_hyphen_digits (replace "/" "-" app) = None →
  is_digit d = true → all_digits n = true →
  re_search_hyphen_digits (unit_address (app +:+ String "/" (String d n)) app')
  = Some (String d n).
Proof.
  intros Happ Hd Hn.
  rewrite unit_address_of_unit by (by rewrite all_digits_cons, Hd, Hn).
  by apply re_search_after_prefix.
Qed.

(** C9: when no main unit is recorded (there is no peer relation, or its
    application data has no [main_unit_id]), [get_main_unit_address] is
    the address of the observing unit itself: its name with [/] replaced
    by [-], then [.<app>-endpoints].  Two units [app/N1] and [app/N2] of
    one application with different numbers then compute different main
    addresses. *)
Theorem get_main_unit_address_fallback (w : World) :
  (peer_relations w = []
   ∨ ∃ relation rest, peer_relations w = relation :: rest
       ∧ rel_app_data relation !! MAIN_UNIT_ID = None) →
  get_main_unit w = None
  ∧ get_main_unit_address w
    = replace "/" "-" (unit_name w) +:+ "." +:+ app_name w +:+ "-endpoints"
  ∧ ∀ w' app n1 n2,
      get_main_unit w' = None →
      app_name w' = app_name w →
      unit_name w = app +:+ String "/" n1 →
      unit_name w' = app +:+ String "/" n2 →
      all_digits n1 = true → all_digits n2 = true → n1 ≠ n2 →
      get_main_unit_address w' ≠ get_main_unit_address w.
Proof.
  intros Hnone.
  assert (Hmain : get_main_unit w = None).
  { unfold get_main_unit.
    destruct Hnone as [->|(relation & rest & -> & Hdata)]; done. }
  split; [done|]. split.
  - unfold get_main_unit_address. by rewrite Hmain.
  - intros w' app n1 n2 Hmain' Happ Hu Hu' H1 H2 Hne Heq.
    unfold get_main_unit_address in Heq.
    rewrite Hmain, Hmain', Happ, Hu, Hu' in Heq.
    apply unit_address_inj in Heq; [congruence|done..].
Qed.

End UnitIdentity.

(** ** The instance map *)

Section InstanceMap.
Import PyStr.

Lemma dict_set_fresh {V : Type} (k : string) (v : V) (d : list (string * V)) :
  k ∉ map fst d → dict_set k v d = d ++ [(k, v)].
Proof.
  induction d as [|[k' v'] d IH]; [reflexivity|].
  cbn [map fst dict_set]. intros Hk.
  apply not_elem_of_cons in Hk as [Hne Hk].
  destruct (String.eqb_spec k' k) as [->|_]; [done|].
  by rewrite (IH Hk).
Qed.

Lemma filter_non_main_cons_eq (main : string) (rest : list string) :
  filter (λ a, a ≠ main) (main :: rest) = filter (λ a, a ≠ main) rest.
Proof. by rewrite filter_cons_False by (intros H; by apply H). Qed.

(** With an id for every address that is not skipped, and no two of their
    worker names alike or already a key, the loop appends one worker per
    such address, in order. *)
Lemma instance_map_loop_ok (main : string) (addrs : list string)
    (imap : list (string * Endpoint)) :
  Forall (λ a, is_Some (re_search_hyphen_digits a))
    (filter (λ a, a ≠ main) addrs) →
  NoDup (map fst imap
         ++ map (λ a, "worker" +:+ unit_number_of a)
              (filter (λ a, a ≠ main) addrs)) →
  instance_map_loop main addrs imap
  = Ret (imap ++ worker_entries (filter (λ a, a ≠ main) addrs)).
Proof.
  revert imap. induction addrs as [|a rest IH]; intros imap Hids Hnd.
  - cbn. by rewrite app_nil_r.
  - cbn [instance_map_loop].
    destruct (String.eqb_spec a main) as [->|Hne].
    + rewrite filter_non_main_cons_eq in Hids, Hnd |- *. by apply IH.
    + rewrite filter_cons_True in Hids, Hnd |- * by done.
      apply Forall_cons in Hids as [[id Hid] Hids].
      rewrite Hid. cbn [worker_entry].
      cbn [map] in Hnd. apply NoDup_app in Hnd as (Hnd1 & Hdisj & Hnd2).
      apply NoDup_cons in Hnd2 as [Hfresh Hnd2].
      assert (Hun : unit_number_of a = id) by (unfold unit_number_of; by rewrite Hid).
      rewrite Hun in Hdisj, Hfresh.
      rewrite dict_set_fresh by (intros Hin; apply (Hdisj _ Hin); left).
      rewrite IH; [| done |].
      * cbn [worker_entries map]. rewrite Hun. unfold worker_entry.
        by rewrite <- app_assoc.
      * rewrite map_app. cbn [map fst]. rewrite <- app_assoc. cbn [app].
        apply NoDup_app. split; [done|]. split.
        -- intros k Hk Hin. apply (Hdisj k Hk). done.
        -- by apply NoDup_cons.
Qed.

(** An address that is not skipped and has no id stops the loop. *)
Lemma instance_map_loop_raises (main : string) (addrs : list string)
    (imap : list (string * Endpoint)) (a : string) :
  a ∈ addrs → a ≠ main → re_search_hyphen_digits a = None →
  instance_map_loop main addrs imap = Raise AttributeError.
Proof.
  revert imap. induction addrs as [|a0 rest IH]; intros imap Hin Hne Hnone.
  - by apply elem_of_nil in Hin.
  - cbn [instance_map_loop].
    apply elem_of_cons in Hin as [<-|Hin].
    + destruct (String.eqb_spec a main); [done|]. by rewrite Hnone.
    + destruct (String.eqb a0 main); [by apply IH|].
      destruct (re_search_hyphen_digits a0); [|done].
      cbn [worker_entry]. by apply IH.
Qed.

Lemma worker_names_NoDup (others : list string) :
  NoDup (map unit_number_of others) →
  NoDup (map (λ a, "worker" +:+ unit_number_of a) others).
Proof.
  intros Hnd.
  change (map (λ a, "worker" +:+ unit_number_of a) others)
    with (map (λ a, (String.app "worker" ∘ unit_number_of) a) others).
  rewrite <- (map_map unit_number_of (String.app "worker")).
  apply (NoDup_fmap_2 (String.app "worker")). exact Hnd.
Qed.

Lemma worker_name_not_seed (others : list string) (k : string) :
  k ∈ map (λ a, "worker" +:+ unit_number_of a) others →
  k ≠ "main" ∧ k ≠ "federationsender1".
Proof.
  intros Hin. apply list_elem_of_In, in_map_iff in Hin as (a & <- & _).
  split; discriminate.
Qed.

Lemma instance_map_single (w : World) :
  peer_units_total w = 1 → instance_map w = Ret None.
Proof. intros H. unfold instance_map. by rewrite H. Qed.

Lemma instance_map_many (w : World) :
  peer_units_total w ≠ 1 →
  Forall (λ a, is_Some (re_search_hyphen_digits a)) (non_main_addresses w) →
  NoDup (map unit_number_of (non_main_addresses w)) →
  instance_map w
  = Ret (Some (seed_entries w ++ worker_entries (non_main_addresses w))).
Proof.
  intros Hk Hids Hnd. unfold instance_map.
  destruct (Z.eqb_spec (peer_units_total w) 1) as [?|_]; [done|].
  fold (seed_entries w). unfold non_main_addresses in *.
  rewrite instance_map_loop_ok; [done|done|].
  apply NoDup_app. split; [|split].
  - cbn. apply NoDup_cons. split; [|apply NoDup_singleton].
    intros Hin%list_elem_of_singleton. discriminate.
  - intros k Hk1 Hk2. apply worker_name_not_seed in Hk2 as [??].
    cbn [seed_entries map fst] in Hk1.
    apply elem_of_cons in Hk1 as [->|Hk1%list_elem_of_singleton]; congruence.
  - by apply worker_names_NoDup.
Qed.

(** C1 (as amended): when the application plans exactly one unit,
    [instance_map] gives no instance map.  Otherwise take the addresses the
    charm knows, its own followed by those of the units that joined the
    peer relation, [K] in all: if every address other than the main one has
    a unit number, no two of these numbers are alike, and the main address
    is one of the [K], the map has exactly [K+1] entries, in this order:
    [main] and [federationsender1], both at the main address (ports 8035
    and 8034), then one [worker<id>] at port 8034 per other address, in
    the order of the addresses. *)
Theorem instance_map_shape (w : World) :
  (peer_units_total w = 1 → instance_map w = Ret None)
  ∧ (peer_units_total w ≠ 1 →
     Forall (λ a, is_Some (re_search_hyphen_digits a)) (non_main_addresses w) →
     NoDup (map unit_number_of (non_main_addresses w)) →
     S (length (non_main_addresses w)) = length (addresses w) →
     ∃ imap,
       instance_map w = Ret (Some imap)
       ∧ imap = ("main", mkEndpoint (get_main_unit_address w) 8035)
                :: ("federationsender1", mkEndpoint (get_main_unit_address w) 8034)
                :: map (λ a, ("worker" +:+ unit_number_of a, mkEndpoint a 8034))
                     (non_main_addresses w)
       ∧ length imap = S (length (addresses w))).
Proof.
  split; [apply instance_map_single|].
  intros Hk Hids Hnd Hlen. eexists. split; [by apply instance_map_many|].
  split; [reflexivity|].
  rewrite length_app. unfold worker_entries. rewrite length_map.
  cbn [seed_entries length]. lia.
Qed.

(** C3 (as amended): when the application plans more than one unit (any
    number but one) and the addresses hold one that is not the main address
    and has no hyphen followed by digits, [instance_map] raises
    [AttributeError] and returns no map.  The main address is skipped
    before its number is read. *)
Theorem instance_map_malformed_address (w : World) (a : string) :
  peer_units_total w ≠ 1 →
  a ∈ addresses w →
  a ≠ get_main_unit_address w →
  re_search_hyphen_digits a = None →
  instance_map w = Raise AttributeError.
Proof.
  intros Hk Hin Hne Hnone. unfold instance_map.
  destruct (Z.eqb_spec (peer_units_total w) 1) as [?|_]; [done|].
  by rewrite (instance_map_loop_raises _ _ _ a).
Qed.

End InstanceMap.

(** ** More about the instance map *)

Section InstanceMapEntries.
Import PyStr.

Lemma dict_set_app_l {V : Type} (k : string) (v : V)
    (d1 d2 : list (string * V)) :
  k ∉ map fst d1 → dict_set k v (d1 ++ d2) = d1 ++ dict_set k v d2.
Proof.
  induction d1 as [|[k' v'] d1 IH]; [done|].
  cbn [map fst app dict_set]. intros Hk.
  apply not_elem_of_cons in Hk as [Hne Hk].
  destruct (String.eqb_spec k' k) as [->|_]; [done|].
  by rewrite (IH Hk).
Qed.

Lemma dict_set_Forall {V : Type} (P : string * V → Prop) (k : string) (v : V)
    (d : list (string * V)) :
  P (k, v) → Forall P d → Forall P (dict_set k v d).
Proof.
  intros Hkv. induction d as [|[k' v'] d IH]; intros Hd.
  - by apply Forall_singleton.
  - cbn [dict_set]. apply Forall_cons in Hd as [Hhd Hd].
    destruct (String.eqb k' k); apply Forall_cons; auto.
Qed.

Lemma dict_set_length {V : Type} (k : string) (v : V) (d : list (string * V)) :
  (length (dict_set k v d) ≤ S (length d))%nat.
Proof.
  induction d as [|[k' v'] d IH]; [done|].
  cbn [dict_set]. destruct (String.eqb k' k); cbn [length]; lia.
Qed.

Lemma dict_set_keys {V : Type} (k k0 : string) (v : V)
    (d : list (string * V)) :
  k0 ∈ map fst (dict_set k v d) ↔ k0 = k ∨ k0 ∈ map fst d.
Proof.
  induction d as [|[k' v'] d IH].
  - cbn. rewrite list_elem_of_singleton, elem_of_nil. tauto.
  - cbn [dict_set]. destruct (String.eqb_spec k' k) as [->|Hne].
    + cbn [map fst]. rewrite !elem_of_cons. tauto.
    + cbn [map fst]. rewrite !elem_of_cons, IH. tauto.
Qed.

Lemma worker_key_not_seed (w : World) (n : string) :
  "worker" +:+ n ∉ map fst (seed_entries w).
Proof.
  cbn. intros [H|H%list_elem_of_singleton]%elem_of_cons; discriminate.
Qed.

(** Whatever the loop of [instance_map] returns is the two first entries
    followed by workers, each for an address that is not the main one
    and under the name the search reads off that address. *)
Lemma instance_map_loop_entries (w : World) (main : string)
    (all addrs : list string) (workers imap : list (string * Endpoint)) :
  (∀ a, a ∈ addrs → a ∈ all) →
  Forall (λ e, ∃ a n, a ∈ all ∧ a ≠ main
                      ∧ re_search_hyphen_digits a = Some n
                      ∧ e = ("worker" +:+ n, mkEndpoint a 8034)) workers →
  instance_map_loop main addrs (seed_entries w ++ workers) = Ret imap →
  ∃ workers',
    imap = seed_entries w ++ workers'
    ∧ Forall (λ e, ∃ a n, a ∈ all ∧ a ≠ main
                          ∧ re_search_hyphen_digits a = Some n
                          ∧ e = ("worker" +:+ n, mkEndpoint a 8034)) workers'
    ∧ (length workers'
       ≤ length workers + length (filter (λ a, a ≠ main) addrs))%nat
    ∧ (∀ k, k ∈ map fst workers → k ∈ map fst workers')
    ∧ (∀ a, a ∈ addrs → a ≠ main →
         "worker" +:+ unit_number_of a ∈ map fst workers').
Proof.
  revert workers. induction addrs as [|a rest IH]; intros workers Hall Hw Hrun.
  - cbn in Hrun. injection Hrun as <-. exists workers.
    repeat split; try done.
    + cbn. lia.
    + intros a Ha. by apply elem_of_nil in Ha.
  - cbn [instance_map_loop] in Hrun.
    assert (Hrest : ∀ a0, a0 ∈ rest → a0 ∈ all)
      by (intros a0 Ha0; apply Hall; by right).
    destruct (String.eqb_spec a main) as [->|Hne].
    + destruct (IH workers Hrest Hw Hrun) as (ws & -> & Hws & Hlen & Hkeys & Hin).
      exists ws. repeat split; try done.
      * by rewrite filter_non_main_cons_eq.
      * intros a0 [->|Ha0]%elem_of_cons Hne0; [done|by apply Hin].
    + destruct (re_search_hyphen_digits a) as [n|] eqn:Hn; [|done].
      cbn [worker_entry] in Hrun.
      rewrite dict_set_app_l in Hrun by apply worker_key_not_seed.
      apply IH in Hrun as (ws & -> & Hws & Hlen & Hkeys & Hin); [|done|].
      * exists ws. repeat split; try done.
        -- rewrite filter_cons_True by done. cbn [length].
           pose proof (dict_set_length ("worker" +:+ n) (mkEndpoint a 8034)
                         workers). lia.
        -- intros k Hk. apply Hkeys, dict_set_keys. by right.
        -- intros a0 [->|Ha0]%elem_of_cons Hne0; [|by apply Hin].
           apply Hkeys, dict_set_keys. left.
           unfold unit_number_of. by rewrite Hn.
      * apply dict_set_Forall; [|done].
        exists a, n. repeat split; try done. apply Hall. by left.
Qed.

(** X1: every instance map the charm builds, also one in which worker
    names collide, starts with [main] and [federationsender1] at the main
    address; every further entry is a worker, at port 8034, for an address
    of the list that is not the main address, under the name made of the
    number the search finds in that address; there are at most as many
    workers as such addresses, and each such address finds its worker name
    among the keys. *)
Theorem instance_map_entries (w : World) (imap : list (string * Endpoint)) :
  instance_map w = Ret (Some imap) →
  ∃ workers,
    imap = ("main", mkEndpoint (get_main_unit_address w) 8035)
           :: ("federationsender1", mkEndpoint (get_main_unit_address w) 8034)
           :: workers
    ∧ Forall (λ e, ∃ a n, a ∈ addresses w ∧ a ≠ get_main_unit_address w
                          ∧ re_search_hyphen_digits a = Some n
                          ∧ e = ("worker" +:+ n, mkEndpoint a 8034)) workers
    ∧ (length workers ≤ length (non_main_addresses w))%nat
    ∧ (∀ a, a ∈ addresses w → a ≠ get_main_unit_address w →
         "worker" +:+ unit_number_of a ∈ map fst workers).
Proof.
  unfold instance_map. destruct (peer_units_total w =? 1); [done|].
  fold (seed_entries w).
  destruct (instance_map_loop _ _ _) as [imap'|] eqn:Hloop; [|done].
  intros [= <-].
  rewrite <- (app_nil_r (seed_entries w)) in Hloop.
  apply (instance_map_loop_entries w _ (addresses w)) in Hloop
    as (ws & -> & Hws & Hlen & _ & Hin); [|done|by apply Forall_nil].
  exists ws. repeat split; try done.
Qed.

Lemma is_unit_id_cons (n : string) :
  is_unit_id n = true →
  ∃ d n', n = String d n' ∧ is_digit d = true ∧ all_digits n' = true.
Proof.
  unfold is_unit_id. destruct n as [|d n']; [done|].
  cbn [truthy andb]. rewrite all_digits_cons. intros [??]%andb_prop.
  by exists d, n'.
Qed.

Lemma is_unit_id_digits (n : string) :
  is_unit_id n = true → all_digits n = true.
Proof. unfold is_unit_id. by intros [_ ?]%andb_prop. Qed.

Lemma unit_number_of_unit_address (app n app' : string) :
  re_search_hyphen_digits (replace "/" "-" app) = None →
  is_unit_id n = true →
  re_search_hyphen_digits (unit_address (unit_of app n) app') = Some n.
Proof.
  intros Happ (d & n' & -> & Hd & Hn')%is_unit_id_cons.
  by apply re_search_unit_address.
Qed.

Lemma filter_unit_addresses (app app' m : string) (ns : list string) :
  is_unit_id m = true →
  Forall (λ n, is_unit_id n = true) ns →
  filter (λ a, a ≠ unit_address (unit_of app m) app')
    (map (λ n, unit_address (unit_of app n) app') ns)
  = map (λ n, unit_address (unit_of app n) app') (filter (λ n, n ≠ m) ns).
Proof.
  intros Hm. induction ns as [|n ns IH]; [done|].
  intros [Hn Hns]%Forall_cons. cbn [map].
  destruct (decide (n = m)) as [->|Hne].
  - rewrite filter_non_main_cons_eq.
    rewrite (filter_cons_False _ m) by (intros H; by apply H). by apply IH.
  - rewrite !filter_cons_True; [by rewrite IH|done|].
    intros Heq. apply Hne.
    by apply unit_address_inj in Heq; [|apply is_unit_id_digits..].
Qed.

(** X2: on units named as Juju names them, [app/N] with [N] a run of
    digits, of an application whose name holds no hyphen followed by a
    digit, and with distinct numbers, the instance map is complete: after
    [main] and [federationsender1] it has exactly one [worker<N>] for each
    known unit [app/N] other than the main unit, at the address of that
    unit, in the order own unit first, then the peers. *)
Theorem instance_map_juju_units (w : World) (app n0 m : string)
    (ns : list string) (relation : Relation) (rest : list Relation) :
  peer_units_total w ≠ 1 →
  unit_name w = unit_of app n0 →
  peer_relations w = relation :: rest →
  rel_units relation = map (unit_of app) ns →
  default (unit_name w) (get_main_unit w) = unit_of app m →
  re_search_hyphen_digits (replace "/" "-" app) = None →
  Forall (λ n, is_unit_id n = true) (m :: n0 :: ns) →
  NoDup (n0 :: ns) →
  instance_map w
  = Ret (Some
      (("main", mkEndpoint (unit_address (unit_of app m) (app_name w)) 8035)
       :: ("federationsender1",
           mkEndpoint (unit_address (unit_of app m) (app_name w)) 8034)
       :: map (λ n, ("worker" +:+ n,
                     mkEndpoint (unit_address (unit_of app n) (app_name w))
                       8034))
            (filter (λ n, n ≠ m) (n0 :: ns)))).
Proof.
  intros Hk Hname Hrel Hunits Hmain Happ [Hm Hids]%Forall_cons Hnd.
  assert (Haddr : addresses w
            = map (λ n, unit_address (unit_of app n) (app_name w)) (n0 :: ns)).
  { unfold addresses. rewrite Hrel, Hunits, Hname, map_map. done. }
  assert (Hmaddr : get_main_unit_address w
            = unit_address (unit_of app m) (app_name w)).
  { unfold get_main_unit_address.
    destruct (get_main_unit w); cbn [from_option id] in Hmain;
      by rewrite Hmain. }
  assert (Hnon : non_main_addresses w
            = map (λ n, unit_address (unit_of app n) (app_name w))
                (filter (λ n, n ≠ m) (n0 :: ns))).
  { unfold non_main_addresses. rewrite Haddr, Hmaddr.
    by apply filter_unit_addresses. }
  assert (Hids' : Forall (λ n, is_unit_id n = true)
                    (filter (λ n, n ≠ m) (n0 :: ns))).
  { apply Forall_forall. intros n [_ Hn]%list_elem_of_filter.
    by apply (proj1 (Forall_forall _ _) Hids). }
  rewrite instance_map_many; [| done | |].
  - unfold seed_entries. rewrite Hmaddr, Hnon. cbn [List.app]. do 4 f_equal.
    unfold worker_entries. rewrite map_map.
    apply Forall_fmap_ext_1. eapply Forall_impl; [exact Hids'|].
    intros n Hn. cbn beta. unfold unit_number_of, worker_entry.
    by rewrite unit_number_of_unit_address.
  - rewrite Hnon. apply Forall_forall.
    intros a (n & -> & Hn)%list_elem_of_fmap.
    rewrite unit_number_of_unit_address; [by eexists|done|].
    by apply (proj1 (Forall_forall _ _) Hids').
  - rewrite Hnon, map_map.
    assert (Hext : map (λ n, unit_number_of
                               (unit_address (unit_of app n) (app_name w)))
                     (filter (λ n, n ≠ m) (n0 :: ns))
                   = filter (λ n, n ≠ m) (n0 :: ns)).
    { rewrite <- (map_id (filter _ _)) at 2.
      apply Forall_fmap_ext_1. eapply Forall_impl; [exact Hids'|].
      intros n Hn. cbn beta. unfold unit_number_of.
      by rewrite unit_number_of_unit_address. }
    rewrite Hext. by apply NoDup_filter.
Qed.

Lemma append_nil_r (a : string) : a +:+ "" = a.
Proof.
  induction a as [|x a IH]; [reflexivity|].
  rewrite append_cons. by rewrite IH.
Qed.

Lemma has_char_replace_old (old new : ascii) (s : string) :
  old ≠ new → has_char old (replace old new s) = false.
Proof.
  intros Hne. induction s as [|x s IH]; [done|].
  cbn [replace]. rewrite has_char_cons, IH, orb_false_r.
  destruct (Ascii.eqb_spec x old) as [->|Hx].
  - by apply Ascii.eqb_neq.
  - apply Ascii.eqb_neq. congruence.
Qed.

Lemma has_char_replace_other (c old new : ascii) (s : string) :
  c ≠ old → c ≠ new → has_char c (replace old new s) = has_char c s.
Proof.
  intros Ho Hn. induction s as [|x s IH]; [done|].
  cbn [replace]. rewrite !has_char_cons, IH. f_equal.
  destruct (Ascii.eqb_spec x old) as [->|Hx]; [|done].
  apply Ascii.eqb_neq in Ho, Hn. by rewrite Ho, Hn.
Qed.

(** X3: for a unit [app/N] of an application whose name has no dot and no
    hyphen followed by a digit, the three ways the charm reads a unit
    number agree on [N]: [get_unit_number] on the unit name (also on the
    unit's own name when called without one), [get_unit_number] on the
    unit's address, and the search of [instance_map] in that address.  So
    the worker name of the unit in the instance map carries the number the
    unit hands to [pebble.reconcile]. *)
Theorem unit_number_agreement (w : World) (app n app' : string) :
  has_char "." app = false →
  re_search_hyphen_digits (replace "/" "-" app) = None →
  is_unit_id n = true →
  get_unit_number w (unit_of app n) = Ret n
  ∧ (unit_name w = unit_of app n → get_unit_number w "" = Ret n)
  ∧ get_unit_number w (unit_address (unit_of app n) app') = Ret n
  ∧ re_search_hyphen_digits (unit_address (unit_of app n) app') = Some n.
Proof.
  intros Hdot Happ Hn.
  pose proof (is_unit_id_digits n Hn) as Hdigits.
  assert (Hown : get_unit_number w (unit_of app n) = Ret n).
  { pose proof (get_unit_number_slash w app n "" Hdot Hdigits) as H.
    unfold unit_of. rewrite <- H by (by left).
    f_equal. change (String "/" n +:+ "") with (String "/" (n +:+ "")).
    by rewrite append_nil_r. }
  repeat split.
  - exact Hown.
  - intros Hname. rewrite <- Hown. unfold get_unit_number.
    cbn [truthy]. rewrite Hname. unfold unit_of.
    by rewrite truthy_app_cons.
  - unfold unit_of. rewrite unit_address_of_unit by done.
    apply (get_unit_number_hyphen w (replace "/" "-" app) n
             (String "." (app' +:+ "-endpoints"))); try done.
    + by rewrite has_char_replace_other.
    + by apply has_char_replace_old.
    + right. by eexists.
  - by apply unit_number_of_unit_address.
Qed.

End InstanceMapEntries.

(** ** The stateful methods *)

Section CharmFacts.
Context {CharmState : Type} (env : Collaborators CharmState).
Implicit Types (w : World) (cs : CharmState) (t : list (Effect CharmState)).

(** *** Running a method *)

Lemma runs_intro {A} (m : M CharmState A) w :
  runs m w (res (m w)) (post (m w)) (trace (m w)).
Proof. unfold runs. by destruct (m w). Qed.

Lemma runs_res {A} (m : M CharmState A) w r w' t :
  runs m w r w' t → res (m w) = r ∧ post (m w) = w' ∧ trace (m w) = t.
Proof. unfold runs. by intros ->. Qed.

Lemma runs_ret_inv {A} (a : A) w r w' t :
  runs (ret a) w r w' t → r = Ret a ∧ w' = w ∧ t = [].
Proof. unfold runs, ret. by intros [= <- <- <-]. Qed.

Lemma runs_raise_inv {A} (e : exn) w (r : result A) w' t :
  runs (raise e) w r w' t → r = Raise e ∧ w' = w ∧ t = [].
Proof. unfold runs, raise. by intros [= <- <- <-]. Qed.

Lemma runs_gets_inv {A} (f : World → A) w r w' t :
  runs (gets f) w r w' t → r = Ret (f w) ∧ w' = w ∧ t = [].
Proof. unfold runs, gets. by intros [= <- <- <-]. Qed.

Lemma runs_modify_inv (f : World → World) w r w' t :
  runs (modify f) w r w' t → r = Ret tt ∧ w' = f w ∧ t = [].
Proof. unfold runs, modify. by intros [= <- <- <-]. Qed.

Lemma runs_emit_inv (e : Effect CharmState) w r w' t :
  runs (emit e) w r w' t → r = Ret tt ∧ w' = w ∧ t = [e].
Proof. unfold runs, emit. by intros [= <- <- <-]. Qed.

Lemma runs_lift_inv {A} (x : result A) w r w' t :
  runs (lift x) w r w' t → r = x ∧ w' = w ∧ t = [].
Proof. unfold runs, lift. by intros [= <- <- <-]. Qed.

Lemma runs_gets_result_inv {A} (f : World → result A) w r w' t :
  runs (gets_result f) w r w' t → r = f w ∧ w' = w ∧ t = [].
Proof. unfold runs, gets_result. by intros [= <- <- <-]. Qed.

Lemma runs_bind_inv {A B} (m : M CharmState A) (k : A → M CharmState B)
    w r w' t :
  runs (bind m k) w r w' t →
  (∃ a w1 t1 t2,
     runs m w (Ret a) w1 t1 ∧ runs (k a) w1 r w' t2 ∧ t = t1 ++ t2)
  ∨ (∃ e, runs m w (Raise e) w' t ∧ r = Raise e).
Proof.
  unfold runs, bind. destruct (m w) as [[a|e] w1 t1]; cbn.
  - intros [= <- <- <-]. left. exists a, w1, t1, (trace (k a w1)).
    split; [done|]. split; [|done]. by destruct (k a w1).
  - intros [= <- <- <-]. right. by exists e.
Qed.

Lemma runs_try_except_inv {A} (body : M CharmState A)
    (handler : exn → option (M CharmState A)) w r w' t :
  runs (try_except body handler) w r w' t →
  (∃ a, runs body w (Ret a) w' t ∧ r = Ret a)
  ∨ (∃ e, runs body w (Raise e) w' t ∧ handler e = None ∧ r = Raise e)
  ∨ (∃ e h w1 t1 t2,
       runs body w (Raise e) w1 t1 ∧ handler e = Some h
       ∧ runs h w1 r w' t2 ∧ t = t1 ++ t2).
Proof.
  unfold runs, try_except. destruct (body w) as [[a|e] w1 t1]; cbn.
  - intros [= <- <- <-]. left. by exists a.
  - destruct (handler e) as [h|] eqn:Hh.
    + intros [= <- <- <-]. right. right.
      exists e, h, w1, t1, (trace (h w1)). repeat split; try done.
      by destruct (h w1).
    + intros [= <- <- <-]. right. left. by exists e.
Qed.

Lemma runs_pebble_inv cs main n w r w' t :
  runs (call_pebble_reconcile env cs main n) w r w' t →
  r = fst (pebble_reconcile env cs (container w) main n)
  ∧ w' = with_container (snd (pebble_reconcile env cs (container w) main n)) w
  ∧ t = [EApplyConfig cs main n].
Proof.
  unfold runs, call_pebble_reconcile.
  destruct (pebble_reconcile env cs (container w) main n).
  by intros [= <- <- <-].
Qed.

Lemma runs_nginx_inv address w r w' t :
  runs (call_restart_nginx env address) w r w' t →
  r = fst (restart_nginx env (container w) address)
  ∧ w' = with_container (snd (restart_nginx env (container w) address)) w
  ∧ t = [ERestartNginx address].
Proof.
  unfold runs, call_restart_nginx.
  destruct (restart_nginx env (container w) address).
  by intros [= <- <- <-].
Qed.

(** Take the run in hypothesis [H] apart, one construct at a time. *)
Ltac clean_eqs :=
  repeat match goal with
         | H : ?x = _ |- _ => is_var x; subst x
         | H : _ = ?x |- _ => is_var x; subst x
         | H : Ret _ = Ret _ |- _ => injection H as H
         | H : Raise _ = Raise _ |- _ => injection H as H
         | H : Ret _ = Raise _ |- _ => discriminate H
         | H : Raise _ = Ret _ |- _ => discriminate H
         | H : Some _ = Some _ |- _ => injection H as H
         | H : Some _ = None |- _ => discriminate H
         | H : None = Some _ |- _ => discriminate H
         | H : ?x = ?x |- _ => clear H
         end.

Ltac run_inv_base H :=
  lazymatch type of H with
  | runs (ret _) _ _ _ _ => apply runs_ret_inv in H as (? & ? & ?)
  | runs (raise _) _ _ _ _ => apply runs_raise_inv in H as (? & ? & ?)
  | runs (gets _) _ _ _ _ => apply runs_gets_inv in H as (? & ? & ?)
  | runs (modify _) _ _ _ _ => apply runs_modify_inv in H as (? & ? & ?)
  | runs (emit _) _ _ _ _ => apply runs_emit_inv in H as (? & ? & ?)
  | runs (lift _) _ _ _ _ => apply runs_lift_inv in H as (? & ? & ?)
  | runs (gets_result _) _ _ _ _ =>
      apply runs_gets_result_inv in H as (? & ? & ?)
  | runs (set_status _) _ _ _ _ =>
      apply runs_modify_inv in H as (? & ? & ?)
  | runs (call_pebble_reconcile _ _ _ _) _ _ _ _ =>
      apply runs_pebble_inv in H as (? & ? & ?)
  | runs (call_restart_nginx _ _) _ _ _ _ =>
      apply runs_nginx_inv in H as (? & ? & ?)
  end; clean_eqs.

Ltac run_inv_with spec H :=
  first
    [ run_inv_base H
    | spec H
    | lazymatch type of H with
      | runs (bind _ _) _ _ _ _ =>
          let H1 := fresh "Hrun" in let H2 := fresh "Hrun" in
          apply runs_bind_inv in H
            as [(? & ? & ? & ? & H1 & H2 & ?)|(? & H1 & ?)];
          [ clean_eqs; try run_inv_with spec H1; try run_inv_with spec H2
          | clean_eqs; try run_inv_with spec H1 ]
      | runs (try_except _ _) _ _ _ _ =>
          let H1 := fresh "Hrun" in let H2 := fresh "Hrun" in
          let Hh := fresh "Hhandler" in
          apply runs_try_except_inv in H
            as [(? & H1 & ?)
               |[(? & H1 & Hh & ?)
                |(? & ? & ? & ? & ? & H1 & Hh & H2 & ?)]];
          [ clean_eqs; try run_inv_with spec H1
          | clean_eqs; try run_inv_with spec H1;
            try (cbv beta in Hh); clean_eqs
          | clean_eqs; try run_inv_with spec H1;
            try (cbv beta in Hh); clean_eqs;
            try run_inv_with spec H2 ]
      | runs (when ?b _) _ _ _ _ =>
          let Hb := fresh "Hcond" in
          unfold when in H; destruct b eqn:Hb; try run_inv_with spec H
      | runs (if ?b then _ else _) _ _ _ _ =>
          let Hb := fresh "Hcond" in
          destruct b eqn:Hb; try run_inv_with spec H
      | runs (match ?x with _ => _ end) _ _ _ _ =>
          let Hx := fresh "Hcase" in
          destruct x eqn:Hx; try run_inv_with spec H
      end ].

Ltac no_spec H := fail.
Ltac run_inv H := run_inv_with no_spec H.


Lemma runs_eq_inv {A} (m : M CharmState A) w r0 w0 t0 r w' t :
  m w = mkOutcome r0 w0 t0 → runs m w r w' t → r = r0 ∧ w' = w0 ∧ t = t0.
Proof. unfold runs. intros ->. by intros [= <- <- <-]. Qed.

Lemma runs_elim {A} (m : M CharmState A) w (o : Outcome CharmState A) :
  (∀ r w' t, runs m w r w' t → mkOutcome r w' t = o) → m w = o.
Proof.
  intros H. rewrite <- (H _ _ _ (runs_intro m w)). by destruct (m w).
Qed.

Lemma with_peer_app_data_nil f w :
  peer_relations w = [] → with_peer_app_data f w = w.
Proof. destruct w. cbn. by intros ->. Qed.

Lemma peer_app_data_nil w : peer_relations w = [] → peer_app_data w = ∅.
Proof. unfold peer_app_data. by intros ->. Qed.

(** *** The model after an update *)

Lemma peer_app_data_with_peer_app_data f w :
  peer_relations w ≠ [] →
  peer_app_data (with_peer_app_data f w) = f (peer_app_data w).
Proof. unfold peer_app_data. cbn. by destruct (peer_relations w). Qed.

Lemma peer_relations_with_peer_app_data_nil f w :
  peer_relations (with_peer_app_data f w) = [] ↔ peer_relations w = [].
Proof. cbn. by destruct (peer_relations w). Qed.

Lemma get_main_unit_peer_app_data w :
  get_main_unit w = peer_app_data w !! MAIN_UNIT_ID.
Proof.
  unfold get_main_unit, peer_app_data.
  destruct (peer_relations w); [by rewrite lookup_empty|done].
Qed.

Lemma peer_app_data_with_peer_app_data_lookup f w k :
  (∀ m : gmap string string, f m !! k = m !! k) →
  peer_app_data (with_peer_app_data f w) !! k = peer_app_data w !! k.
Proof.
  intros Hf. unfold peer_app_data. cbn.
  destruct (peer_relations w); [done|]. cbn. apply Hf.
Qed.

Lemma get_main_unit_with_peer_app_data f w :
  (∀ m : gmap string string, f m !! MAIN_UNIT_ID = m !! MAIN_UNIT_ID) →
  get_main_unit (with_peer_app_data f w) = get_main_unit w.
Proof.
  intros Hf. rewrite !get_main_unit_peer_app_data.
  by apply peer_app_data_with_peer_app_data_lookup.
Qed.

Lemma same_identity_refl w : same_identity w w.
Proof. by repeat split. Qed.

Lemma same_identity_trans w1 w2 w3 :
  same_identity w1 w2 → same_identity w2 w3 → same_identity w1 w3.
Proof. unfold same_identity. intros (?&?&?&?) (?&?&?&?). repeat split; congruence. Qed.

Lemma same_main_refl w : same_main w w.
Proof. split; [apply same_identity_refl|done]. Qed.

Lemma same_main_trans w1 w2 w3 :
  same_main w1 w2 → same_main w2 w3 → same_main w1 w3.
Proof.
  intros (Hi1 & Hm1 & He1) (Hi2 & Hm2 & He2). split; [|split].
  - by eapply same_identity_trans.
  - congruence.
  - by rewrite He2.
Qed.

Lemma same_main_with_status s w : same_main w (with_status s w).
Proof. by repeat split. Qed.

Lemma same_main_with_container c w : same_main w (with_container c w).
Proof. by repeat split. Qed.

Lemma same_main_with_secrets ss w : same_main w (with_secrets ss w).
Proof. by repeat split. Qed.

Lemma same_main_with_peer_app_data f w :
  (∀ m : gmap string string, f m !! MAIN_UNIT_ID = m !! MAIN_UNIT_ID) →
  same_main w (with_peer_app_data f w).
Proof.
  intros Hf. split; [by repeat split|]. split.
  - by apply get_main_unit_with_peer_app_data.
  - apply peer_relations_with_peer_app_data_nil.
Qed.

Lemma same_main_clear_dangling w : same_main w (clear_dangling w).
Proof.
  unfold clear_dangling. destruct (dangling_reference w).
  - apply same_main_with_peer_app_data. intros m. by apply lookup_delete_ne.
  - apply same_main_refl.
Qed.

Lemma same_main_publish_key key w : same_main w (publish_key env key w).
Proof.
  unfold publish_key. eapply same_main_trans; [apply same_main_with_secrets|].
  apply same_main_with_peer_app_data. intros m. by apply lookup_insert_ne.
Qed.

Lemma clear_dangling_nil w : peer_relations w = [] → clear_dangling w = w.
Proof.
  intros Hrel. unfold clear_dangling, dangling_reference.
  by rewrite (peer_app_data_nil _ Hrel), lookup_empty.
Qed.

Lemma secrets_clear_dangling w : secrets (clear_dangling w) = secrets w.
Proof. unfold clear_dangling. by destruct (dangling_reference w). Qed.

Lemma container_clear_dangling w : container (clear_dangling w) = container w.
Proof. unfold clear_dangling. by destruct (dangling_reference w). Qed.

Lemma status_clear_dangling w : status (clear_dangling w) = status w.
Proof. unfold clear_dangling. by destruct (dangling_reference w). Qed.

Lemma is_leader_clear_dangling w : is_leader (clear_dangling w) = is_leader w.
Proof. unfold clear_dangling. by destruct (dangling_reference w). Qed.

(** *** What each method does *)

Lemma write_peer_app_data_run f w :
  write_peer_app_data (CharmState := CharmState) f w
  = if is_leader w then mkOutcome (Ret tt) (with_peer_app_data f w) []
    else mkOutcome (Raise RelationDataAccessError) w [].
Proof.
  apply runs_elim. intros r w' t H. unfold write_peer_app_data in H.
  run_inv H.
  all: by rewrite ?Hcond.
Qed.

Ltac write_leaf H :=
  lazymatch type of H with
  | runs (write_peer_app_data _) ?w _ _ _ =>
      let Hl := fresh "Hleader" in
      unfold runs in H; rewrite write_peer_app_data_run in H;
      destruct (is_leader w) eqn:Hl; injection H as ? ? ?; clean_eqs
  end.

Lemma get_signing_key_run w :
  get_signing_key (CharmState := CharmState) w
  = if access_denied w then mkOutcome (Raise RelationDataAccessError) w []
    else mkOutcome (Ret (stored_key w)) (clear_dangling w) [].
Proof.
  apply runs_elim. intros r w' t H.
  unfold get_signing_key, get_secret_content in H.
  unfold access_denied, stored_key, clear_dangling, referenced_secret,
    dangling_reference, peer_app_data.
  run_inv_with write_leaf H;
    rewrite ?Hcase, ?Hcase0, ?Hcase1, ?Hcase2, ?Hcond; cbn; try done.
Qed.

Lemma push_run path content w :
  push (CharmState := CharmState) path content w
  = mkOutcome (Ret tt)
      (with_container (with_file path content (container w)) w)
      [EPush path content].
Proof. reflexivity. Qed.

Lemma pull_run path w :
  pull (CharmState := CharmState) path w
  = match files (container w) !! path with
    | Some content => mkOutcome (Ret content) w [EPull path]
    | None => mkOutcome (Raise (PathError "not-found")) w []
    end.
Proof.
  apply runs_elim. intros r w' t H. unfold pull in H.
  run_inv H; by rewrite ?Hcase.
Qed.

Lemma set_main_unit_run u w :
  set_main_unit (CharmState := CharmState) u w
  = match peer_relations w with
    | [] => mkOutcome (Ret tt) w []
    | _ :: _ =>
        if is_leader w
        then mkOutcome (Ret tt) (with_peer_app_data (<[MAIN_UNIT_ID := u]>) w) []
        else mkOutcome (Raise RelationDataAccessError) w []
    end.
Proof.
  apply runs_elim. intros r w' t H. unfold set_main_unit in H.
  run_inv_with write_leaf H; by rewrite ?Hcase, ?Hleader.
Qed.

(** The callers of [set_main_unit] hold leadership. *)
Lemma set_main_unit_leader_run u w :
  is_leader w = true →
  set_main_unit (CharmState := CharmState) u w
  = mkOutcome (Ret tt) (with_peer_app_data (<[MAIN_UNIT_ID := u]>) w) [].
Proof.
  intros Hl. rewrite set_main_unit_run, Hl.
  destruct (peer_relations w) eqn:Hrel; [|done].
  by rewrite with_peer_app_data_nil.
Qed.

Lemma set_unit_status_run w :
  _set_unit_status env w
  = mkOutcome (Ret tt)
      (if is_blocked (status w) then w
       else with_status (health_status env (container w)) w)
      [].
Proof.
  apply runs_elim. intros r w' t H. unfold _set_unit_status in H.
  unfold health_status.
  run_inv H; by rewrite ?Hcond, ?Hcond0, ?Hcond1, ?Hcond2.
Qed.

Lemma update_matrix_auth_run cs w :
  call_update_matrix_auth env cs w
  = mkOutcome (update_matrix_auth_integration env cs) w [EMatrixAuth cs].
Proof. reflexivity. Qed.

Lemma add_secret_run content w :
  add_secret env content w
  = mkOutcome (Ret (new_secret_id env (secrets w)))
      (with_secrets (<[new_secret_id env (secrets w) := content]> (secrets w)) w)
      [EAddSecret content].
Proof. reflexivity. Qed.

(** The methods whose run is known are taken in one step. *)
Ltac run_eq_in H lem :=
  eapply runs_eq_inv in H; [|apply lem];
  destruct H as (? & ? & ?); clean_eqs.

Ltac leader_tac :=
  first
    [ assumption
    | match goal with
      | H : (_ && is_leader ?w)%bool = true |- is_leader ?w = true =>
          exact (proj2 (proj1 (andb_true_iff _ _) H))
      | H : negb (is_leader ?w) = false |- is_leader ?w = true =>
          exact (proj1 (negb_false_iff _) H)
      end ].

Ltac set_main_unit_leaf H :=
  lazymatch type of H with
  | runs (set_main_unit _) _ _ _ _ =>
      eapply runs_eq_inv in H; [|apply set_main_unit_leader_run; leader_tac];
      destruct H as (? & ? & ?); clean_eqs
  end.

Ltac charm_leaf H :=
  lazymatch type of H with
  | runs get_signing_key ?w _ _ _ =>
      let Hd := fresh "Hdenied" in
      unfold runs in H; rewrite get_signing_key_run in H;
      destruct (access_denied w) eqn:Hd; injection H as ? ? ?; clean_eqs
  | runs (write_peer_app_data _) _ _ _ _ => write_leaf H
  | runs (push _ _) _ _ _ _ => run_eq_in H push_run
  | runs (set_main_unit _) _ _ _ _ => set_main_unit_leaf H
  | runs (_set_unit_status _) _ _ _ _ => run_eq_in H set_unit_status_run
  | runs (call_update_matrix_auth _ _) _ _ _ _ =>
      run_eq_in H update_matrix_auth_run
  | runs (add_secret _ _) _ _ _ _ => run_eq_in H add_secret_run
  | runs (pull _) _ _ _ _ =>
      let Hf := fresh "Hfile" in
      unfold runs in H; rewrite pull_run in H;
      match type of H with
      | context [files ?c !! ?p] => destruct (files c !! p) eqn:Hf
      end;
      injection H as ? ? ?; clean_eqs
  end.

Ltac charm_inv H := run_inv_with charm_leaf H.

Lemma reconcile_bootstrap_run w :
  reconcile_bootstrap (CharmState := CharmState) w
  = mkOutcome (Ret tt) (bootstrap w) [].
Proof.
  apply runs_elim. intros r w' t H.
  unfold reconcile_bootstrap in H. unfold bootstrap.
  charm_inv H; by rewrite ?Hcond.
Qed.

Lemma access_denied_nil w : peer_relations w = [] → access_denied w = false.
Proof.
  intros Hrel. unfold access_denied, dangling_reference.
  by rewrite (peer_app_data_nil _ Hrel), lookup_empty.
Qed.

Lemma set_signing_key_run key w :
  set_signing_key env key w
  = if access_denied w then mkOutcome (Raise RelationDataAccessError) w []
    else
      mkOutcome (Ret tt)
        (if creates_secret key w
         then publish_key env key (clear_dangling w)
         else clear_dangling w)
        (if creates_secret key w
         then [EAddSecret {[SECRET_SIGNING_KEY := key]}]
         else []).
Proof.
  apply runs_elim. intros r w' t H.
  unfold set_signing_key in H. unfold creates_secret.
  charm_inv H; cbn [is_leader with_secrets] in *;
    rewrite ?is_leader_clear_dangling in *;
    rewrite ?Hdenied, ?Hcond0, ?Hcond1; cbn [negb andb]; try done;
    try congruence.
  by rewrite access_denied_nil, clear_dangling_nil.
Qed.


Ltac charm_op H :=
  first
    [ charm_leaf H
    | lazymatch type of H with
      | runs (set_signing_key _ _) ?w _ _ _ =>
          let Hd := fresh "Hdenied" in
          unfold runs in H; rewrite set_signing_key_run in H;
          destruct (access_denied w) eqn:Hd; injection H as ? ? ?; clean_eqs
      | runs reconcile_bootstrap _ _ _ _ => run_eq_in H reconcile_bootstrap_run
      end ].

Ltac charm_inv2 H := run_inv_with charm_op H.


(** A relation between the model before and after is shown along the
    updates that lead from one to the other. *)
Ltac frame_with refl trans step :=
  lazymatch goal with
  | |- _ ?w ?w => apply refl
  | H : ?R ?b ?x |- ?R ?a ?x =>
      apply (trans a b x); [frame_with refl trans step|exact H]
  | |- _ ?w (if ?b then _ else _) =>
      destruct b; frame_with refl trans step
  | |- _ ?w (?f ?x) =>
      apply (trans w x (f x)); [frame_with refl trans step|step]
  end.

Ltac same_main_step :=
  first
    [ apply same_main_with_status
    | apply same_main_with_container
    | apply same_main_with_secrets
    | apply same_main_clear_dangling
    | apply same_main_publish_key ].

Ltac same_main_tac :=
  frame_with same_main_refl same_main_trans same_main_step.

Lemma try_same_main cs w r w' t :
  runs (reconcile_try env cs) w r w' t → same_main w w'.
Proof.
  intros H. unfold reconcile_try in H. charm_inv2 H; same_main_tac.
Qed.

Lemma finish_same_main w r w' t :
  runs (reconcile_finish env) w r w' t → same_main w w'.
Proof.
  intros H. unfold reconcile_finish in H. charm_inv2 H; same_main_tac.
Qed.

Lemma reconcile_except_cases e h :
  reconcile_except (CharmState := CharmState) e = Some h →
  ∃ msg, (e = PebbleServiceError msg ∨ e = FileNotFoundError msg)
         ∧ h = bind (set_status (BlockedStatus msg)) (λ _, ret false).
Proof.
  destruct e; cbn; intros [= <-]; eexists; (split; [|done]); eauto.
Qed.

Ltac phase_op H :=
  lazymatch type of H with
  | runs (reconcile_try _ _) _ _ _ _ => idtac
  | runs (reconcile_finish _) _ _ _ _ => idtac
  | runs reconcile_bootstrap _ _ _ _ => idtac
  | runs (reconcile _ _) _ _ _ _ => idtac
  end.

Ltac phase_inv H := run_inv_with phase_op H.

Lemma reconcile_same_main cs w r w' t :
  runs (reconcile env cs) w r w' t → same_main (bootstrap w) w'.
Proof.
  intros H. unfold reconcile in H. phase_inv H.
  all: repeat match goal with
         | H : runs reconcile_bootstrap _ _ _ _ |- _ =>
             run_eq_in H reconcile_bootstrap_run
         | H : runs (reconcile_try _ _) _ _ _ _ |- _ =>
             apply try_same_main in H
         | H : runs (reconcile_finish _) _ _ _ _ |- _ =>
             apply finish_same_main in H
         | H : reconcile_except _ = Some _ |- _ =>
             apply reconcile_except_cases in H as (? & _ & ->)
         end.
  all: try (match goal with
            | H : runs _ _ _ _ _ |- _ => run_inv H
            end).
  all: same_main_tac.
Qed.


(** *** The main designation *)

Lemma get_main_unit_set u w :
  get_main_unit (with_peer_app_data (<[MAIN_UNIT_ID := u]>) w)
  = if bool_decide (peer_relations w = []) then None else Some u.
Proof.
  unfold get_main_unit. cbn.
  destruct (peer_relations w); [done|]. cbn. by rewrite lookup_insert_eq.
Qed.

Lemma get_main_unit_set_some u w :
  peer_relations w ≠ [] →
  get_main_unit (with_peer_app_data (<[MAIN_UNIT_ID := u]>) w) = Some u.
Proof. intros H. rewrite get_main_unit_set. by rewrite bool_decide_eq_false_2. Qed.

Lemma get_main_unit_some_relation w m :
  get_main_unit w = Some m → peer_relations w ≠ [].
Proof. unfold get_main_unit. by destruct (peer_relations w). Qed.

Lemma get_main_unit_bootstrap w :
  get_main_unit (bootstrap w)
  = match get_main_unit w with
    | Some m => Some m
    | None =>
        if is_leader w && bool_decide (peer_relations w ≠ [])
        then Some (unit_name w) else None
    end.
Proof.
  unfold bootstrap. destruct (get_main_unit w) as [m|] eqn:Hm.
  - by rewrite bool_decide_eq_false_2.
  - rewrite bool_decide_eq_true_2 by done. cbn [andb].
    destruct (is_leader w); cbn [andb]; [|done].
    rewrite get_main_unit_set.
    destruct (decide (peer_relations w = [])) as [Hrel|Hrel].
    + rewrite bool_decide_eq_true_2 by done.
      by rewrite bool_decide_eq_false_2 by (intros H; by apply H).
    + rewrite bool_decide_eq_false_2 by done.
      by rewrite bool_decide_eq_true_2.
Qed.

Lemma same_identity_bootstrap w : same_identity w (bootstrap w).
Proof.
  unfold bootstrap.
  by destruct (bool_decide (get_main_unit w = None) && is_leader w).
Qed.

Lemma peer_relations_bootstrap_nil w :
  peer_relations (bootstrap w) = [] ↔ peer_relations w = [].
Proof.
  unfold bootstrap.
  destruct (bool_decide (get_main_unit w = None) && is_leader w); [|done].
  apply peer_relations_with_peer_app_data_nil.
Qed.

(** The main unit after [reconcile]. *)
Lemma reconcile_main cs w :
  get_main_unit (post (reconcile env cs w))
  = match get_main_unit w with
    | Some m => Some m
    | None =>
        if is_leader w && bool_decide (peer_relations w ≠ [])
        then Some (unit_name w) else None
    end.
Proof.
  destruct (reconcile_same_main cs w _ _ _ (runs_intro _ _)) as (_ & -> & _).
  apply get_main_unit_bootstrap.
Qed.

Lemma reconcile_same_identity cs w :
  same_identity w (post (reconcile env cs w)).
Proof.
  destruct (reconcile_same_main cs w _ _ _ (runs_intro _ _)) as (Hid & _ & _).
  eapply same_identity_trans; [apply same_identity_bootstrap|exact Hid].
Qed.

Lemma reconcile_relations_nil cs w :
  peer_relations (post (reconcile env cs w)) = [] ↔ peer_relations w = [].
Proof.
  destruct (reconcile_same_main cs w _ _ _ (runs_intro _ _)) as (_ & _ & ->).
  apply peer_relations_bootstrap_nil.
Qed.

Ltac handler_op H :=
  lazymatch type of H with
  | runs (reconcile _ _) _ _ _ _ => idtac
  | runs (set_main_unit _) _ _ _ _ => set_main_unit_leaf H
  end.

Lemma runs_post {A} (m : M CharmState A) w r w' t :
  runs m w r w' t → w' = post (m w).
Proof. unfold runs. by intros ->. Qed.

Lemma on_leader_elected_post cs w :
  is_leader w = true →
  post (_on_leader_elected env cs w)
  = post (reconcile env cs
            (with_peer_app_data (<[MAIN_UNIT_ID := unit_name w]>) w)).
Proof.
  intros Hl. pose proof (runs_intro (_on_leader_elected env cs) w) as H.
  revert H. generalize (res (_on_leader_elected env cs w)).
  generalize (trace (_on_leader_elected env cs w)).
  generalize (post (_on_leader_elected env cs w)). intros w' t r H.
  unfold _on_leader_elected in H.
  run_inv_with handler_op H; [by rewrite Hl in *|].
  all: match goal with
       | H : runs (reconcile _ _) _ _ _ _ |- _ => by apply runs_post in H
       end.
Qed.

(** C5 (as amended): on a unit that holds leadership, and when the peer
    relation exists, [_on_leader_elected] records the unit itself as main
    unit whatever was recorded before; handling the event once more leaves
    it recorded. *)
Theorem leader_elected_sets_main cs w :
  is_leader w = true →
  peer_relations w ≠ [] →
  get_main_unit (post (_on_leader_elected env cs w)) = Some (unit_name w)
  ∧ get_main_unit
      (post (_on_leader_elected env cs (post (_on_leader_elected env cs w))))
    = Some (unit_name w).
Proof.
  intros Hl Hrel.
  assert (Hone : ∀ w0, is_leader w0 = true → peer_relations w0 ≠ [] →
            get_main_unit (post (_on_leader_elected env cs w0))
            = Some (unit_name w0)).
  { intros w0 Hl0 Hrel0. rewrite on_leader_elected_post by done.
    rewrite reconcile_main. by rewrite get_main_unit_set_some. }
  split; [by apply Hone|].
  rewrite (on_leader_elected_post cs w) by done.
  set (w1 := with_peer_app_data _ w).
  destruct (reconcile_same_identity cs w1) as (Hn & _ & Hl1 & _).
  rewrite Hone.
  - by rewrite Hn.
  - by rewrite Hl1.
  - rewrite reconcile_relations_nil. subst w1.
    by rewrite peer_relations_with_peer_app_data_nil.
Qed.


Lemma on_relation_departed_post cs w d :
  post (_on_relation_departed env (Some d) cs w)
  = if bool_decide (d = unit_name w) then w
    else if bool_decide (Some d = get_main_unit w) && is_leader w
    then post (reconcile env cs
                 (with_peer_app_data (<[MAIN_UNIT_ID := unit_name w]>) w))
    else post (reconcile env cs w).
Proof.
  pose proof (runs_intro (_on_relation_departed env (Some d) cs) w) as H.
  revert H. generalize (res (_on_relation_departed env (Some d) cs w)).
  generalize (trace (_on_relation_departed env (Some d) cs w)).
  generalize (post (_on_relation_departed env (Some d) cs w)).
  intros w' t r H. unfold _on_relation_departed in H.
  run_inv_with handler_op H.
  - rewrite bool_decide_eq_true_2; [done|].
    apply bool_decide_eq_true_1 in Hcond. congruence.
  - rewrite bool_decide_eq_false_2
      by (apply bool_decide_eq_false_1 in Hcond; congruence).
    match goal with
    | H : runs (reconcile _ _) _ _ _ _ |- _ => by apply runs_post in H
    end.
  - rewrite bool_decide_eq_false_2
      by (apply bool_decide_eq_false_1 in Hcond; congruence).
    match goal with
    | H : runs (reconcile _ _) _ _ _ _ |- _ => by apply runs_post in H
    end.
Qed.

(** C4 (as amended): when the departed unit [d] is the recorded main unit
    and the observer holds leadership, [_on_relation_departed] records the
    observer as main unit.  In every other case a recorded main unit is
    left as it is; when none is recorded, the [reconcile] that follows
    records the observer if it holds leadership, the peer relation exists
    and [d] is not the observer itself, and otherwise none stays
    recorded. *)
Theorem relation_departed_main cs w d :
  (get_main_unit w = Some d → is_leader w = true →
   get_main_unit (post (_on_relation_departed env (Some d) cs w))
   = Some (unit_name w))
  ∧ (∀ m, get_main_unit w = Some m → m ≠ d ∨ is_leader w = false →
       get_main_unit (post (_on_relation_departed env (Some d) cs w))
       = Some m)
  ∧ (get_main_unit w = None →
     get_main_unit (post (_on_relation_departed env (Some d) cs w))
     = if bool_decide (d ≠ unit_name w) && is_leader w
          && bool_decide (peer_relations w ≠ [])
       then Some (unit_name w) else None).
Proof.
  rewrite on_relation_departed_post. repeat split.
  - intros Hmain Hl. case_bool_decide as Hd; [by subst|].
    rewrite Hmain, Hl, bool_decide_eq_true_2 by done. cbn [andb].
    rewrite reconcile_main, get_main_unit_set_some; [done|].
    by eapply get_main_unit_some_relation.
  - intros m Hmain Hcase. case_bool_decide as Hd; [done|].
    rewrite Hmain.
    replace (bool_decide (Some d = Some m) && is_leader w) with false.
    + by rewrite reconcile_main, Hmain.
    + destruct Hcase as [Hne| ->]; [|by rewrite andb_false_r].
      by rewrite bool_decide_eq_false_2 by congruence.
  - intros Hmain. rewrite Hmain. case_bool_decide as Hd.
    + by rewrite bool_decide_eq_false_2 by (intros H; by apply H).
    + rewrite (bool_decide_eq_false_2 (Some d = None)) by done.
      cbn [andb]. rewrite reconcile_main, Hmain.
      by rewrite (bool_decide_eq_true_2 (d ≠ unit_name w)).
Qed.


Lemma creates_secret_non_leader key w :
  is_leader w = false → creates_secret key w = false.
Proof.
  intros Hl. unfold creates_secret. rewrite Hl.
  destruct (peer_relations w); [done|]. by rewrite andb_false_r.
Qed.

Lemma peer_app_data_clear_dangling w :
  peer_app_data (clear_dangling w) ⊆ peer_app_data w.
Proof.
  unfold clear_dangling. destruct (dangling_reference w); [|done].
  destruct (decide (peer_relations w = [])) as [Hrel|Hrel].
  - by rewrite with_peer_app_data_nil.
  - rewrite peer_app_data_with_peer_app_data by done. apply delete_subseteq.
Qed.

Lemma no_publication_refl w : no_publication w w.
Proof. by repeat split. Qed.

Lemma no_publication_trans w1 w2 w3 :
  no_publication w1 w2 → no_publication w2 w3 → no_publication w1 w3.
Proof.
  intros (?&?&?) (?&?&?). repeat split; [congruence..|].
  by etransitivity.
Qed.

Lemma no_publication_with_status s w : no_publication w (with_status s w).
Proof. by repeat split. Qed.

Lemma no_publication_with_container c w :
  no_publication w (with_container c w).
Proof. by repeat split. Qed.

Lemma no_publication_clear_dangling w : no_publication w (clear_dangling w).
Proof.
  repeat split.
  - apply is_leader_clear_dangling.
  - apply secrets_clear_dangling.
  - apply peer_app_data_clear_dangling.
Qed.

Ltac no_publication_step :=
  first
    [ apply no_publication_with_status
    | apply no_publication_with_container
    | apply no_publication_clear_dangling ].

Ltac no_publication_tac :=
  frame_with no_publication_refl no_publication_trans no_publication_step.

Lemma access_denied_non_leader w :
  is_leader w = false → access_denied w = dangling_reference w.
Proof. intros Hl. unfold access_denied. by rewrite Hl, andb_true_r. Qed.

Lemma access_denied_leader w : is_leader w = true → access_denied w = false.
Proof. intros Hl. unfold access_denied. by rewrite Hl, andb_false_r. Qed.

Lemma clear_dangling_allowed w :
  is_leader w = false → access_denied w = false → clear_dangling w = w.
Proof.
  intros Hl. rewrite access_denied_non_leader by done.
  unfold clear_dangling. by intros ->.
Qed.

Lemma set_signing_key_non_leader key w :
  is_leader w = false →
  set_signing_key env key w
  = mkOutcome
      (if dangling_reference w then Raise RelationDataAccessError else Ret tt)
      w [].
Proof.
  intros Hl. rewrite set_signing_key_run.
  rewrite creates_secret_non_leader by done.
  destruct (access_denied w) eqn:Hd.
  - rewrite access_denied_non_leader in Hd by done. by rewrite Hd.
  - rewrite clear_dangling_allowed by done.
    rewrite access_denied_non_leader in Hd by done. by rewrite Hd.
Qed.

Lemma unit_name_clear_dangling w : unit_name (clear_dangling w) = unit_name w.
Proof. unfold clear_dangling. by destruct (dangling_reference w). Qed.

Lemma app_name_clear_dangling w : app_name (clear_dangling w) = app_name w.
Proof. unfold clear_dangling. by destruct (dangling_reference w). Qed.

(** Projections of an updated model. *)
Ltac wsimpl :=
  repeat first
    [ progress cbn [unit_name app_name is_leader planned_units secrets
                    container status can_connect files services
                    with_status with_container with_secrets
                    with_peer_app_data with_file publish_key
                    negb andb orb fst snd res post trace] in *
    | rewrite is_leader_clear_dangling in *
    | rewrite secrets_clear_dangling in *
    | rewrite container_clear_dangling in *
    | rewrite status_clear_dangling in *
    | rewrite unit_name_clear_dangling in *
    | rewrite app_name_clear_dangling in *
    | rewrite andb_false_r in *
    | rewrite andb_true_r in * ].

Lemma try_non_leader cs w r w' t :
  is_leader w = false →
  runs (reconcile_try env cs) w r w' t →
  no_publication w w' ∧ created_secrets t = [].
Proof.
  intros Hl H. unfold reconcile_try in H. charm_inv2 H.
  all: wsimpl; try congruence.
  all: rewrite ?creates_secret_non_leader by (wsimpl; done).
  all: split; [no_publication_tac|done].
Qed.


Lemma created_secrets_nil : created_secrets (CharmState := CharmState) [] = [].
Proof. reflexivity. Qed.

Lemma created_secrets_app t1 t2 :
  created_secrets (t1 ++ t2) = created_secrets t1 ++ created_secrets t2.
Proof. apply omap_app. Qed.

Lemma finish_no_publication w r w' t :
  runs (reconcile_finish env) w r w' t →
  no_publication w w' ∧ created_secrets t = [].
Proof.
  intros H. unfold reconcile_finish in H. charm_inv2 H.
  all: split; [no_publication_tac|done].
Qed.

Lemma bootstrap_non_leader w : is_leader w = false → bootstrap w = w.
Proof. intros Hl. unfold bootstrap. by rewrite Hl, andb_false_r. Qed.

Lemma reconcile_non_leader cs w r w' t :
  is_leader w = false →
  runs (reconcile env cs) w r w' t →
  no_publication w w' ∧ created_secrets t = [].
Proof.
  intros Hl H. unfold reconcile in H. phase_inv H.
  all: repeat match goal with
         | H : runs reconcile_bootstrap _ _ _ _ |- _ =>
             run_eq_in H reconcile_bootstrap_run;
             rewrite (bootstrap_non_leader w Hl) in *
         | H : runs (reconcile_try _ _) _ _ _ _ |- _ =>
             apply try_non_leader in H as [? ?]; [|by wsimpl]
         | H : runs (reconcile_finish _) _ _ _ _ |- _ =>
             apply finish_no_publication in H as [? ?]
         | H : reconcile_except _ = Some _ |- _ =>
             apply reconcile_except_cases in H as (? & _ & ->)
         end.
  all: try (match goal with
            | H : runs _ _ _ _ _ |- _ => run_inv H
            end).
  all: rewrite ?created_secrets_app.
  all: repeat match goal with
         | H : created_secrets _ = [] |- _ => rewrite H; clear H
         end.
  all: split; [no_publication_tac|done].
Qed.

(** *** The signing key is published once *)

Lemma stored_key_same_store w w' :
  same_store w w' → stored_key w' = stored_key w.
Proof.
  intros [Hrel Hsec].
  unfold stored_key, referenced_secret, peer_app_data. by rewrite Hrel, Hsec.
Qed.

Lemma same_store_refl w : same_store w w.
Proof. by split. Qed.

Lemma same_store_trans w1 w2 w3 :
  same_store w1 w2 → same_store w2 w3 → same_store w1 w3.
Proof. intros [??] [??]. split; congruence. Qed.

Lemma same_store_with_status s w : same_store w (with_status s w).
Proof. by split. Qed.

Lemma same_store_with_container c w : same_store w (with_container c w).
Proof. by split. Qed.

Ltac same_store_step :=
  first [ apply same_store_with_status | apply same_store_with_container ].

Ltac same_store_tac :=
  frame_with same_store_refl same_store_trans same_store_step.

Lemma stored_key_with_container c w :
  stored_key (with_container c w) = stored_key w.
Proof. reflexivity. Qed.

Lemma stored_key_with_status s w : stored_key (with_status s w) = stored_key w.
Proof. reflexivity. Qed.

Lemma dangling_no_key w : dangling_reference w = true → stored_key w = None.
Proof.
  unfold dangling_reference, stored_key, referenced_secret.
  destruct (peer_app_data w !! SECRET_SIGNING_ID) as [id|]; [|done].
  destruct (PyStr.truthy id); [|done]. cbn [andb].
  intros H%bool_decide_eq_true_1. by rewrite H.
Qed.

Lemma stored_key_clear_dangling w :
  stored_key (clear_dangling w) = stored_key w.
Proof.
  unfold clear_dangling. destruct (dangling_reference w) eqn:Hd; [|done].
  rewrite (dangling_no_key w Hd).
  unfold stored_key, referenced_secret.
  destruct (decide (peer_relations w = [])) as [Hrel|Hrel].
  - rewrite with_peer_app_data_nil by done.
    by rewrite peer_app_data_nil, lookup_empty.
  - rewrite peer_app_data_with_peer_app_data by done.
    by rewrite lookup_delete_eq.
Qed.

Lemma clear_dangling_truthy w :
  truthy_key (stored_key w) = true → clear_dangling w = w.
Proof.
  intros Hk. unfold clear_dangling.
  destruct (dangling_reference w) eqn:Hd; [|done].
  by rewrite (dangling_no_key w Hd) in Hk.
Qed.

Lemma is_main_same_main w w' : same_main w w' → is_main w' = is_main w.
Proof. intros ((Hn & _) & Hm & _). unfold is_main. by rewrite Hm, Hn. Qed.

Lemma is_main_with_container c w : is_main (with_container c w) = is_main w.
Proof. reflexivity. Qed.

Lemma is_main_with_status s w : is_main (with_status s w) = is_main w.
Proof. reflexivity. Qed.

Lemma is_main_clear_dangling w : is_main (clear_dangling w) = is_main w.
Proof. apply is_main_same_main, same_main_clear_dangling. Qed.

Lemma get_unit_number_with_container c w name :
  get_unit_number (with_container c w) name = get_unit_number w name.
Proof. reflexivity. Qed.

Lemma get_unit_number_with_status s w name :
  get_unit_number (with_status s w) name = get_unit_number w name.
Proof. reflexivity. Qed.

Lemma get_unit_number_clear_dangling w name :
  get_unit_number (clear_dangling w) name = get_unit_number w name.
Proof. unfold clear_dangling. by destruct (dangling_reference w). Qed.

Ltac wsimpl2 :=
  repeat first
    [ progress wsimpl
    | rewrite stored_key_with_container in *
    | rewrite stored_key_with_status in *
    | rewrite stored_key_clear_dangling in *
    | rewrite is_main_with_container in *
    | rewrite is_main_with_status in *
    | rewrite is_main_clear_dangling in *
    | rewrite get_unit_number_with_container in *
    | rewrite get_unit_number_with_status in *
    | rewrite get_unit_number_clear_dangling in * ].

(** With a key in the store the [try] block changes neither the peer data
    nor the secrets. *)
Lemma try_key cs w r w' t :
  truthy_key (stored_key w) = true →
  runs (reconcile_try env cs) w r w' t →
  same_store w w' ∧ created_secrets t = [].
Proof.
  intros Hk H. unfold reconcile_try in H. charm_inv2 H.
  all: wsimpl2; try congruence.
  all: rewrite ?clear_dangling_truthy by done.
  all: split; [same_store_tac|done].
Qed.

Lemma creates_secret_true key w :
  creates_secret key w = true →
  is_leader w = true ∧ Some key ≠ stored_key w ∧ peer_relations w ≠ [].
Proof.
  unfold creates_secret. destruct (peer_relations w); [done|].
  intros [Hk Hl]%andb_prop. repeat split; try done.
  apply negb_true_iff in Hk. by apply bool_decide_eq_false_1 in Hk.
Qed.

(** A secret is created only by a main unit that holds leadership and
    found no key in the store, and only for a key that differs from the
    stored one. *)
Lemma try_created cs w r w' t :
  runs (reconcile_try env cs) w r w' t →
  created_secrets t ≠ [] →
  is_main w = true ∧ is_leader w = true
  ∧ truthy_key (stored_key w) = false
  ∧ ∃ key,
      Some key ≠ stored_key w
      ∧ created_secrets t = [{[SECRET_SIGNING_KEY := key]}].
Proof.
  intros H Hne. unfold reconcile_try in H. charm_inv2 H.
  all: wsimpl2; try congruence.
  all: try (cbn in Hne; congruence).
  all: match goal with
       | _ : context [creates_secret ?k ?x] |- _ =>
           destruct (creates_secret k x) eqn:Hc;
           [apply creates_secret_true in Hc as (Hl & Hk & _)
           |cbn in Hne; congruence]
       end.
  all: wsimpl2.
  all: repeat split; try done; by eexists.
Qed.


Lemma secrets_bootstrap w : secrets (bootstrap w) = secrets w.
Proof.
  unfold bootstrap.
  by destruct (bool_decide (get_main_unit w = None) && is_leader w).
Qed.

Lemma container_bootstrap w : container (bootstrap w) = container w.
Proof.
  unfold bootstrap.
  by destruct (bool_decide (get_main_unit w = None) && is_leader w).
Qed.

Lemma is_leader_bootstrap w : is_leader (bootstrap w) = is_leader w.
Proof. by destruct (same_identity_bootstrap w) as (_ & _ & ? & _). Qed.

Lemma stored_key_bootstrap w : stored_key (bootstrap w) = stored_key w.
Proof.
  unfold bootstrap.
  destruct (bool_decide (get_main_unit w = None) && is_leader w); [|done].
  unfold stored_key, referenced_secret.
  rewrite (peer_app_data_with_peer_app_data_lookup _ w SECRET_SIGNING_ID);
    [done|].
  intros m. by apply lookup_insert_ne.
Qed.

Lemma finish_same_store w r w' t :
  runs (reconcile_finish env) w r w' t → same_store w w'.
Proof.
  intros H. unfold reconcile_finish in H. charm_inv2 H; same_store_tac.
Qed.

Lemma try_non_leader_store cs w r w' t :
  is_leader w = false →
  runs (reconcile_try env cs) w r w' t → same_store w w'.
Proof.
  intros Hl H. unfold reconcile_try in H. charm_inv2 H.
  all: wsimpl; try congruence.
  all: rewrite ?creates_secret_non_leader by (wsimpl; done).
  all: rewrite ?clear_dangling_allowed by (wsimpl; done).
  all: same_store_tac.
Qed.

Lemma reconcile_non_leader_store cs w r w' t :
  is_leader w = false →
  runs (reconcile env cs) w r w' t → same_store w w'.
Proof.
  intros Hl H. unfold reconcile in H. phase_inv H.
  all: repeat match goal with
         | H : runs reconcile_bootstrap _ _ _ _ |- _ =>
             run_eq_in H reconcile_bootstrap_run;
             rewrite (bootstrap_non_leader w Hl) in *
         | H : runs (reconcile_try _ _) _ _ _ _ |- _ =>
             apply try_non_leader_store in H; [|by wsimpl]
         | H : runs (reconcile_finish _) _ _ _ _ |- _ =>
             apply finish_same_store in H
         | H : reconcile_except _ = Some _ |- _ =>
             apply reconcile_except_cases in H as (? & _ & ->)
         end.
  all: try (match goal with
            | H : runs _ _ _ _ _ |- _ => run_inv H
            end).
  all: same_store_tac.
Qed.

(** *** Publishing the signing key needs leadership *)

(** C10: on a unit that does not hold leadership, [set_signing_key]
    creates no secret, writes nothing and leaves the model as it is,
    whatever the key.  It returns normally unless the published reference
    does not resolve: then the [del] in [get_signing_key] is refused and
    the call raises [RelationDataAccessError].  A [reconcile] on such a
    unit, main or not, creates no secret and leaves the peer data and the
    secrets as they are. *)
Theorem set_signing_key_needs_leadership key cs w :
  is_leader w = false →
  (res (set_signing_key env key w)
   = (if dangling_reference w then Raise RelationDataAccessError else Ret tt)
   ∧ post (set_signing_key env key w) = w
   ∧ trace (set_signing_key env key w) = [])
  ∧ (secrets (post (reconcile env cs w)) = secrets w
     ∧ created_secrets (trace (reconcile env cs w)) = []
     ∧ peer_relations (post (reconcile env cs w)) = peer_relations w).
Proof.
  intros Hl. split.
  - by rewrite set_signing_key_non_leader.
  - destruct (reconcile_non_leader cs w _ _ _ Hl (runs_intro _ _))
      as (_ & Ht).
    destruct (reconcile_non_leader_store cs w _ _ _ Hl (runs_intro _ _))
      as (Hrel & Hs).
    done.
Qed.

Lemma reconcile_key cs w r w' t :
  truthy_key (stored_key w) = true →
  runs (reconcile env cs) w r w' t →
  secrets w' = secrets w ∧ stored_key w' = stored_key w
  ∧ created_secrets t = [].
Proof.
  intros Hk H. unfold reconcile in H. phase_inv H.
  all: repeat match goal with
         | H : runs reconcile_bootstrap _ _ _ _ |- _ =>
             run_eq_in H reconcile_bootstrap_run
         | H : runs (reconcile_try _ _) _ _ _ _ |- _ =>
             apply try_key in H as [? ?];
             [|by rewrite stored_key_with_status, stored_key_bootstrap]
         | H : runs (reconcile_finish _) _ _ _ _ |- _ =>
             pose proof (finish_same_store _ _ _ _ H);
             apply finish_no_publication in H as [_ ?]
         | H : reconcile_except _ = Some _ |- _ =>
             apply reconcile_except_cases in H as (? & _ & ->)
         end.
  all: try (match goal with
            | H : runs _ _ _ _ _ |- _ => run_inv H
            end).
  all: rewrite ?created_secrets_app.
  all: repeat match goal with
         | H : created_secrets _ = [] |- _ => rewrite H; clear H
         end.
  all: match goal with
       | |- secrets ?x = _ ∧ _ =>
           assert (Hst : same_store (bootstrap w) x) by same_store_tac
       end.
  all: rewrite (stored_key_same_store _ _ Hst), stored_key_bootstrap.
  all: destruct Hst as [_ ->]; by rewrite secrets_bootstrap.
Qed.

Lemma reconcile_created cs w r w' t :
  runs (reconcile env cs) w r w' t →
  created_secrets t ≠ [] →
  is_main w' = true ∧ is_leader w = true
  ∧ truthy_key (stored_key w) = false
  ∧ ∃ key,
      Some key ≠ stored_key w
      ∧ created_secrets t = [{[SECRET_SIGNING_KEY := key]}].
Proof.
  intros H Hne.
  rewrite (is_main_same_main _ _ (reconcile_same_main _ _ _ _ _ H)).
  unfold reconcile in H. phase_inv H.
  all: repeat match goal with
         | H : runs reconcile_bootstrap _ _ _ _ |- _ =>
             run_eq_in H reconcile_bootstrap_run
         | H : runs (reconcile_finish _) _ _ _ _ |- _ =>
             apply finish_no_publication in H as [_ ?]
         | H : reconcile_except _ = Some _ |- _ =>
             apply reconcile_except_cases in H as (? & _ & ->)
         end.
  all: try (match goal with
            | H : runs (bind _ _) _ _ _ _ |- _ => run_inv H
            end).
  all: rewrite ?created_secrets_app in *.
  all: repeat match goal with
         | H : created_secrets _ = [] |- _ => rewrite H in *; clear H
         end.
  all: rewrite ?created_secrets_nil in *; cbn [app] in *;
    rewrite ?app_nil_r in *.
  all: try congruence.
  all: match goal with
       | H : runs (reconcile_try _ _) _ _ _ _ |- _ =>
           apply try_created in H as (Hm & Hl & Hk & key & Hkey & Ht);
           [|done]
       end.
  all: wsimpl2; rewrite ?stored_key_bootstrap, ?is_leader_bootstrap in *.
  all: repeat split; try done; by exists key.
Qed.

(** C6 (as amended): when the published reference resolves to a secret
    that holds a non-empty signing key, [reconcile] creates no secret, and
    neither does a second [reconcile] after it: the secrets are as before
    and the key is still the stored one.  Whenever a [reconcile] does create a secret, the
    unit is the main unit and holds leadership, there was no usable key in
    the store, and the new key differs from the stored one. *)
Theorem signing_key_published_once cs w key :
  stored_key w = Some key →
  PyStr.truthy key = true →
  (created_secrets (trace (reconcile env cs w)) = []
   ∧ secrets (post (reconcile env cs w)) = secrets w
   ∧ created_secrets
       (trace (reconcile env cs (post (reconcile env cs w)))) = []
   ∧ secrets (post (reconcile env cs (post (reconcile env cs w))))
     = secrets w
   ∧ stored_key (post (reconcile env cs (post (reconcile env cs w))))
     = Some key)
  ∧ (∀ w0,
       created_secrets (trace (reconcile env cs w0)) ≠ [] →
       is_main (post (reconcile env cs w0)) = true
       ∧ is_leader w0 = true
       ∧ truthy_key (stored_key w0) = false
       ∧ ∃ key0,
           Some key0 ≠ stored_key w0
           ∧ created_secrets (trace (reconcile env cs w0))
             = [{[SECRET_SIGNING_KEY := key0]}]).
Proof.
  intros Hkey Htruthy.
  assert (Hk : truthy_key (stored_key w) = true) by (by rewrite Hkey).
  destruct (reconcile_key cs w _ _ _ Hk (runs_intro _ _)) as (Hs1 & Hk1 & Ht1).
  assert (Hk' : truthy_key (stored_key (post (reconcile env cs w))) = true)
    by (by rewrite Hk1).
  destruct (reconcile_key cs _ _ _ _ Hk' (runs_intro _ _))
    as (Hs2 & Hk2 & Ht2).
  split.
  - repeat split; congruence.
  - intros w0 Hne. by apply (reconcile_created cs w0 _ _ _ (runs_intro _ _)).
Qed.


Lemma get_unit_number_ret w : get_unit_number w "" = Ret (unit_number w).
Proof. reflexivity. Qed.

Lemma applied_configs_app t1 t2 :
  applied_configs (t1 ++ t2) = applied_configs t1 ++ applied_configs t2.
Proof. apply omap_app. Qed.

Lemma unit_number_same_identity w w' :
  same_identity w w' → unit_number w' = unit_number w.
Proof.
  intros (Hn & _). unfold unit_number, get_unit_number. cbn [PyStr.truthy].
  by rewrite Hn.
Qed.

Lemma health_status_same c c' :
  can_connect c' = can_connect c → services c' = services c →
  health_status env c' = health_status env c.
Proof.
  intros Hc Hs. unfold health_status, get_services. by rewrite Hc, Hs.
Qed.

Lemma get_main_unit_address_same_main w w' :
  same_main w w' → get_main_unit_address w' = get_main_unit_address w.
Proof.
  intros ((Hn & Ha & _) & Hm & _). unfold get_main_unit_address.
  by rewrite Hm, Hn, Ha.
Qed.

Lemma applied_configs_nil :
  applied_configs (CharmState := CharmState) [] = [].
Proof. reflexivity. Qed.

(** After a [reconcile] the first statement of the next one changes
    nothing. *)
Lemma bootstrap_settled w w1 : same_main (bootstrap w) w1 → bootstrap w1 = w1.
Proof.
  intros ((_ & _ & Hl & _) & Hm & He). unfold bootstrap at 1.
  destruct (bool_decide (get_main_unit w1 = None) && is_leader w1) eqn:Hc;
    [|done].
  apply andb_prop in Hc as [Hnone%bool_decide_eq_true_1 Hl1].
  apply with_peer_app_data_nil, He, peer_relations_bootstrap_nil.
  rewrite Hnone, get_main_unit_bootstrap in Hm.
  rewrite Hl1, is_leader_bootstrap in Hl.
  destruct (get_main_unit w); [done|]. rewrite <- Hl in Hm. cbn in Hm.
  case_bool_decide as Hrel; [done|].
  by destruct (decide (peer_relations w = [])).
Qed.

(** *** The shape of a reconcile *)

Lemma reconcile_finish_run w :
  reconcile_finish env w
  = let address := get_main_unit_address w in
    let rc := restart_nginx env (container w) address in
    match rc.1 with
    | Ret _ =>
        mkOutcome (Ret tt)
          (if is_blocked (status w) then with_container rc.2 w
           else with_status (health_status env rc.2) (with_container rc.2 w))
          [ERestartNginx address]
    | Raise e => mkOutcome (Raise e) (with_container rc.2 w)
                   [ERestartNginx address]
    end.
Proof.
  apply runs_elim. intros r w' t H. unfold reconcile_finish in H.
  cbv zeta. charm_inv2 H.
  all: match goal with
       | H : _ = (restart_nginx _ _ _).1 |- _ => rewrite <- H
       end.
  all: by wsimpl.
Qed.

(** The ways a [reconcile] runs: the workload is unreachable; or the
    [try] block completes and the last two statements run; or the [try]
    block raises an exception that is caught, or one that is not. *)
Lemma reconcile_cases cs w r w' t :
  runs (reconcile env cs) w r w' t →
  (can_connect (container w) = false ∧ r = Ret tt
   ∧ w' = with_status (MaintenanceStatus "Waiting for Synapse pebble")
            (bootstrap w)
   ∧ t = [])
  ∨ (can_connect (container w) = true
     ∧ ∃ r1 w1 t1,
         runs (reconcile_try env cs)
           (with_status (MaintenanceStatus "Configuring Synapse") (bootstrap w))
           r1 w1 t1
         ∧ ((r1 = Ret tt
             ∧ ∃ t2, runs (reconcile_finish env) w1 r w' t2 ∧ t = t1 ++ t2)
            ∨ (∃ e msg, r1 = Raise e ∧ blocked_message e = Some msg
                 ∧ r = Ret tt ∧ w' = with_status (BlockedStatus msg) w1
                 ∧ t = t1)
            ∨ (∃ e, r1 = Raise e ∧ blocked_message e = None
                 ∧ r = Raise e ∧ w' = w1 ∧ t = t1))).
Proof.
  intros H. unfold reconcile in H. phase_inv H.
  all: repeat match goal with
         | H : runs reconcile_bootstrap _ _ _ _ |- _ =>
             run_eq_in H reconcile_bootstrap_run
         | H : reconcile_except _ = Some _ |- _ =>
             apply reconcile_except_cases in H as (? & ? & ->)
         | H : runs (bind (set_status _) _) _ _ _ _ |- _ => run_inv H
         end.
  all: rewrite container_bootstrap in *.
  all: try (left; apply negb_true_iff in Hcond; by repeat split).
  all: right; apply negb_false_iff in Hcond; split; [done|].
  all: match goal with
       | H : runs (reconcile_try _ _) _ ?r ?x ?t |- _ =>
           exists r, x, t; split; [exact H|]
       end.
  - left. split; [by repeat match goal with u : () |- _ => destruct u end|].
    eexists. split; [eassumption|]. cbn [app]. by rewrite app_nil_r.
  - right. left.
    match goal with
    | H : ?e = PebbleServiceError ?m ∨ _ |- _ =>
        exists e, m; destruct H as [-> | ->]
    end.
    all: repeat split; try done; cbn [app]; by rewrite !app_nil_r.
  - right. right. eexists. repeat split; try done.
    match goal with
    | H : reconcile_except ?e = None |- _ => by destruct e
    end.
Qed.

Lemma dangling_reference_with_container c w :
  dangling_reference (with_container c w) = dangling_reference w.
Proof. reflexivity. Qed.

Lemma dangling_reference_with_status s w :
  dangling_reference (with_status s w) = dangling_reference w.
Proof. reflexivity. Qed.

Lemma access_denied_with_container c w :
  access_denied (with_container c w) = access_denied w.
Proof. reflexivity. Qed.

Lemma access_denied_with_status s w :
  access_denied (with_status s w) = access_denied w.
Proof. reflexivity. Qed.

(** Once [get_signing_key] returned, no reference is left that does not
    resolve. *)
Lemma dangling_reference_cleared w :
  dangling_reference (clear_dangling w) = false.
Proof.
  unfold clear_dangling. destruct (dangling_reference w) eqn:Hd; [|done].
  unfold dangling_reference.
  destruct (decide (peer_relations w = [])) as [Hrel|Hrel].
  - by rewrite with_peer_app_data_nil, peer_app_data_nil, lookup_empty.
  - rewrite peer_app_data_with_peer_app_data by done.
    by rewrite lookup_delete_eq.
Qed.

Lemma access_denied_cleared w : access_denied (clear_dangling w) = false.
Proof. unfold access_denied. by rewrite dangling_reference_cleared. Qed.

Lemma clear_dangling_idemp w : clear_dangling (clear_dangling w) = clear_dangling w.
Proof. unfold clear_dangling at 1. by rewrite dangling_reference_cleared. Qed.

Lemma clear_dangling_with_container c w :
  clear_dangling (with_container c w) = with_container c (clear_dangling w).
Proof.
  unfold clear_dangling. rewrite dangling_reference_with_container.
  by destruct (dangling_reference w).
Qed.

Lemma access_denied_bootstrap w : access_denied (bootstrap w) = access_denied w.
Proof.
  destruct (is_leader w) eqn:Hl.
  - rewrite !access_denied_leader; [done..|by rewrite is_leader_bootstrap].
  - by rewrite bootstrap_non_leader.
Qed.

Lemma reconcile_try_run cs w :
  reconcile_try env cs w = reconcile_try_outcome env cs w.
Proof.
  apply runs_elim. intros r w' t H. unfold reconcile_try in H.
  charm_inv2 H.
  all: rewrite ?clear_dangling_with_container, ?clear_dangling_idemp in *.
  all: rewrite ?access_denied_with_container in *.
  all: try (rewrite access_denied_cleared in *; discriminate).
  all: wsimpl2; rewrite ?get_unit_number_ret in *; clean_eqs.
  all: try congruence.
  all: unfold reconcile_try_outcome, signing_key_path; cbv zeta.
  all: rewrite ?Hdenied.
  all: repeat first
         [ progress wsimpl
         | match goal with
           | H : truthy_key (stored_key _) = _ |- _ => rewrite H in *; clear H
           | H : is_leader _ = _ |- _ => rewrite H in *; clear H
           | H : is_main _ = _ |- _ => rewrite H in *; clear H
           | H : _ = (pebble_reconcile _ _ _ _ _).1 |- _ =>
               rewrite <- H; clear H
           | H : files _ !! _ = _ |- _ => rewrite H; clear H
           end ].
  all: cbn [app]; rewrite ?app_nil_r.
  all: try done.
  all: match goal with
       | |- context [if creates_secret ?k ?x then _ else _] =>
           destruct (creates_secret k x)
       end.
  all: wsimpl.
  all: match goal with
       | H : is_leader _ = _ |- _ => by rewrite H
       end.
Qed.

Lemma reconcile_try_runs cs w r w' t :
  runs (reconcile_try env cs) w r w' t →
  reconcile_try_outcome env cs w = mkOutcome r w' t.
Proof. unfold runs. intros <-. symmetry. apply reconcile_try_run. Qed.

Lemma nginx_restarts_app t1 t2 :
  nginx_restarts (t1 ++ t2) = nginx_restarts t1 ++ nginx_restarts t2.
Proof. apply omap_app. Qed.

Lemma matrix_auth_updates_app t1 t2 :
  matrix_auth_updates (t1 ++ t2)
  = matrix_auth_updates t1 ++ matrix_auth_updates t2.
Proof. apply omap_app. Qed.

Lemma pushed_files_app t1 t2 :
  pushed_files (t1 ++ t2) = pushed_files t1 ++ pushed_files t2.
Proof. apply omap_app. Qed.

Lemma pulled_files_app t1 t2 :
  pulled_files (t1 ++ t2) = pulled_files t1 ++ pulled_files t2.
Proof. apply omap_app. Qed.

(** Decide every condition of the [try] block. *)
Ltac try_cases :=
  unfold reconcile_try_outcome; cbv zeta;
  repeat match goal with
         | |- context [if access_denied ?x then _ else _] =>
             destruct (access_denied x) eqn:?
         | |- context [truthy_key (stored_key ?x)] =>
             destruct (truthy_key (stored_key x)) eqn:?
         | |- context [(pebble_reconcile ?e ?c ?k ?m ?n).1] =>
             destruct (pebble_reconcile e c k m n).1 eqn:?
         | |- context [is_main ?x && negb _] => destruct (is_main x) eqn:?
         | |- context [files ?c !! ?p] => destruct (files c !! p) eqn:?
         | |- context [if creates_secret ?k ?x then _ else _] =>
             destruct (creates_secret k x) eqn:?
         | |- context [if is_leader ?x then _ else _] =>
             destruct (is_leader x) eqn:?
         | |- _ => progress cbn [negb andb res post trace]
         end.

Lemma try_outcome_status cs w :
  status (post (reconcile_try_outcome env cs w)) = status w.
Proof. try_cases; by wsimpl. Qed.

Lemma try_outcome_nginx cs w :
  nginx_restarts (trace (reconcile_try_outcome env cs w)) = [].
Proof. by try_cases. Qed.

Lemma access_denied_no_key w : access_denied w = true → stored_key w = None.
Proof. intros [Hd _]%andb_prop. by apply dangling_no_key. Qed.

Lemma try_outcome_denied cs w :
  access_denied w = true →
  reconcile_try_outcome env cs w = mkOutcome (Raise RelationDataAccessError) w [].
Proof. intros Hd. unfold reconcile_try_outcome. cbv zeta. by rewrite Hd. Qed.

Lemma try_outcome_pushed cs w :
  pushed_files (trace (reconcile_try_outcome env cs w))
  = if truthy_key (stored_key w)
    then [(signing_key_path env cs, default "" (stored_key w))]
    else [].
Proof.
  destruct (access_denied w) eqn:Hd; [|by try_cases].
  by rewrite try_outcome_denied, access_denied_no_key.
Qed.

Lemma try_outcome_matrix cs w :
  matrix_auth_updates (trace (reconcile_try_outcome env cs w)) = []
  ∨ (is_leader w = true
     ∧ matrix_auth_updates (trace (reconcile_try_outcome env cs w)) = [cs]).
Proof. try_cases; (by left) || (by right). Qed.

Lemma bootstrap_recorded w : get_main_unit w ≠ None → bootstrap w = w.
Proof.
  intros Hm. unfold bootstrap. by rewrite bool_decide_eq_false_2.
Qed.

Lemma bootstrap_with_status s w :
  bootstrap (with_status s w) = with_status s (bootstrap w).
Proof.
  unfold bootstrap.
  change (get_main_unit (with_status s w)) with (get_main_unit w).
  change (is_leader (with_status s w)) with (is_leader w).
  by destruct (bool_decide (get_main_unit w = None) && is_leader w).
Qed.

Lemma status_bootstrap w : status (bootstrap w) = status w.
Proof.
  unfold bootstrap.
  by destruct (bool_decide (get_main_unit w = None) && is_leader w).
Qed.

Lemma unit_number_bootstrap w : unit_number (bootstrap w) = unit_number w.
Proof. apply unit_number_same_identity, same_identity_bootstrap. Qed.

(** *** An unreachable workload *)

(** X10: when Pebble in the workload container cannot be reached,
    [reconcile] makes no call at all to its collaborators, returns
    normally and leaves the unit in [Maintenance], waiting for Pebble;
    the container and the secrets are as before. *)
Theorem reconcile_unreachable cs w :
  can_connect (container w) = false →
  res (reconcile env cs w) = Ret tt
  ∧ trace (reconcile env cs w) = []
  ∧ status (post (reconcile env cs w))
    = MaintenanceStatus "Waiting for Synapse pebble"
  ∧ container (post (reconcile env cs w)) = container w
  ∧ secrets (post (reconcile env cs w)) = secrets w.
Proof.
  intros Hc.
  destruct (reconcile_cases cs w _ _ _ (runs_intro _ _))
    as [(_ & Hr & Hw & Ht)|(Hc' & _)]; [|congruence].
  rewrite Hr, Hw, Ht. repeat split.
  - cbn. apply container_bootstrap.
  - cbn. apply secrets_bootstrap.
Qed.

(** *** Errors while configuring *)

(** X11: when [get_signing_key] is not refused (the unit is leader, or
    the published reference resolves) and [pebble.reconcile] raises,
    [reconcile] restarts no NGINX, updates no [matrix-auth] integration,
    reads no key file and creates no secret.  A [PebbleServiceError] (or
    [FileNotFoundError]) is caught: [reconcile] returns normally and the
    unit is [Blocked] with the message of the exception; any other
    exception leaves [reconcile] and the status stays at [Maintenance],
    configuring. *)
Theorem reconcile_pebble_error cs w e :
  can_connect (container w) = true →
  is_leader w = true ∨ dangling_reference w = false →
  (∀ c main n, (pebble_reconcile env cs c main n).1 = Raise e) →
  nginx_restarts (trace (reconcile env cs w)) = []
  ∧ matrix_auth_updates (trace (reconcile env cs w)) = []
  ∧ pulled_files (trace (reconcile env cs w)) = []
  ∧ created_secrets (trace (reconcile env cs w)) = []
  ∧ secrets (post (reconcile env cs w)) = secrets w
  ∧ match blocked_message e with
    | Some msg =>
        res (reconcile env cs w) = Ret tt
        ∧ status (post (reconcile env cs w)) = BlockedStatus msg
    | None =>
        res (reconcile env cs w) = Raise e
        ∧ status (post (reconcile env cs w))
          = MaintenanceStatus "Configuring Synapse"
    end.
Proof.
  intros Hc Hallowed Hpebble.
  assert (Hd : access_denied w = false).
  { unfold access_denied. destruct Hallowed as [-> | ->]; [|done].
    by rewrite andb_false_r. }
  destruct (reconcile_cases cs w _ _ _ (runs_intro _ _))
    as [(Hc' & _)|(_ & r1 & w1 & t1 & Htry & Hcases)]; [congruence|].
  apply reconcile_try_runs in Htry.
  unfold reconcile_try_outcome in Htry. cbv zeta in Htry.
  rewrite access_denied_with_status, access_denied_bootstrap, Hd in Htry.
  rewrite Hpebble in Htry. injection Htry as <- <- <-.
  destruct Hcases as [(Hr1 & _)|[(e0 & msg & Hr1 & Hmsg & Hr & Hw & Ht)
                                |(e0 & Hr1 & Hmsg & Hr & Hw & Ht)]];
    [done|..].
  all: injection Hr1 as <-.
  all: rewrite Hr, Hw, Ht, Hmsg.
  all: wsimpl2; rewrite ?secrets_bootstrap.
  all: destruct (truthy_key (stored_key (bootstrap w))).
  all: wsimpl2; rewrite ?secrets_bootstrap; by repeat split.
Qed.

(** X12: on the main unit, when [get_signing_key] is not refused, no
    usable signing key is in the store and the workload has no key file
    after the configuration was applied, reading the key file raises
    [ops.pebble.PathError], which the [except] clause of [reconcile] does
    not catch: [reconcile] raises it and the unit stays in [Maintenance],
    configuring.  No secret is created, no [matrix-auth] integration is
    updated and NGINX is not restarted.  [pebble.reconcile] was called
    once, for the main unit. *)
Theorem reconcile_missing_key_file cs w c' :
  can_connect (container w) = true →
  is_main w = true →
  is_leader w = true ∨ dangling_reference w = false →
  truthy_key (stored_key w) = false →
  pebble_reconcile env cs (container w) true (unit_number w) = (Ret tt, c') →
  files c' !! signing_key_path env cs = None →
  res (reconcile env cs w) = Raise (PathError "not-found")
  ∧ status (post (reconcile env cs w))
    = MaintenanceStatus "Configuring Synapse"
  ∧ applied_configs (trace (reconcile env cs w)) = [(cs, true, unit_number w)]
  ∧ created_secrets (trace (reconcile env cs w)) = []
  ∧ matrix_auth_updates (trace (reconcile env cs w)) = []
  ∧ nginx_restarts (trace (reconcile env cs w)) = []
  ∧ secrets (post (reconcile env cs w)) = secrets w.
Proof.
  intros Hc Hmain Hallowed Hkey Hpebble Hfile.
  assert (Hd : access_denied w = false).
  { unfold access_denied. destruct Hallowed as [-> | ->]; [|done].
    by rewrite andb_false_r. }
  assert (Hb : bootstrap w = w).
  { apply bootstrap_recorded. unfold is_main in Hmain.
    by destruct (get_main_unit w). }
  destruct (reconcile_cases cs w _ _ _ (runs_intro _ _))
    as [(Hc' & _)|(_ & r1 & w1 & t1 & Htry & Hcases)]; [congruence|].
  apply reconcile_try_runs in Htry. rewrite Hb in Htry.
  unfold reconcile_try_outcome in Htry. cbv zeta in Htry.
  rewrite access_denied_with_status, Hd in Htry.
  wsimpl2. rewrite Hkey, Hmain in Htry.
  change (unit_number (with_status _ w)) with (unit_number w) in Htry.
  wsimpl2. rewrite Hpebble in Htry. cbn [fst snd negb andb] in Htry.
  rewrite Hfile in Htry. injection Htry as <- <- <-.
  destruct Hcases as [(Hr1 & _)|[(e0 & msg & Hr1 & Hmsg & Hr & Hw & Ht)
                                |(e0 & Hr1 & Hmsg & Hr & Hw & Ht)]];
    [done| |].
  - by injection Hr1 as <-.
  - injection Hr1 as <-. rewrite Hr, Hw, Ht. by wsimpl2.
Qed.

Lemma reconcile_with_status cs w s :
  reconcile env cs (with_status s w) = reconcile env cs w.
Proof.
  unfold reconcile, bind.
  rewrite !reconcile_bootstrap_run, bootstrap_with_status.
  cbn [res post trace]. unfold gets. cbn [res post trace container with_status].
  destruct (negb (can_connect (container (bootstrap w)))); reflexivity.
Qed.

(** X13: [reconcile] does not look at the status it starts from: it
    returns the same, leaves the same model and makes the same calls
    whatever the status was.  So a [Blocked] status left by an earlier
    event does not outlive the next [reconcile], which leaves the status
    it would have left anyway. *)
Theorem reconcile_status_independent cs w s :
  reconcile env cs (with_status s w) = reconcile env cs w
  ∧ ∀ msg, status (post (reconcile env cs (with_status (BlockedStatus msg) w)))
           = status (post (reconcile env cs w)).
Proof.
  split; [apply reconcile_with_status|].
  intros msg. by rewrite reconcile_with_status.
Qed.

(** *** The status a reconcile leaves *)

Lemma health_status_cases (c : Container) :
  (health_status env c = ActiveStatus "" ∧ healthy env c)
  ∨ (∃ msg, health_status env c = MaintenanceStatus msg
            ∧ msg ≠ "Configuring Synapse" ∧ ¬ healthy env c).
Proof.
  unfold health_status, healthy, get_services.
  destruct (can_connect c); cbn [negb].
  - destruct (services c !! SYNAPSE_SERVICE_NAME env) as [[]|];
      cbn; try (right; eexists; repeat split; [done|intros (_ & ? & _); done]).
    destruct (services c !! SYNAPSE_NGINX_SERVICE_NAME env) as [[]|];
      cbn; try (right; eexists; repeat split;
                [done|intros (_ & _ & ?); done]).
    by left.
  - right. eexists. repeat split; [done|]. by intros (? & _).
Qed.

Lemma health_status_not_blocked (c : Container) :
  is_blocked (health_status env c) = false.
Proof.
  by destruct (health_status_cases c) as [(-> & _)|(m & -> & _)].
Qed.

Lemma finish_facts w r w' t :
  runs (reconcile_finish env) w r w' t →
  is_blocked (status w) = false →
  t = [ERestartNginx (get_main_unit_address w)]
  ∧ ((r = Ret tt ∧ status w' = health_status env (container w'))
     ∨ (∃ e, r = Raise e ∧ status w' = status w)).
Proof.
  unfold runs. rewrite reconcile_finish_run. cbv zeta. intros H Hb.
  rewrite Hb in H.
  destruct (restart_nginx env (container w) (get_main_unit_address w)).1;
    injection H as <- <- <-; (split; [done|]).
  - by left.
  - right. by eexists.
Qed.

Lemma is_main_bootstrap_post cs w :
  is_main (post (reconcile env cs w)) = is_main (bootstrap w).
Proof.
  apply is_main_same_main.
  apply (reconcile_same_main cs w _ _ _ (runs_intro _ _)).
Qed.

Lemma main_address_same_main w w' :
  same_main w w' → get_main_unit_address w' = get_main_unit_address w.
Proof.
  intros ((Hn & Ha & _) & Hm & _). unfold get_main_unit_address.
  by rewrite Hm, Hn, Ha.
Qed.

Lemma try_outcome_applied cs w :
  applied_configs (trace (reconcile_try_outcome env cs w))
  = if access_denied w then [] else [(cs, is_main w, unit_number w)].
Proof. by try_cases. Qed.

(** The facts about a [reconcile] on a reachable workload that the
    properties below share: the status while the [try] block runs, and
    what the block applies, pushes and restarts. *)
Lemma reconcile_connected_facts cs w r w' t :
  runs (reconcile env cs) w r w' t →
  can_connect (container w) = true →
  ∃ r1 w1 t1,
    status w1 = MaintenanceStatus "Configuring Synapse"
    ∧ same_main (bootstrap w) w1
    ∧ ((access_denied w = false
        ∧ applied_configs t1 = [(cs, is_main (bootstrap w), unit_number w)])
       ∨ (access_denied w = true ∧ r1 = Raise RelationDataAccessError
          ∧ t1 = []))
    ∧ nginx_restarts t1 = []
    ∧ pushed_files t1
      = (if truthy_key (stored_key w)
         then [(signing_key_path env cs, default "" (stored_key w))]
         else [])
    ∧ (matrix_auth_updates t1 = []
       ∨ (is_leader w = true ∧ matrix_auth_updates t1 = [cs]))
    ∧ ((r1 = Ret tt
        ∧ ∃ t2, runs (reconcile_finish env) w1 r w' t2 ∧ t = t1 ++ t2)
       ∨ (∃ e msg, r1 = Raise e ∧ blocked_message e = Some msg
            ∧ r = Ret tt ∧ w' = with_status (BlockedStatus msg) w1
            ∧ t = t1)
       ∨ (∃ e, r1 = Raise e ∧ blocked_message e = None
            ∧ r = Raise e ∧ w' = w1 ∧ t = t1)).
Proof.
  intros H Hc.
  destruct (reconcile_cases cs w _ _ _ H)
    as [(Hc' & _)|(_ & r1 & w1 & t1 & Htry & Hcases)]; [congruence|].
  exists r1, w1, t1.
  pose proof (try_same_main _ _ _ _ _ Htry) as Hsm.
  apply reconcile_try_runs in Htry.
  pose proof (try_outcome_status cs
                (with_status (MaintenanceStatus "Configuring Synapse")
                   (bootstrap w))) as Hst.
  pose proof (try_outcome_applied cs
                (with_status (MaintenanceStatus "Configuring Synapse")
                   (bootstrap w))) as Happ.
  pose proof (try_outcome_nginx cs
                (with_status (MaintenanceStatus "Configuring Synapse")
                   (bootstrap w))) as Hng.
  pose proof (try_outcome_pushed cs
                (with_status (MaintenanceStatus "Configuring Synapse")
                   (bootstrap w))) as Hpu.
  pose proof (try_outcome_matrix cs
                (with_status (MaintenanceStatus "Configuring Synapse")
                   (bootstrap w))) as Hma.
  rewrite Htry in Hst, Happ, Hng, Hpu, Hma. cbn [post trace] in *.
  change (is_main (with_status ?s ?x)) with (is_main x) in Happ.
  change (unit_number (with_status ?s ?x)) with (unit_number x) in Happ.
  change (stored_key (with_status ?s ?x)) with (stored_key x) in Hpu.
  change (is_leader (with_status ?s ?x)) with (is_leader x) in Hma.
  rewrite unit_number_bootstrap in Happ.
  rewrite access_denied_with_status, access_denied_bootstrap in Happ.
  rewrite stored_key_bootstrap in Hpu.
  rewrite is_leader_bootstrap in Hma.
  split; [exact Hst|]. split; [exact Hsm|].
  split; [|do 3 (split; [done|]); exact Hcases].
  destruct (access_denied w) eqn:Hd; [right|by left].
  rewrite try_outcome_denied in Htry
    by (by rewrite access_denied_with_status, access_denied_bootstrap).
  by injection Htry as <- <- <-.
Qed.

Lemma reconcile_active_healthy cs w msg :
  status (post (reconcile env cs w)) = ActiveStatus msg →
  healthy env (container (post (reconcile env cs w))).
Proof.
  pose proof (runs_intro (reconcile env cs) w) as H.
  revert H. generalize (res (reconcile env cs w)).
  generalize (trace (reconcile env cs w)).
  generalize (post (reconcile env cs w)). intros w' t r H Hs.
  destruct (can_connect (container w)) eqn:Hc.
  - destruct (reconcile_connected_facts _ _ _ _ _ H Hc)
      as (r1 & w1 & t1 & Hst & _ & _ & _ & _ & _ & Hcases).
    destruct Hcases
      as [(_ & t2 & Hfin & ->)
         |[(e & m & _ & _ & -> & -> & ->)|(e & _ & _ & -> & -> & ->)]].
    + apply finish_facts in Hfin as (_ & Hfin); [|by rewrite Hst].
      destruct Hfin as [(_ & Hs')|(e & _ & Hs')]; rewrite Hs' in Hs.
      * by destruct (health_status_cases (container w'))
          as [(_ & Hh)|(m & Hm & _ & _)]; [|rewrite Hm in Hs].
      * by rewrite Hst in Hs.
    + done.
    + by rewrite Hst in Hs.
  - by apply reconcile_cases in H as [(_ & -> & -> & ->)|(Hc' & _)];
      [|congruence].
Qed.

(** X15: a [reconcile] that leaves the unit [Active] found the workload
    up (Pebble reachable, Synapse and NGINX running), returned normally,
    applied the configuration once and restarted NGINX once, for the
    address of the main unit.  A [reconcile] that leaves the unit
    [Blocked] returned normally and did not restart NGINX. *)
Theorem reconcile_active_or_blocked cs w :
  (∀ msg, status (post (reconcile env cs w)) = ActiveStatus msg →
     msg = ""
     ∧ res (reconcile env cs w) = Ret tt
     ∧ healthy env (container (post (reconcile env cs w)))
     ∧ applied_configs (trace (reconcile env cs w))
       = [(cs, is_main (post (reconcile env cs w)), unit_number w)]
     ∧ nginx_restarts (trace (reconcile env cs w))
       = [get_main_unit_address (post (reconcile env cs w))])
  ∧ (is_blocked (status (post (reconcile env cs w))) = true →
     res (reconcile env cs w) = Ret tt
     ∧ nginx_restarts (trace (reconcile env cs w)) = []).
Proof.
  pose proof (runs_intro (reconcile env cs) w) as H.
  pose proof (is_main_bootstrap_post cs w) as Hmain.
  revert H Hmain. generalize (res (reconcile env cs w)).
  generalize (trace (reconcile env cs w)).
  generalize (post (reconcile env cs w)). intros w' t r H Hmain.
  destruct (can_connect (container w)) eqn:Hc.
  - destruct (reconcile_connected_facts _ _ _ _ _ H Hc)
      as (r1 & w1 & t1 & Hst & Hsm & Happ & Hng & _ & _ & Hcases).
    destruct Hcases
      as [(Hr1 & t2 & Hfin & ->)
         |[(e & m & _ & _ & -> & -> & ->)|(e & _ & _ & -> & -> & ->)]].
    + destruct Happ as [(_ & Happ)|(_ & Hr1' & _)]; [|congruence].
      pose proof (finish_same_main _ _ _ _ Hfin) as Hsm2.
      apply finish_facts in Hfin as (-> & Hfin); [|by rewrite Hst].
      rewrite applied_configs_app, nginx_restarts_app, Happ, Hng.
      rewrite (main_address_same_main _ _ Hsm2), Hmain.
      destruct Hfin as [(-> & Hs)|(e & -> & Hs)]; rewrite Hs.
      * destruct (health_status_cases (container w'))
          as [(-> & Hh)|(m & -> & _ & _)]; split; try done.
        by intros msg [= <-].
      * rewrite Hst. by split.
    + split; [done|]. intros _. by split.
    + rewrite Hst. by split.
  - apply reconcile_cases in H as [(_ & -> & -> & ->)|(Hc' & _)];
      [|congruence].
    by split.
Qed.

(** *** Blocked within a reconcile and after it *)

(** Where a [reconcile] ends: on an unreachable workload; [Blocked], when
    the [try] block raised an exception that is caught; or with another
    status, when the block returned or raised another exception. *)
Lemma reconcile_blocked_cases cs w :
  (can_connect (container w) = false
   ∧ status (post (reconcile env cs w))
     = MaintenanceStatus "Waiting for Synapse pebble")
  ∨ (can_connect (container w) = true
     ∧ ((∃ e m,
           res (reconcile_try env cs
                  (with_status (MaintenanceStatus "Configuring Synapse")
                     (bootstrap w))) = Raise e
           ∧ blocked_message e = Some m
           ∧ status (post (reconcile env cs w)) = BlockedStatus m
           ∧ res (reconcile env cs w) = Ret tt
           ∧ nginx_restarts (trace (reconcile env cs w)) = [])
        ∨ (is_blocked (status (post (reconcile env cs w))) = false
           ∧ ∀ e, res (reconcile_try env cs
                         (with_status (MaintenanceStatus "Configuring Synapse")
                            (bootstrap w))) = Raise e →
                  blocked_message e = None))).
Proof.
  pose proof (runs_intro (reconcile env cs) w) as H.
  revert H. generalize (res (reconcile env cs w)).
  generalize (trace (reconcile env cs w)).
  generalize (post (reconcile env cs w)). intros w' t r H.
  destruct (reconcile_cases cs w _ _ _ H)
    as [(Hc & _ & -> & _)|(Hc & r1 & w1 & t1 & Htry & Hcases)];
    [by left|right; split; [done|]].
  pose proof (runs_res _ _ _ _ _ Htry) as (Hres & _).
  apply reconcile_try_runs in Htry.
  pose proof (try_outcome_status cs
                (with_status (MaintenanceStatus "Configuring Synapse")
                   (bootstrap w))) as Hst.
  pose proof (try_outcome_nginx cs
                (with_status (MaintenanceStatus "Configuring Synapse")
                   (bootstrap w))) as Hng.
  rewrite Htry in Hst, Hng. cbn [post trace status with_status] in Hst, Hng.
  rewrite Hres.
  destruct Hcases
    as [(-> & t2 & Hfin & ->)
       |[(e & m & -> & Hm & -> & -> & ->)|(e & -> & Hm & -> & -> & ->)]].
  - right. split; [|by intros e [=]].
    apply finish_facts in Hfin as (_ & [(_ & ->)|(e & _ & ->)]);
      [apply health_status_not_blocked|by rewrite Hst|by rewrite Hst].
  - left. by exists e, m.
  - right. rewrite Hst. split; [done|]. by intros e' [= <-].
Qed.

(** C8 (as amended): [_set_unit_status] returns at once, and leaves the
    model as it is, when the status is [Blocked].  A [reconcile] ends
    [Blocked] with a message exactly when the workload is reachable and
    its [try] block raised [PebbleServiceError] or [FileNotFoundError]
    with that message; it then returned before NGINX is restarted and the
    status recomputed.  [Blocked] does not outlast the next [reconcile]:
    started from a [Blocked] status, [reconcile] does what it does from
    any other status. *)
Theorem blocked_status_sticky cs w msg :
  (status w = BlockedStatus msg →
   res (_set_unit_status env w) = Ret tt
   ∧ post (_set_unit_status env w) = w)
  ∧ (status (post (reconcile env cs w)) = BlockedStatus msg
     ↔ can_connect (container w) = true
       ∧ (res (reconcile_try env cs
                 (with_status (MaintenanceStatus "Configuring Synapse")
                    (bootstrap w))) = Raise (PebbleServiceError msg)
          ∨ res (reconcile_try env cs
                   (with_status (MaintenanceStatus "Configuring Synapse")
                      (bootstrap w))) = Raise (FileNotFoundError msg)))
  ∧ (status (post (reconcile env cs w)) = BlockedStatus msg →
     res (reconcile env cs w) = Ret tt
     ∧ nginx_restarts (trace (reconcile env cs w)) = [])
  ∧ reconcile env cs (with_status (BlockedStatus msg) w) = reconcile env cs w.
Proof.
  split; [|split; [|split]].
  - intros Hst. rewrite set_unit_status_run, Hst. by cbn.
  - destruct (reconcile_blocked_cases cs w)
      as [(Hc & Hs)|(Hc & [(e & m & Hr & Hm & Hs & _)|(Hb & Hnone)])].
    + rewrite Hs. split; [done|]. intros [? _]. congruence.
    + rewrite Hs, Hr. split.
      * intros [= ->]. split; [done|].
        destruct e; cbn in Hm; try done; injection Hm as ->;
          (by left) || (by right).
      * intros [_ [[= ->]|[= ->]]]; cbn in Hm; by injection Hm as ->.
    + split.
      * intros Hs. by rewrite Hs in Hb.
      * intros [_ [Hr|Hr]]; by apply Hnone in Hr.
  - intros Hs.
    destruct (reconcile_blocked_cases cs w)
      as [(_ & Hs')|(_ & [(e & m & _ & _ & _ & Hr & Hn)|(Hb & _)])].
    + by rewrite Hs' in Hs.
    + done.
    + by rewrite Hs in Hb.
  - apply reconcile_with_status.
Qed.

(** X16: [reconcile] raises exactly when it leaves the status at
    [Maintenance], configuring: whenever it returns normally the status
    is another one. *)
Theorem reconcile_raises_iff_configuring cs w :
  (∃ e, res (reconcile env cs w) = Raise e)
  ↔ status (post (reconcile env cs w))
    = MaintenanceStatus "Configuring Synapse".
Proof.
  pose proof (runs_intro (reconcile env cs) w) as H.
  revert H. generalize (res (reconcile env cs w)).
  generalize (trace (reconcile env cs w)).
  generalize (post (reconcile env cs w)). intros w' t r H.
  destruct (can_connect (container w)) eqn:Hc.
  - destruct (reconcile_connected_facts _ _ _ _ _ H Hc)
      as (r1 & w1 & t1 & Hst & _ & _ & _ & _ & _ & Hcases).
    destruct Hcases
      as [(_ & t2 & Hfin & ->)
         |[(e & m & _ & _ & -> & -> & ->)|(e & _ & _ & -> & -> & ->)]].
    + apply finish_facts in Hfin as (-> & Hfin); [|by rewrite Hst].
      destruct Hfin as [(-> & Hs)|(e & -> & Hs)]; rewrite Hs.
      * destruct (health_status_cases (container w'))
          as [(-> & _)|(m & -> & Hm & _)].
        -- split; [by intros [e ?]|done].
        -- split; [by intros [e ?]|]. intros [= ?]. done.
      * split; [done|]. intros _. by eexists.
    + split; [by intros [? ?]|done].
    + split; [done|]. intros _. by eexists.
  - apply reconcile_cases in H as [(_ & -> & -> & ->)|(Hc' & _)];
      [|congruence].
    split; [by intros [? ?]|done].
Qed.

Lemma try_outcome_push_first cs w :
  truthy_key (stored_key w) = true →
  ∃ t',
    trace (reconcile_try_outcome env cs w)
    = EPush (signing_key_path env cs) (default "" (stored_key w))
      :: EApplyConfig cs (is_main w) (unit_number w) :: t'.
Proof.
  intros Hk.
  assert (Hd : access_denied w = false).
  { destruct (access_denied w) eqn:Hd; [|done].
    by rewrite (access_denied_no_key _ Hd) in Hk. }
  unfold reconcile_try_outcome. cbv zeta. rewrite Hk, Hd.
  rewrite andb_false_r.
  destruct (pebble_reconcile env cs _ _ _).1; [|by eexists].
  destruct (is_leader w); by eexists.
Qed.

(** X14: the only file [reconcile] pushes to the workload is the signing
    key found in the store, to the path of the key of the server; with no
    usable key in the store, or an unreachable workload, it pushes
    nothing.  The key is pushed first, right before the configuration is
    applied. *)
Theorem reconcile_pushes_stored_key cs w :
  pushed_files (trace (reconcile env cs w))
  = (if can_connect (container w) && truthy_key (stored_key w)
     then [("/data/" +:+ server_name env cs +:+ ".signing.key",
            default "" (stored_key w))]
     else [])
  ∧ (can_connect (container w) && truthy_key (stored_key w) = true →
     ∃ t',
       trace (reconcile env cs w)
       = EPush ("/data/" +:+ server_name env cs +:+ ".signing.key")
           (default "" (stored_key w))
         :: EApplyConfig cs (is_main (post (reconcile env cs w)))
              (unit_number w)
         :: t').
Proof.
  pose proof (runs_intro (reconcile env cs) w) as H.
  pose proof (is_main_bootstrap_post cs w) as Hmain.
  revert H Hmain. generalize (res (reconcile env cs w)).
  generalize (trace (reconcile env cs w)).
  generalize (post (reconcile env cs w)). intros w' t r H Hmain.
  fold (signing_key_path env cs).
  destruct (can_connect (container w)) eqn:Hc; cbn [andb].
  - destruct (reconcile_cases cs w _ _ _ H)
      as [(Hc' & _)|(_ & r1 & w1 & t1 & Htry & Hcases)]; [congruence|].
    apply reconcile_try_runs in Htry.
    pose proof (try_outcome_status cs
                  (with_status (MaintenanceStatus "Configuring Synapse")
                     (bootstrap w))) as Hst.
    pose proof (try_outcome_pushed cs
                  (with_status (MaintenanceStatus "Configuring Synapse")
                     (bootstrap w))) as Hpu.
    pose proof (try_outcome_push_first cs
                  (with_status (MaintenanceStatus "Configuring Synapse")
                     (bootstrap w))) as Hfirst.
    rewrite Htry in Hst, Hpu, Hfirst. cbn [post trace] in *.
    change (stored_key (with_status ?s ?x)) with (stored_key x) in *.
    change (is_main (with_status ?s ?x)) with (is_main x) in *.
    change (unit_number (with_status ?s ?x)) with (unit_number x) in *.
    rewrite stored_key_bootstrap, ?unit_number_bootstrap in *.
    rewrite Hmain.
    assert (Ht : ∃ t2, t = t1 ++ t2 ∧ pushed_files t2 = []).
    { destruct Hcases
        as [(_ & t2 & Hfin & ->)
           |[(e & m & _ & _ & _ & _ & ->)|(e & _ & _ & _ & _ & ->)]].
      - apply finish_facts in Hfin as (-> & _); [by eexists|by rewrite Hst].
      - exists []. by rewrite app_nil_r.
      - exists []. by rewrite app_nil_r. }
    destruct Ht as (t2 & -> & Ht2). split.
    + by rewrite pushed_files_app, Hpu, Ht2, app_nil_r.
    + intros Hk. destruct (Hfirst Hk) as (t' & ->). by eexists.
  - apply reconcile_cases in H as [(_ & -> & -> & ->)|(Hc' & _)];
      [|congruence].
    by split.
Qed.

(** The arguments [reconcile] gives to [pebble.reconcile]. *)
Lemma reconcile_applied cs w :
  applied_configs (trace (reconcile env cs w))
  = if can_connect (container w) && negb (access_denied w)
    then [(cs, is_main (bootstrap w), unit_number w)]
    else [].
Proof.
  pose proof (runs_intro (reconcile env cs) w) as H.
  revert H. generalize (res (reconcile env cs w)).
  generalize (trace (reconcile env cs w)).
  generalize (post (reconcile env cs w)). intros w' t r H.
  destruct (can_connect (container w)) eqn:Hc.
  - destruct (reconcile_connected_facts _ _ _ _ _ H Hc)
      as (r1 & w1 & t1 & Hst & _ & Happ & _ & _ & _ & Hcases).
    destruct Happ as [(Hd & Happ)|(Hd & -> & ->)]; rewrite Hd; cbn [andb negb].
    + destruct Hcases
        as [(_ & t2 & Hfin & ->)
           |[(e & m & _ & _ & -> & -> & ->)|(e & _ & _ & -> & -> & ->)]];
        try done.
      apply finish_facts in Hfin as (-> & _); [|by rewrite Hst].
      by rewrite applied_configs_app, Happ.
    + destruct Hcases
        as [(? & _)
           |[(e & m & [= <-] & ? & _)|(e & [= <-] & _ & -> & -> & ->)]];
        done.
  - by apply reconcile_cases in H as [(_ & -> & -> & ->)|(Hc' & _)];
      [|congruence].
Qed.

(** X6: [reconcile] calls [pebble.reconcile] exactly once when the
    workload is reachable and [get_signing_key] is not refused, and never
    otherwise: not on an unreachable workload, and not on a unit that is
    not leader while the published reference does not resolve, where
    [get_signing_key] raises before the configuration is applied.  It
    hands over the charm state, whether the unit is the main unit once a
    leader without a recorded main unit has recorded itself, and the
    number of the unit. *)
Theorem reconcile_applies_config_once cs w :
  applied_configs (trace (reconcile env cs w))
  = (if can_connect (container w)
        && negb (dangling_reference w && negb (is_leader w))
     then [(cs, is_main (post (reconcile env cs w)), unit_number w)]
     else [])
  ∧ (can_connect (container w) = true →
     dangling_reference w = true → is_leader w = false →
     res (reconcile env cs w) = Raise RelationDataAccessError
     ∧ trace (reconcile env cs w) = []).
Proof.
  split.
  - fold (access_denied w).
    by rewrite reconcile_applied, is_main_bootstrap_post.
  - intros Hc Hd Hl.
    assert (Hdenied : access_denied w = true)
      by (unfold access_denied; by rewrite Hd, Hl).
    pose proof (runs_intro (reconcile env cs) w) as H.
    destruct (reconcile_connected_facts _ _ _ _ _ H Hc)
      as (r1 & w1 & t1 & _ & _ & Happ & _ & _ & _ & Hcases).
    destruct Happ as [(Hd' & _)|(_ & -> & ->)]; [congruence|].
    destruct Hcases
      as [(? & _)
         |[(e & m & [= <-] & ? & _)|(e & [= <-] & _ & -> & _ & ->)]];
      done.
Qed.

(** *** Writing and reading the peer data *)


(** X5: [reconcile] never replaces a recorded main unit, whoever runs
    it.  With none recorded, a leader that has a peer relation records
    itself and is the main unit afterwards; a unit that is not leader, or
    has no peer relation, records nothing.  The name of the unit, of the
    application, the leadership and the planned units are never
    changed. *)
Theorem reconcile_main_designation cs w :
  (∀ m, get_main_unit w = Some m →
     get_main_unit (post (reconcile env cs w)) = Some m)
  ∧ (get_main_unit w = None → is_leader w = true → peer_relations w ≠ [] →
     get_main_unit (post (reconcile env cs w)) = Some (unit_name w)
     ∧ is_main (post (reconcile env cs w)) = true)
  ∧ (get_main_unit w = None →
     is_leader w = false ∨ peer_relations w = [] →
     get_main_unit (post (reconcile env cs w)) = None
     ∧ is_main (post (reconcile env cs w)) = false)
  ∧ unit_name (post (reconcile env cs w)) = unit_name w
  ∧ app_name (post (reconcile env cs w)) = app_name w
  ∧ is_leader (post (reconcile env cs w)) = is_leader w
  ∧ planned_units (post (reconcile env cs w)) = planned_units w.
Proof.
  pose proof (reconcile_main cs w) as Hm.
  destruct (reconcile_same_identity cs w) as (Hn & Ha & Hl & Hp).
  split; [|split; [|split]].
  - intros m Hmain. by rewrite Hm, Hmain.
  - intros Hnone Hlead Hrel. rewrite Hnone, Hlead in Hm.
    rewrite bool_decide_eq_true_2 in Hm by done. cbn [andb] in Hm.
    split; [done|]. unfold is_main. rewrite Hm, Hn.
    by apply String.eqb_refl.
  - intros Hnone Hcase. rewrite Hnone in Hm.
    assert (Hnone' : get_main_unit (post (reconcile env cs w)) = None).
    { rewrite Hm. destruct Hcase as [-> | Hrel]; [done|].
      rewrite bool_decide_eq_false_2 by (intros H; by apply H).
      by rewrite andb_false_r. }
    split; [done|]. unfold is_main. by rewrite Hnone'.
  - done.
Qed.

Lemma on_leader_elected_run cs w :
  is_leader w = true →
  _on_leader_elected env cs w
  = reconcile env cs (with_peer_app_data (<[MAIN_UNIT_ID := unit_name w]>) w).
Proof.
  intros Hl. apply runs_elim. intros r w' t H.
  unfold _on_leader_elected in H.
  run_inv_with handler_op H; [by rewrite Hl in *|..].
  all: match goal with
       | H : runs (reconcile _ _) _ _ _ _ |- _ =>
           unfold runs in H; by rewrite H
       end.
Qed.

(** X7: on a leader with a peer relation and a reachable workload,
    [_on_leader_elected] applies the configuration exactly once, and
    applies it for the main unit: [pebble.reconcile] is called with
    [is_main] true and the number of the unit, whatever unit was
    recorded as main before. *)
Theorem leader_elected_configures_main cs w :
  is_leader w = true →
  peer_relations w ≠ [] →
  can_connect (container w) = true →
  applied_configs (trace (_on_leader_elected env cs w))
  = [(cs, true, unit_number w)]
  ∧ is_main (post (_on_leader_elected env cs w)) = true.
Proof.
  intros Hl Hrel Hc. rewrite on_leader_elected_run by done.
  set (w1 := with_peer_app_data (<[MAIN_UNIT_ID := unit_name w]>) w).
  assert (Hmain : is_main (post (reconcile env cs w1)) = true).
  { unfold is_main. rewrite reconcile_main.
    destruct (reconcile_same_identity cs w1) as (-> & _).
    subst w1. rewrite get_main_unit_set_some by done.
    apply String.eqb_refl. }
  split; [|done].
  pose proof (runs_intro (reconcile env cs) w1) as H.
  destruct (reconcile_connected_facts _ _ _ _ _ H)
    as (r1 & x1 & t1 & Hst & _ & Happ & _ & _ & _ & Hcases); [done|].
  destruct Happ as [(_ & Happ)|(Hd & _)];
    [|by rewrite access_denied_leader in Hd].
  rewrite is_main_bootstrap_post in Hmain. rewrite Hmain in Happ.
  change (unit_number w1) with (unit_number w) in Happ.
  destruct Hcases
    as [(_ & t2 & Hfin & ->)
       |[(e & m & _ & _ & _ & _ & ->)|(e & _ & _ & _ & _ & ->)]];
    try done.
  apply finish_facts in Hfin as (-> & _); [|by rewrite Hst].
  by rewrite applied_configs_app, Happ.
Qed.

Lemma dangling_reference_spec w id :
  peer_app_data w !! SECRET_SIGNING_ID = Some id →
  PyStr.truthy id = true →
  secrets w !! id = None →
  dangling_reference w = true.
Proof.
  intros Hid Ht Hs. unfold dangling_reference. rewrite Hid, Ht.
  by rewrite bool_decide_eq_true_2.
Qed.

Lemma peer_app_data_some_relation w k v :
  peer_app_data w !! k = Some v → peer_relations w ≠ [].
Proof.
  unfold peer_app_data. destruct (peer_relations w); [|done].
  by rewrite lookup_empty.
Qed.

(** X8: when the peer data refers to a secret that does not exist, on a
    leader [get_signing_key] raises nothing: it returns no key and
    deletes the reference from the peer data, leaving the other entries,
    the main unit and the secrets as they are; called again it returns no
    key and changes nothing.  On a unit that is not leader the deletion
    is refused: [get_signing_key] raises [RelationDataAccessError] and
    the reference stays. *)
Theorem get_signing_key_dangling w id :
  peer_app_data w !! SECRET_SIGNING_ID = Some id →
  PyStr.truthy id = true →
  secrets w !! id = None →
  (is_leader w = true →
   res (get_signing_key (CharmState := CharmState) w) = Ret None
   ∧ trace (get_signing_key (CharmState := CharmState) w) = []
   ∧ peer_app_data (post (get_signing_key (CharmState := CharmState) w))
     = delete SECRET_SIGNING_ID (peer_app_data w)
   ∧ secrets (post (get_signing_key (CharmState := CharmState) w)) = secrets w
   ∧ get_main_unit (post (get_signing_key (CharmState := CharmState) w))
     = get_main_unit w
   ∧ get_signing_key (CharmState := CharmState)
       (post (get_signing_key (CharmState := CharmState) w))
     = mkOutcome (Ret None)
         (post (get_signing_key (CharmState := CharmState) w)) [])
  ∧ (is_leader w = false →
     get_signing_key (CharmState := CharmState) w
     = mkOutcome (Raise RelationDataAccessError) w []).
Proof.
  intros Hid Ht Hs.
  pose proof (dangling_reference_spec w id Hid Ht Hs) as Hd.
  pose proof (peer_app_data_some_relation w _ _ Hid) as Hrel.
  split; intros Hl.
  - assert (Hcd : clear_dangling w
                  = with_peer_app_data (delete SECRET_SIGNING_ID) w)
      by (unfold clear_dangling; by rewrite Hd).
    rewrite (get_signing_key_run w), (access_denied_leader w Hl).
    cbn [res post trace].
    rewrite get_signing_key_run, access_denied_cleared.
    rewrite (dangling_no_key w Hd), !Hcd.
    assert (Hdata : peer_app_data
                      (with_peer_app_data (delete SECRET_SIGNING_ID) w)
                    = delete SECRET_SIGNING_ID (peer_app_data w))
      by (by apply peer_app_data_with_peer_app_data).
    assert (Hnd : dangling_reference
                    (with_peer_app_data (delete SECRET_SIGNING_ID) w) = false).
    { unfold dangling_reference. by rewrite Hdata, lookup_delete_eq. }
    repeat split; try done.
    + apply get_main_unit_with_peer_app_data. intros m.
      by apply lookup_delete_ne.
    + f_equal.
      * unfold stored_key, referenced_secret.
        by rewrite Hdata, lookup_delete_eq.
      * unfold clear_dangling. by rewrite Hnd.
  - rewrite get_signing_key_run, access_denied_non_leader by done.
    by rewrite Hd.
Qed.

Lemma stored_key_publish_key key w :
  peer_relations w ≠ [] →
  PyStr.truthy (new_secret_id env (secrets w)) = true →
  stored_key (publish_key env key w) = Some key.
Proof.
  intros Hrel Hid. unfold stored_key, referenced_secret, publish_key.
  rewrite peer_app_data_with_peer_app_data by done.
  rewrite lookup_insert_eq, Hid. cbn [secrets with_secrets with_peer_app_data].
  by rewrite lookup_insert_eq, lookup_singleton_eq.
Qed.

Lemma peer_relations_clear_dangling_nil w :
  peer_relations (clear_dangling w) = [] ↔ peer_relations w = [].
Proof. by destruct (same_main_clear_dangling w) as (_ & _ & ?). Qed.

Lemma stored_key_some_not_dangling w key :
  stored_key w = Some key → clear_dangling w = w.
Proof.
  intros Hk. unfold clear_dangling.
  destruct (dangling_reference w) eqn:Hd; [|done].
  by rewrite (dangling_no_key w Hd) in Hk.
Qed.

(** X9: on a leader with a peer relation, and with Juju handing out a
    non-empty secret id, [set_signing_key key] followed by
    [get_signing_key] gives back [key], and nothing is changed by the
    read.  A second [set_signing_key key] then finds the key in place: it
    creates no secret and leaves the model as it is, so at most one
    secret is created for a key. *)
Theorem set_signing_key_round_trip key w :
  is_leader w = true →
  peer_relations w ≠ [] →
  PyStr.truthy (new_secret_id env (secrets w)) = true →
  get_signing_key (CharmState := CharmState)
    (post (set_signing_key env key w))
  = mkOutcome (Ret (Some key)) (post (set_signing_key env key w)) []
  ∧ set_signing_key env key (post (set_signing_key env key w))
    = mkOutcome (Ret tt) (post (set_signing_key env key w)) []
  ∧ (length (created_secrets (trace (set_signing_key env key w))) ≤ 1)%nat.
Proof.
  intros Hl Hrel Hid.
  assert (Hk : stored_key (post (set_signing_key env key w)) = Some key).
  { rewrite set_signing_key_run, access_denied_leader by done. cbn [post].
    destruct (creates_secret key w) eqn:Hc.
    - apply stored_key_publish_key.
      + by rewrite peer_relations_clear_dangling_nil.
      + by rewrite secrets_clear_dangling.
    - rewrite stored_key_clear_dangling. unfold creates_secret in Hc.
      destruct (peer_relations w); [done|]. rewrite Hl, andb_true_r in Hc.
      apply negb_false_iff, bool_decide_eq_true_1 in Hc. done. }
  pose proof (stored_key_some_not_dangling _ _ Hk) as Hcd.
  assert (Hd : access_denied (post (set_signing_key env key w)) = false).
  { destruct (access_denied _) eqn:Hd; [|done].
    by rewrite (access_denied_no_key _ Hd) in Hk. }
  split; [|split].
  - by rewrite get_signing_key_run, Hd, Hk, Hcd.
  - rewrite (set_signing_key_run key (post (set_signing_key env key w))), Hd.
    assert (Hc : creates_secret key (post (set_signing_key env key w))
                 = false).
    { unfold creates_secret. rewrite Hk.
      rewrite bool_decide_eq_true_2 by done.
      by destruct (peer_relations (post (set_signing_key env key w))). }
    by rewrite Hc, Hcd.
  - rewrite set_signing_key_run, access_denied_leader by done. cbn [trace].
    destruct (creates_secret key w); cbn; lia.
Qed.

(** *** The status of the workload *)

(** X17: [_set_unit_status] never raises, calls no collaborator and
    changes nothing but the status.  It leaves the unit [Active] exactly
    when the unit was not [Blocked], Pebble is reachable and both the
    Synapse and the NGINX service exist and run; and it leaves the unit
    [Blocked] exactly when it was [Blocked] before. *)
Theorem set_unit_status_active_iff w :
  res (_set_unit_status env w) = Ret tt
  ∧ trace (_set_unit_status env w) = []
  ∧ (∀ s, with_status s (post (_set_unit_status env w)) = with_status s w)
  ∧ (status (post (_set_unit_status env w)) = ActiveStatus ""
     ↔ is_blocked (status w) = false ∧ healthy env (container w))
  ∧ (is_blocked (status (post (_set_unit_status env w))) = true
     ↔ is_blocked (status w) = true).
Proof.
  rewrite set_unit_status_run. cbn [res post trace].
  split; [done|]. split; [done|].
  destruct (is_blocked (status w)) eqn:Hb.
  - split; [done|]. split; [|by rewrite Hb].
    split; [|by intros [? _]].
    intros Hs. by rewrite Hs in Hb.
  - split; [done|]. cbn [status with_status].
    rewrite health_status_not_blocked. split; [|done].
    destruct (health_status_cases (container w))
      as [(-> & Hh)|(m & -> & _ & Hh)].
    + by split.
    + split; [done|]. by intros [_ ?].
Qed.

Lemma get_signing_key_stored w key :
  stored_key w = Some key →
  res (get_signing_key (CharmState := CharmState) w) = Ret (Some key).
Proof.
  intros Hk. rewrite get_signing_key_run.
  destruct (access_denied w) eqn:Hd; [|by rewrite Hk].
  by rewrite (access_denied_no_key _ Hd) in Hk.
Qed.

(** X24: on a main unit that holds leadership and finds no usable signing
    key in the store, when the workload is reachable, the configuration is
    applied without error and the workload then holds a key file,
    [reconcile] reads that file and creates exactly one secret, whose
    signing key is the content of the file without its trailing white
    space; afterwards [get_signing_key] returns that key.  Nothing is
    pushed to the workload in this run. *)
Theorem reconcile_publishes_key cs w c' content :
  can_connect (container w) = true →
  is_leader w = true →
  is_main w = true →
  truthy_key (stored_key w) = false →
  pebble_reconcile env cs (container w) true (unit_number w) = (Ret tt, c') →
  files c' !! signing_key_path env cs = Some content →
  PyStr.truthy (PyStr.rstrip content) = true →
  PyStr.truthy (new_secret_id env (secrets w)) = true →
  created_secrets (trace (reconcile env cs w))
  = [{[SECRET_SIGNING_KEY := PyStr.rstrip content]}]
  ∧ pulled_files (trace (reconcile env cs w)) = [signing_key_path env cs]
  ∧ pushed_files (trace (reconcile env cs w)) = []
  ∧ res (get_signing_key (CharmState := CharmState)
           (post (reconcile env cs w)))
    = Ret (Some (PyStr.rstrip content)).
Proof.
  intros Hc Hl Hmain Hkey Hpebble Hfile Hcontent Hid.
  assert (Hb : bootstrap w = w).
  { apply bootstrap_recorded. unfold is_main in Hmain.
    by destruct (get_main_unit w). }
  assert (Hrel : peer_relations w ≠ []).
  { unfold is_main in Hmain. destruct (get_main_unit w) eqn:Hm; [|done].
    by eapply get_main_unit_some_relation. }
  assert (Hne : Some (PyStr.rstrip content) ≠ stored_key w).
  { intros Heq. by rewrite <- Heq in Hkey; cbn in Hkey; congruence. }
  pose proof (runs_intro (reconcile env cs) w) as H.
  revert H. generalize (res (reconcile env cs w)).
  generalize (trace (reconcile env cs w)).
  generalize (post (reconcile env cs w)). intros w' t r H.
  destruct (reconcile_cases cs w _ _ _ H)
    as [(Hc' & _)|(_ & r1 & w1 & t1 & Htry & Hcases)]; [congruence|].
  apply reconcile_try_runs in Htry. rewrite Hb in Htry.
  unfold reconcile_try_outcome in Htry. cbv zeta in Htry.
  rewrite access_denied_with_status, (access_denied_leader w Hl) in Htry.
  wsimpl2. rewrite Hkey, Hmain in Htry.
  change (unit_number (with_status _ w)) with (unit_number w) in Htry.
  wsimpl2. rewrite Hpebble in Htry. cbn [fst snd negb andb] in Htry.
  rewrite Hfile in Htry.
  assert (Hcreates : creates_secret (PyStr.rstrip content)
                       (with_container c'
                          (clear_dangling
                             (with_status
                                (MaintenanceStatus "Configuring Synapse") w)))
                     = true).
  { unfold creates_secret. wsimpl2.
    change (peer_relations (with_container ?c ?x)) with (peer_relations x).
    assert (Hr : peer_relations
                   (clear_dangling
                      (with_status (MaintenanceStatus "Configuring Synapse")
                         w)) ≠ []).
    { rewrite peer_relations_clear_dangling_nil. exact Hrel. }
    destruct (peer_relations (clear_dangling _)); [done|].
    rewrite Hl, andb_true_r. apply negb_true_iff.
    by apply bool_decide_eq_false_2. }
  rewrite Hcreates, Hl in Htry.
  set (w3 := publish_key env (PyStr.rstrip content) _) in Htry.
  assert (Hk3 : stored_key w3 = Some (PyStr.rstrip content)).
  { apply stored_key_publish_key.
    - change (peer_relations (with_container ?c ?x)) with (peer_relations x).
      by rewrite peer_relations_clear_dangling_nil.
    - by wsimpl2. }
  injection Htry as <- <- <-.
  assert (Hpost : same_store w3 w').
  { destruct Hcases
      as [(_ & t2 & Hfin & ->)
         |[(e & m & _ & _ & _ & -> & ->)|(e & _ & _ & _ & -> & ->)]].
    - by apply finish_same_store in Hfin.
    - by split.
    - by split. }
  rewrite (get_signing_key_stored w' (PyStr.rstrip content))
    by (by rewrite (stored_key_same_store _ _ Hpost)).
  assert (Ht : ∃ t2, t = ([EApplyConfig cs true (unit_number w);
                           EPull (signing_key_path env cs);
                           EAddSecret
                             {[SECRET_SIGNING_KEY := PyStr.rstrip content]};
                           EMatrixAuth cs]) ++ t2
                     ∧ (t2 = [] ∨ ∃ a, t2 = [ERestartNginx a])).
  { destruct Hcases
      as [(_ & t2 & Hfin & ->)
         |[(e & m & _ & _ & _ & _ & ->)|(e & _ & _ & _ & _ & ->)]].
    - apply finish_facts in Hfin as (-> & _).
      + eexists. split; [done|]. right. by eexists.
      + subst w3. by wsimpl2.
    - exists []. split; [by rewrite app_nil_r|by left].
    - exists []. split; [by rewrite app_nil_r|by left]. }
  destruct Ht as (t2 & -> & [-> | (a & ->)]); by repeat split.
Qed.

(** *** Reconcile run twice *)

Lemma dangling_reference_same_store w w' :
  same_store w w' → dangling_reference w' = dangling_reference w.
Proof.
  intros [Hrel Hsec]. unfold dangling_reference, peer_app_data.
  by rewrite Hrel, Hsec.
Qed.

(** Whether [get_signing_key] is refused does not change in a
    [reconcile]. *)
Lemma access_denied_reconcile cs w :
  access_denied (post (reconcile env cs w)) = access_denied w.
Proof.
  destruct (reconcile_same_identity cs w) as (_ & _ & Hl & _).
  destruct (is_leader w) eqn:Hlw.
  - by rewrite !access_denied_leader.
  - rewrite !access_denied_non_leader by congruence.
    apply dangling_reference_same_store.
    apply (reconcile_non_leader_store cs w _ _ _ Hlw (runs_intro _ _)).
Qed.

(** A key appears in the store during a [reconcile] only on the main
    unit, read from the key file the workload holds once the
    configuration is applied. *)
Lemma reconcile_key_appears cs w :
  can_connect (container w) = true →
  truthy_key (stored_key w) = false →
  truthy_key (stored_key (post (reconcile env cs w))) = true →
  is_main (bootstrap w) = true
  ∧ files (pebble_reconcile env cs (container w) true (unit_number w)).2
    !! signing_key_path env cs ≠ None.
Proof.
  intros Hc Hk.
  pose proof (runs_intro (reconcile env cs) w) as H.
  revert H. generalize (res (reconcile env cs w)).
  generalize (trace (reconcile env cs w)).
  generalize (post (reconcile env cs w)). intros w' t r H Hk'.
  destruct (reconcile_cases cs w _ _ _ H)
    as [(Hc' & _)|(_ & r1 & w1 & t1 & Htry & Hcases)]; [congruence|].
  assert (Hst : stored_key w' = stored_key w1).
  { destruct Hcases
      as [(_ & t2 & Hfin & _)
         |[(e & m & _ & _ & _ & -> & _)|(e & _ & _ & _ & -> & _)]];
      [|done..].
    apply stored_key_same_store. by apply finish_same_store in Hfin. }
  rewrite Hst in Hk'. clear Hcases Hst H.
  apply reconcile_try_runs in Htry.
  assert (Hpost : w1 = post (reconcile_try_outcome env cs
                               (with_status
                                  (MaintenanceStatus "Configuring Synapse")
                                  (bootstrap w))))
    by (by rewrite Htry).
  subst w1. clear Htry. revert Hk'.
  unfold reconcile_try_outcome. cbv zeta.
  change (stored_key (with_status ?s ?x)) with (stored_key x).
  change (is_main (with_status ?s ?x)) with (is_main x).
  change (unit_number (with_status ?s ?x)) with (unit_number x).
  rewrite stored_key_bootstrap, unit_number_bootstrap, Hk.
  cbn [negb]. rewrite andb_true_r.
  rewrite container_clear_dangling. cbn [container with_status].
  rewrite container_bootstrap.
  assert (Hkeep : ∀ c s,
            truthy_key
              (stored_key
                 (with_container c
                    (clear_dangling (with_status s (bootstrap w)))))
            = false).
  { intros c s. rewrite stored_key_with_container, stored_key_clear_dangling.
    change (stored_key (with_status s ?x)) with (stored_key x).
    by rewrite stored_key_bootstrap. }
  destruct (access_denied _).
  { cbn [post]. change (stored_key (with_status ?s ?x)) with (stored_key x).
    rewrite stored_key_bootstrap. congruence. }
  destruct (pebble_reconcile env cs (container w) (is_main (bootstrap w))
              (unit_number w)).1 eqn:Hp; cbn [post];
    [|rewrite Hkeep; congruence].
  destruct (is_main (bootstrap w)) eqn:Hm.
  - destruct (files _ !! _) eqn:Hf; [|cbn [post]; rewrite Hkeep; congruence].
    intros _. by split.
  - destruct (is_leader _); cbn [post]; rewrite Hkeep; congruence.
Qed.

Section SteadyWorkload.
Hypothesis Hsteady : steady_workload env.

Lemma pebble_answer cs c c' main n :
  (pebble_reconcile env cs c main n).1 = (pebble_reconcile env cs c' main n).1.
Proof. destruct Hsteady as (H & _). apply H. Qed.

Lemma nginx_answer c c' address :
  (restart_nginx env c address).1 = (restart_nginx env c' address).1.
Proof. destruct Hsteady as (_ & H & _). apply H. Qed.

Lemma pebble_can_connect cs c main n :
  can_connect (pebble_reconcile env cs c main n).2 = can_connect c.
Proof. destruct Hsteady as (_ & _ & H & _). apply H. Qed.

Lemma nginx_can_connect c address :
  can_connect (restart_nginx env c address).2 = can_connect c.
Proof. destruct Hsteady as (_ & _ & _ & H & _). apply H. Qed.

Lemma pebble_services cs c c' main n :
  services (pebble_reconcile env cs c main n).2
  = services (pebble_reconcile env cs c' main n).2.
Proof. destruct Hsteady as (_ & _ & _ & _ & H & _). apply H. Qed.

Lemma nginx_services c c' address :
  services c = services c' →
  services (restart_nginx env c address).2
  = services (restart_nginx env c' address).2.
Proof. destruct Hsteady as (_ & _ & _ & _ & _ & H & _). apply H. Qed.

Lemma pebble_key_file cs c c' main n :
  bool_decide
    (files (pebble_reconcile env cs c main n).2 !! signing_key_path env cs
     = None)
  = bool_decide
      (files (pebble_reconcile env cs c' main n).2 !! signing_key_path env cs
       = None).
Proof.
  destruct Hsteady as (_ & _ & _ & _ & _ & _ & H). apply bool_decide_ext, H.
Qed.

Lemma try_outcome_result cs w :
  res (reconcile_try_outcome env cs w) = try_result env cs w.
Proof.
  unfold reconcile_try_outcome, try_result. cbv zeta.
  destruct (access_denied w) eqn:Hd; [done|].
  destruct (truthy_key (stored_key w)) eqn:Hk.
  - rewrite andb_false_r. cbn [andb].
    rewrite (pebble_answer cs (container (with_container _ _)) (container w)).
    destruct (pebble_reconcile env cs (container w) _ _).1; [|done].
    by destruct (is_leader w).
  - rewrite container_clear_dangling. cbn [negb]. rewrite andb_true_r.
    destruct (pebble_reconcile env cs (container w) _ _).1; [|done].
    destruct (is_main w); cbn [andb]; [|by destruct (is_leader w)].
    destruct (files _ !! _) eqn:Hf.
    + rewrite bool_decide_eq_false_2 by done.
      by destruct (creates_secret _ _), (is_leader w).
    + by rewrite bool_decide_eq_true_2.
Qed.

Lemma try_outcome_can_connect cs w :
  can_connect (container (post (reconcile_try_outcome env cs w)))
  = can_connect (container w).
Proof.
  try_cases; wsimpl; rewrite ?pebble_can_connect; by wsimpl.
Qed.

Lemma try_outcome_services cs w :
  access_denied w = false →
  services (container (post (reconcile_try_outcome env cs w)))
  = services
      (pebble_reconcile env cs (container w) (is_main w) (unit_number w)).2.
Proof.
  intros Hd. unfold reconcile_try_outcome. cbv zeta. rewrite Hd.
  repeat match goal with
         | |- context [if ?b then _ else _] => destruct b
         | |- context [match ?x with _ => _ end] => destruct x
         end.
  all: wsimpl; apply pebble_services.
Qed.

Lemma finish_steady w r w' t :
  runs (reconcile_finish env) w r w' t →
  is_blocked (status w) = false →
  can_connect (container w') = can_connect (container w)
  ∧ r = (restart_nginx env (container w) (get_main_unit_address w)).1
  ∧ status w'
    = match r with
      | Ret _ =>
          health_status env
            (restart_nginx env (container w) (get_main_unit_address w)).2
      | Raise _ => status w
      end.
Proof.
  unfold runs. rewrite reconcile_finish_run. cbv zeta. intros H Hb.
  rewrite Hb in H.
  destruct (restart_nginx env (container w) (get_main_unit_address w)).1
    as [[]|e];
    injection H as <- <- <-; wsimpl; by rewrite nginx_can_connect.
Qed.

(** A [reconcile] keeps Pebble reachable or unreachable. *)
Lemma reconcile_can_connect cs w :
  can_connect (container (post (reconcile env cs w)))
  = can_connect (container w).
Proof.
  pose proof (runs_intro (reconcile env cs) w) as H.
  revert H. generalize (res (reconcile env cs w)).
  generalize (trace (reconcile env cs w)).
  generalize (post (reconcile env cs w)). intros w' t r H.
  destruct (reconcile_cases cs w _ _ _ H)
    as [(Hc & _ & -> & _)|(Hc & r1 & w1 & t1 & Htry & Hcases)].
  { cbn [container with_status]. by rewrite container_bootstrap. }
  apply reconcile_try_runs in Htry.
  pose proof (try_outcome_can_connect cs
                (with_status (MaintenanceStatus "Configuring Synapse")
                   (bootstrap w))) as Hcc.
  pose proof (try_outcome_status cs
                (with_status (MaintenanceStatus "Configuring Synapse")
                   (bootstrap w))) as Hst.
  rewrite Htry in Hcc, Hst. cbn [post container status with_status] in Hcc, Hst.
  rewrite container_bootstrap in Hcc.
  destruct Hcases
    as [(_ & t2 & Hfin & _)
       |[(e & m & _ & _ & _ & -> & _)|(e & _ & _ & _ & -> & _)]];
    [|done..].
  apply finish_steady in Hfin as (-> & _); [done|by rewrite Hst].
Qed.

Lemma reconcile_summary_correct cs w :
  (res (reconcile env cs w), status (post (reconcile env cs w)),
   applied_configs (trace (reconcile env cs w)))
  = reconcile_summary env cs w.
Proof.
  rewrite reconcile_applied.
  pose proof (runs_intro (reconcile env cs) w) as H.
  revert H. generalize (res (reconcile env cs w)).
  generalize (trace (reconcile env cs w)).
  generalize (post (reconcile env cs w)). intros w' t r H.
  unfold reconcile_summary. cbv zeta.
  rewrite container_bootstrap, access_denied_bootstrap, unit_number_bootstrap.
  destruct (reconcile_cases cs w _ _ _ H)
    as [(Hc & -> & -> & _)|(Hc & r1 & w1 & t1 & Htry & Hcases)];
    rewrite Hc; [done|]. cbn [negb andb].
  pose proof (try_same_main _ _ _ _ _ Htry) as Hsm.
  apply reconcile_try_runs in Htry.
  pose proof (try_outcome_result cs
                (with_status (MaintenanceStatus "Configuring Synapse")
                   (bootstrap w))) as Hres.
  pose proof (try_outcome_status cs
                (with_status (MaintenanceStatus "Configuring Synapse")
                   (bootstrap w))) as Hst.
  pose proof (try_outcome_can_connect cs
                (with_status (MaintenanceStatus "Configuring Synapse")
                   (bootstrap w))) as Hcc.
  pose proof (try_outcome_services cs
                (with_status (MaintenanceStatus "Configuring Synapse")
                   (bootstrap w))) as Hsv.
  rewrite Htry in Hres, Hst, Hcc, Hsv.
  cbn [res post container status with_status] in Hres, Hst, Hcc, Hsv.
  change (try_result env cs (with_status ?s ?x)) with (try_result env cs x)
    in Hres.
  change (access_denied (with_status ?s ?x)) with (access_denied x) in Hsv.
  change (is_main (with_status ?s ?x)) with (is_main x) in Hsv.
  change (unit_number (with_status ?s ?x)) with (unit_number x) in Hsv.
  rewrite access_denied_bootstrap, unit_number_bootstrap in Hsv.
  rewrite container_bootstrap in Hcc, Hsv.
  rewrite <- Hres.
  destruct Hcases
    as [(-> & t2 & Hfin & ->)
       |[(e & m & -> & Hm & -> & -> & ->)|(e & -> & Hm & -> & -> & ->)]].
  - assert (Hd : access_denied w = false).
    { destruct (access_denied w) eqn:Hd; [|done].
      unfold try_result in Hres. cbv zeta in Hres.
      by rewrite access_denied_bootstrap, Hd in Hres. }
    rewrite Hd in *. specialize (Hsv eq_refl).
    apply finish_steady in Hfin as (Hcc2 & -> & ->); [|by rewrite Hst].
    rewrite (main_address_same_main _ _ Hsm).
    change (get_main_unit_address (with_status ?s ?x))
      with (get_main_unit_address x).
    rewrite (nginx_answer (container w1)
               (pebble_reconcile env cs (container w) (is_main (bootstrap w))
                  (unit_number w)).2).
    destruct (restart_nginx env
                (pebble_reconcile env cs (container w) (is_main (bootstrap w))
                   (unit_number w)).2 (get_main_unit_address (bootstrap w))).1
      as [[]|e]; [|by rewrite Hst].
    f_equal. f_equal. apply health_status_same.
    + by rewrite !nginx_can_connect, pebble_can_connect, Hcc.
    + by apply nginx_services.
  - rewrite Hm. by destruct (access_denied w).
  - rewrite Hm, Hst. by destruct (access_denied w).
Qed.

(** What the [try] block returns or raises in a second [reconcile] is
    what it did in the first. *)
Lemma try_result_stable cs w :
  can_connect (container w) = true →
  try_result env cs (post (reconcile env cs w))
  = try_result env cs (bootstrap w).
Proof.
  intros Hc.
  pose proof (reconcile_same_main cs w _ _ _ (runs_intro _ _)) as Hsm.
  pose proof (access_denied_reconcile cs w) as Hd.
  pose proof (reconcile_key_appears cs w Hc) as Happears.
  pose proof (λ Hk, reconcile_key cs w _ _ _ Hk (runs_intro _ _)) as Hkept.
  revert Hsm Hd Happears Hkept.
  generalize (post (reconcile env cs w)). intros w1 Hsm Hd Happears Hkept.
  unfold try_result. cbv zeta.
  rewrite (is_main_same_main _ _ Hsm),
    (unit_number_same_identity _ _ (proj1 Hsm)), Hd, access_denied_bootstrap.
  destruct (access_denied w); [done|].
  rewrite (pebble_answer cs (container w1) (container (bootstrap w))).
  destruct (pebble_reconcile env cs (container (bootstrap w)) _ _).1; [|done].
  rewrite (pebble_key_file cs (container w1) (container (bootstrap w))).
  destruct Hsm as ((_ & _ & -> & _) & _).
  rewrite stored_key_bootstrap, container_bootstrap, unit_number_bootstrap.
  destruct (truthy_key (stored_key w)) eqn:Hk.
  - destruct (Hkept eq_refl) as (_ & -> & _). by rewrite Hk.
  - destruct (truthy_key (stored_key w1)) eqn:Hk1; [|done].
    destruct (Happears eq_refl eq_refl) as (-> & Hfile).
    cbn [andb negb]. by rewrite bool_decide_eq_false_2.
Qed.

(** What a second [reconcile] returns, reports and applies is what the
    first did. *)
Lemma reconcile_summary_stable cs w :
  reconcile_summary env cs (post (reconcile env cs w))
  = reconcile_summary env cs w.
Proof.
  pose proof (reconcile_same_main cs w _ _ _ (runs_intro _ _)) as Hsm.
  pose proof (access_denied_reconcile cs w) as Hd.
  pose proof (reconcile_can_connect cs w) as Hcc.
  pose proof (try_result_stable cs w) as Htry.
  revert Hsm Hd Hcc Htry.
  generalize (post (reconcile env cs w)). intros w1 Hsm Hd Hcc Htry.
  unfold reconcile_summary. cbv zeta.
  rewrite (bootstrap_settled _ _ Hsm).
  rewrite (is_main_same_main _ _ Hsm),
    (unit_number_same_identity _ _ (proj1 Hsm)),
    (main_address_same_main _ _ Hsm), Hd, access_denied_bootstrap, Hcc,
    container_bootstrap, unit_number_bootstrap.
  destruct (can_connect (container w)) eqn:Hc; [|done]. cbn [negb].
  rewrite (Htry eq_refl).
  destruct (try_result env cs (bootstrap w)); [|done].
  rewrite (nginx_answer
             (pebble_reconcile env cs (container w1) (is_main (bootstrap w))
                (unit_number w)).2
             (pebble_reconcile env cs (container w) (is_main (bootstrap w))
                (unit_number w)).2).
  destruct (restart_nginx env _ (get_main_unit_address (bootstrap w))).1;
    [|done].
  f_equal. f_equal. apply health_status_same.
  - by rewrite !nginx_can_connect, !pebble_can_connect, Hcc.
  - apply nginx_services, pebble_services.
Qed.

End SteadyWorkload.


(** *** The other event handlers *)

Section HandlerFacts.
Context (api : Services CharmState).

Lemma on_synapse_pebble_ready_run cs w :
  _on_synapse_pebble_ready env api cs w
  = if redis_config_is_none api cs && (peer_units_total w >? 1)
    then mkOutcome (Ret tt)
           (with_status (BlockedStatus "Redis integration is required.") w) []
    else reconcile env cs w.
Proof.
  apply runs_elim. intros r w' t H. unfold _on_synapse_pebble_ready in H.
  run_inv_with handler_op H.
  all: try done.
  all: match goal with
       | H : runs (reconcile _ _) _ _ _ _ |- _ =>
           unfold runs in H; rewrite reconcile_with_status in H;
           by rewrite H
       end.
Qed.

(** X20: [_on_synapse_pebble_ready] blocks the unit, and does nothing
    else, when the charm state has no Redis configuration and more than
    one unit is planned.  Otherwise it is a [reconcile]: the [Active]
    status it sets first is overwritten before anything reads it, so the
    handler leaves the unit [Active] only when the workload is up. *)
Theorem pebble_ready_active_only_if_healthy cs w :
  (redis_config_is_none api cs && (peer_units_total w >? 1) = true →
   res (_on_synapse_pebble_ready env api cs w) = Ret tt
   ∧ trace (_on_synapse_pebble_ready env api cs w) = []
   ∧ post (_on_synapse_pebble_ready env api cs w)
     = with_status (BlockedStatus "Redis integration is required.") w)
  ∧ (redis_config_is_none api cs && (peer_units_total w >? 1) = false →
     _on_synapse_pebble_ready env api cs w = reconcile env cs w)
  ∧ (∀ msg,
       status (post (_on_synapse_pebble_ready env api cs w))
       = ActiveStatus msg →
       healthy env (container (post (_on_synapse_pebble_ready env api cs w)))).
Proof.
  rewrite on_synapse_pebble_ready_run.
  destruct (redis_config_is_none api cs && (peer_units_total w >? 1)).
  - by repeat split.
  - split; [done|]. split; [done|]. intros msg Hs.
    by apply reconcile_active_healthy in Hs.
Qed.

(** X18: when the charm state has no Redis configuration and more than
    one unit is planned, [_on_config_changed] only sets the status to
    [Blocked]: it makes no call and changes nothing else.  The handler of
    the next peer [relation-changed] event makes no such test: it runs
    the very [reconcile] that would have run without the block, and the
    status that [reconcile] leaves replaces [Blocked]. *)
Theorem redis_block_not_sticky cs w :
  redis_config_is_none api cs = true →
  peer_units_total w > 1 →
  hook_res (_on_config_changed env api cs w) = Ret tt
  ∧ hook_trace (_on_config_changed env api cs w) = []
  ∧ hook_post (_on_config_changed env api cs w)
    = with_status (BlockedStatus "Redis integration is required.") w
  ∧ _on_relation_changed env cs (hook_post (_on_config_changed env api cs w))
    = reconcile env cs w.
Proof.
  intros Hredis Hunits. unfold _on_config_changed, _on_relation_changed.
  rewrite Hredis. replace (peer_units_total w >? 1) with true
    by (symmetry; apply Z.gtb_lt; lia).
  cbn [andb hook_res hook_post hook_trace].
  repeat split. apply reconcile_with_status.
Qed.

Lemma workload_versions_charm t :
  workload_versions (map HCharm t) = [].
Proof. induction t as [|e t IH]; [done|exact IH]. Qed.

Lemma charm_calls_charm t : charm_calls (map HCharm t) = t.
Proof.
  induction t as [|e t IH]; [done|].
  change (charm_calls (map HCharm (e :: t)))
    with (e :: charm_calls (map HCharm t)).
  by rewrite IH.
Qed.

Lemma workload_versions_app (t1 t2 : list (HookEffect CharmState)) :
  workload_versions (t1 ++ t2) = workload_versions t1 ++ workload_versions t2.
Proof. apply omap_app. Qed.

Lemma charm_calls_app (t1 t2 : list (HookEffect CharmState)) :
  charm_calls (t1 ++ t2) = charm_calls t1 ++ charm_calls t2.
Proof. apply omap_app. Qed.

(** X19: [_on_config_changed] reports a workload version at most once,
    and only when no Redis block applied, [reconcile] returned normally,
    Pebble is reachable afterwards and [synapse.get_version], asked at the
    main unit address, answered with that version.  Apart from the
    version, the calls it makes are those of [reconcile].  An [APIError]
    of [synapse.get_version] is swallowed: the handler returns normally
    with the model [reconcile] left and reports no version. *)
Theorem config_changed_workload_version cs w :
  (∀ v, v ∈ workload_versions (hook_trace (_on_config_changed env api cs w)) →
     workload_versions (hook_trace (_on_config_changed env api cs w)) = [v]
     ∧ redis_config_is_none api cs && (peer_units_total w >? 1) = false
     ∧ hook_res (_on_config_changed env api cs w) = Ret tt
     ∧ res (reconcile env cs w) = Ret tt
     ∧ hook_post (_on_config_changed env api cs w)
       = post (reconcile env cs w)
     ∧ can_connect (container (post (reconcile env cs w))) = true
     ∧ get_version api (get_main_unit_address (post (reconcile env cs w)))
       = ApiRet v)
  ∧ (redis_config_is_none api cs && (peer_units_total w >? 1) = false →
     charm_calls (hook_trace (_on_config_changed env api cs w))
     = trace (reconcile env cs w))
  ∧ (∀ msg,
       redis_config_is_none api cs && (peer_units_total w >? 1) = false →
       res (reconcile env cs w) = Ret tt →
       can_connect (container (post (reconcile env cs w))) = true →
       get_version api (get_main_unit_address (post (reconcile env cs w)))
       = ApiError msg →
       hook_res (_on_config_changed env api cs w) = Ret tt
       ∧ hook_post (_on_config_changed env api cs w)
         = post (reconcile env cs w)
       ∧ workload_versions (hook_trace (_on_config_changed env api cs w))
         = []).
Proof.
  unfold _on_config_changed, _set_workload_version.
  destruct (redis_config_is_none api cs && (peer_units_total w >? 1)).
  { split; [|split]; [|done..]. intros v Hv. by apply elem_of_nil in Hv. }
  destruct (res (reconcile env cs w)) as [[]|e] eqn:Hres.
  - destruct (can_connect (container (post (reconcile env cs w)))) eqn:Hc;
      cbn [negb].
    + destruct (get_version api _) as [v0|msg0|e0] eqn:Hv;
        cbn [hook_res hook_post hook_trace];
        rewrite workload_versions_app, charm_calls_app,
          workload_versions_charm, charm_calls_charm;
        cbn; rewrite ?app_nil_r.
      * split; [|split; [done|]]; [|done].
        intros v ->%list_elem_of_singleton. by repeat split.
      * split; [|split; [done|]]; [|by intros msg _ _ _ _].
        intros v Hin. by apply elem_of_nil in Hin.
      * split; [|split; [done|]]; [|done].
        intros v Hin. by apply elem_of_nil in Hin.
    + cbn [hook_res hook_post hook_trace].
      rewrite app_nil_r, workload_versions_charm, charm_calls_charm.
      split; [|split; [done|]]; [|done].
      intros v Hin. by apply elem_of_nil in Hin.
  - cbn [hook_res hook_post hook_trace].
    rewrite workload_versions_charm, charm_calls_charm.
    split; [|split; [done|]]; [|done].
    intros v Hin. by apply elem_of_nil in Hin.
Qed.

(** *** Actions *)

(** X21: the [register-user] action ends in exactly one of three ways.
    An exception other than [RegisterUserError] leaves the handler with
    the event untouched.  Or the event fails and no result is set: with
    ["Failed to connect to the container"] and no call to
    [actions.register_user] when Pebble is unreachable, with the message
    of the [RegisterUserError] otherwise.  Or the results are set and the
    event does not fail: they are [register-user: True] and the password
    that [actions.register_user] returned.  On a reachable workload
    [actions.register_user] is called exactly once, with the user name and
    the admin flag of the event. *)
Theorem register_user_action_outcome w username admin :
  ((∃ e, action_res (_on_register_user_action api w
                       (fresh_event username admin)) = Raise e
         ∧ action_event (_on_register_user_action api w
                           (fresh_event username admin))
           = fresh_event username admin)
   ∨ (action_res (_on_register_user_action api w
                    (fresh_event username admin)) = Ret tt
      ∧ results (action_event (_on_register_user_action api w
                                 (fresh_event username admin))) = None
      ∧ ((can_connect (container w) = false
          ∧ failure (action_event (_on_register_user_action api w
                                     (fresh_event username admin)))
            = Some "Failed to connect to the container")
         ∨ (∃ msg,
              register_user api (container w) username admin = ApiError msg
              ∧ failure (action_event (_on_register_user_action api w
                                         (fresh_event username admin)))
                = Some msg)))
   ∨ (action_res (_on_register_user_action api w
                    (fresh_event username admin)) = Ret tt
      ∧ failure (action_event (_on_register_user_action api w
                                 (fresh_event username admin))) = None
      ∧ ∃ password,
          register_user api (container w) username admin = ApiRet password
          ∧ results (action_event (_on_register_user_action api w
                                     (fresh_event username admin)))
            = Some [("register-user", VBool true);
                    ("user-password", VStr password)]))
  ∧ action_calls (_on_register_user_action api w (fresh_event username admin))
    = if can_connect (container w) then [CRegisterUser username admin]
      else [].
Proof.
  unfold _on_register_user_action. cbv zeta.
  cbn [param_username param_admin fresh_event].
  destruct (can_connect (container w)); cbn [negb].
  - destruct (register_user api (container w) username admin)
      as [password|msg|e] eqn:Hreg; cbn; (split; [|done]).
    + right. right. repeat split. by exists password.
    + right. left. repeat split. right. by exists msg.
    + left. by exists e.
  - cbn. split; [|done]. right. left. repeat split. by left.
Qed.

(** X22: the [promote-user-admin] action calls
    [synapse.promote_user_admin] at most once, and only on a reachable
    workload and with the non-empty access token the token service gave;
    the user it promotes has the name given in the event and [admin]
    set, on the server of the charm state.  The results are set exactly
    when that call succeeded: when they are set the call was made and
    succeeded, they are [promote-user-admin: True] and the event does not
    fail (the value [False] the handler starts from is never reported);
    and whenever the workload is reachable, the token service gave a
    non-empty token and the call with it succeeds, the results are set.
    When the results are not set, either the event failed or an exception
    left the handler. *)
Theorem promote_user_admin_action_outcome cs w username admin :
  (List.filter is_api_call
     (action_calls (_on_promote_user_admin_action env api cs w
                      (fresh_event username admin))) = []
   ∨ ∃ token,
       can_connect (container w) = true
       ∧ token_service_get api (container w) = ApiRet (Some token)
       ∧ PyStr.truthy token = true
       ∧ action_calls (_on_promote_user_admin_action env api cs w
                         (fresh_event username admin))
         = [CGetToken;
            CPromoteUserAdmin username true (server_name env cs) token])
  ∧ (∀ r, results (action_event (_on_promote_user_admin_action env api cs w
                                   (fresh_event username admin))) = Some r →
       r = [("promote-user-admin", VBool true)]
       ∧ failure (action_event (_on_promote_user_admin_action env api cs w
                                  (fresh_event username admin))) = None
       ∧ action_res (_on_promote_user_admin_action env api cs w
                       (fresh_event username admin)) = Ret tt
       ∧ ∃ token,
           can_connect (container w) = true
           ∧ token_service_get api (container w) = ApiRet (Some token)
           ∧ PyStr.truthy token = true
           ∧ promote_user_admin api username true (server_name env cs) token
             = ApiRet tt)
  ∧ (results (action_event (_on_promote_user_admin_action env api cs w
                              (fresh_event username admin))) = None →
     (∃ msg, failure (action_event (_on_promote_user_admin_action env api cs w
                                      (fresh_event username admin)))
             = Some msg
             ∧ action_res (_on_promote_user_admin_action env api cs w
                             (fresh_event username admin)) = Ret tt)
     ∨ (∃ e, action_res (_on_promote_user_admin_action env api cs w
                           (fresh_event username admin)) = Raise e
             ∧ action_event (_on_promote_user_admin_action env api cs w
                               (fresh_event username admin))
               = fresh_event username admin))
  ∧ (∀ token,
       can_connect (container w) = true →
       token_service_get api (container w) = ApiRet (Some token) →
       PyStr.truthy token = true →
       promote_user_admin api username true (server_name env cs) token
       = ApiRet tt →
       results (action_event (_on_promote_user_admin_action env api cs w
                                (fresh_event username admin)))
       = Some [("promote-user-admin", VBool true)]
       ∧ failure (action_event (_on_promote_user_admin_action env api cs w
                                  (fresh_event username admin))) = None
       ∧ action_res (_on_promote_user_admin_action env api cs w
                       (fresh_event username admin)) = Ret tt).
Proof.
  unfold _on_promote_user_admin_action. cbv zeta.
  cbn [param_username param_admin fresh_event].
  destruct (can_connect (container w)); cbn [negb];
    [|cbn; split; [by left|]; split; [done|];
      split; [intros _; left; by eexists|by intros token [=]]].
  destruct (token_service_get api (container w)) as [[token|]|msg|e] eqn:Htok;
    cbn [truthy_key negb].
  - destruct (PyStr.truthy token) eqn:Ht; cbn [negb].
    + cbn [default from_option id].
      destruct (promote_user_admin api username true (server_name env cs)
                  token) as [[]|msg|e] eqn:Hcall; cbn.
      * split; [right; by exists token|]. split; [|by split].
        intros r [= <-]. repeat split. by exists token.
      * split; [right; by exists token|]. split; [done|].
        split; [intros _; left; by eexists|].
        intros token' _ [= <-]. congruence.
      * split; [right; by exists token|]. split; [done|].
        split; [intros _; right; by eexists|].
        intros token' _ [= <-]. congruence.
    + cbn. split; [by left|]. split; [done|].
      split; [intros _; left; by eexists|].
      intros token' _ [= <-]. congruence.
  - cbn. split; [by left|]. split; [done|].
    split; [intros _; left; by eexists|]. by intros token' _ [=].
  - cbn. split; [by left|]. split; [done|].
    split; [intros _; left; by eexists|]. by intros token' _ [=].
  - cbn. split; [by left|]. split; [done|].
    split; [intros _; right; by eexists|]. by intros token' _ [=].
Qed.

(** X23: the [anonymize-user] action calls [synapse.deactivate_user] at
    most once, and only on a reachable workload and with the non-empty
    access token the token service gave, for the user named in the event
    with [admin] unset.  The results are set exactly when that call
    succeeded: when they are set the call was made and succeeded, they
    are [anonymize-user: True] and the event does not fail; and whenever
    the workload is reachable, the token service gave a non-empty token
    and the call with it succeeds, the results are set.  When the event
    fails, its message is one of three fixed texts: the message of an
    [APIError] is not passed on. *)
Theorem anonymize_user_action_outcome cs w username admin :
  (List.filter is_api_call
     (action_calls (_on_anonymize_user_action env api cs w
                      (fresh_event username admin))) = []
   ∨ ∃ token,
       can_connect (container w) = true
       ∧ token_service_get api (container w) = ApiRet (Some token)
       ∧ PyStr.truthy token = true
       ∧ action_calls (_on_anonymize_user_action env api cs w
                         (fresh_event username admin))
         = [CGetToken;
            CDeactivateUser username false (server_name env cs) token])
  ∧ (∀ r, results (action_event (_on_anonymize_user_action env api cs w
                                   (fresh_event username admin))) = Some r →
       r = [("anonymize-user", VBool true)]
       ∧ failure (action_event (_on_anonymize_user_action env api cs w
                                  (fresh_event username admin))) = None
       ∧ action_res (_on_anonymize_user_action env api cs w
                       (fresh_event username admin)) = Ret tt
       ∧ ∃ token,
           can_connect (container w) = true
           ∧ token_service_get api (container w) = ApiRet (Some token)
           ∧ PyStr.truthy token = true
           ∧ deactivate_user api username false (server_name env cs) token
             = ApiRet tt)
  ∧ (∀ msg, failure (action_event (_on_anonymize_user_action env api cs w
                                     (fresh_event username admin)))
            = Some msg →
       results (action_event (_on_anonymize_user_action env api cs w
                                (fresh_event username admin))) = None
       ∧ action_res (_on_anonymize_user_action env api cs w
                       (fresh_event username admin)) = Ret tt
       ∧ (msg = "Container not yet ready. Try again later"
          ∨ msg = "Failed to get admin access token"
          ∨ msg = "Failed to anonymize the user. Check if the user is created and active."))
  ∧ (∀ token,
       can_connect (container w) = true →
       token_service_get api (container w) = ApiRet (Some token) →
       PyStr.truthy token = true →
       deactivate_user api username false (server_name env cs) token
       = ApiRet tt →
       results (action_event (_on_anonymize_user_action env api cs w
                                (fresh_event username admin)))
       = Some [("anonymize-user", VBool true)]
       ∧ failure (action_event (_on_anonymize_user_action env api cs w
                                  (fresh_event username admin))) = None
       ∧ action_res (_on_anonymize_user_action env api cs w
                       (fresh_event username admin)) = Ret tt).
Proof.
  unfold _on_anonymize_user_action. cbv zeta.
  cbn [param_username param_admin fresh_event].
  destruct (can_connect (container w)); cbn [negb];
    [|cbn; split; [by left|]; split; [done|];
      split; [intros msg [= <-]; repeat split; by left|by intros token [=]]].
  destruct (token_service_get api (container w)) as [[token|]|msg|e] eqn:Htok;
    cbn [truthy_key negb].
  - destruct (PyStr.truthy token) eqn:Ht; cbn [negb].
    + cbn [default from_option id].
      destruct (deactivate_user api username false (server_name env cs)
                  token) as [[]|msg|e] eqn:Hcall; cbn.
      * split; [right; by exists token|]. split; [|by split].
        intros r [= <-]. repeat split. by exists token.
      * split; [right; by exists token|]. split; [done|].
        split; [intros m [= <-]; repeat split; right; by right|].
        intros token' _ [= <-]. congruence.
      * split; [right; by exists token|]. split; [done|].
        split; [done|]. intros token' _ [= <-]. congruence.
    + cbn. split; [by left|]. split; [done|].
      split; [intros m [= <-]; repeat split; right; by left|].
      intros token' _ [= <-]. congruence.
  - cbn. split; [by left|]. split; [done|].
    split; [intros m [= <-]; repeat split; right; by left|].
    by intros token' _ [=].
  - cbn. split; [by left|]. split; [done|].
    split; [intros m [= <-]; repeat split; right; by right|].
    by intros token' _ [=].
  - cbn. split; [by left|]. split; [done|].
    split; [done|]. by intros token' _ [=].
Qed.

End HandlerFacts.

(** *** Every hook event on a unit that is not leader *)

Section EventFacts.
Context (api : Services CharmState).

Lemma reconcile_non_leader_frame cs w :
  is_leader w = false →
  same_main w (post (reconcile env cs w))
  ∧ no_publication w (post (reconcile env cs w)).
Proof.
  intros Hl. split.
  - rewrite <- (bootstrap_non_leader w Hl) at 1.
    apply (reconcile_same_main cs w _ _ _ (runs_intro _ _)).
  - by destruct (reconcile_non_leader cs w _ _ _ Hl (runs_intro _ _)).
Qed.

Lemma on_relation_departed_non_leader d cs w :
  is_leader w = false →
  post (_on_relation_departed env d cs w) = w
  ∨ post (_on_relation_departed env d cs w) = post (reconcile env cs w).
Proof.
  intros Hl.
  assert (Hgen : ∀ r w' t,
            runs (_on_relation_departed env d cs) w r w' t →
            w' = w ∨ w' = post (reconcile env cs w)).
  { intros r w' t H. unfold _on_relation_departed in H.
    destruct d as [d|]; run_inv_with handler_op H.
    all: try (by left).
    all: try (rewrite Hl, andb_false_r in *; discriminate).
    all: right.
    all: match goal with
         | H : runs (reconcile _ _) _ _ _ _ |- _ => by apply runs_post in H
         end. }
  apply (Hgen _ _ _ (runs_intro _ _)).
Qed.

Lemma handle_non_leader event cs w :
  is_leader w = false →
  same_main w (handle env api event cs w)
  ∧ no_publication w (handle env api event cs w).
Proof.
  intros Hl. destruct (reconcile_non_leader_frame cs w Hl) as [Hsm Hnp].
  destruct event as [| |d| |]; cbn [handle].
  - unfold _on_config_changed, _set_workload_version.
    destruct (redis_config_is_none api cs && (peer_units_total w >? 1)).
    { split; [apply same_main_with_status|apply no_publication_with_status]. }
    destruct (res (reconcile env cs w)); cbn [hook_post]; [|by split].
    destruct (negb (can_connect (container (post (reconcile env cs w))))).
    + cbn [hook_post]. split.
      * eapply same_main_trans; [exact Hsm|apply same_main_with_status].
      * eapply no_publication_trans;
          [exact Hnp|apply no_publication_with_status].
    + by destruct (get_version api _).
  - unfold _on_leader_elected, bind, gets. cbn [res post trace].
    rewrite Hl. cbn. split; [apply same_main_refl|apply no_publication_refl].
  - destruct (on_relation_departed_non_leader d cs w Hl) as [-> | ->].
    + split; [apply same_main_refl|apply no_publication_refl].
    + by split.
  - by split.
  - rewrite on_synapse_pebble_ready_run.
    destruct (redis_config_is_none api cs && (peer_units_total w >? 1)).
    + split; [apply same_main_with_status|apply no_publication_with_status].
    + by split.
Qed.

(** X25: a unit that does not hold leadership publishes nothing, whatever
    hook events it handles and in whatever order: after any run of
    [config-changed], [leader-elected], peer [relation-departed], peer
    [relation-changed] and [synapse-pebble-ready] events the secrets are
    as before, the peer data has no new entry (at most a reference to a
    missing secret was dropped), the recorded main unit is the same, and
    the name of the unit, of the application, the leadership and the
    planned units are unchanged. *)
Theorem non_leader_never_publishes
    (events : list (HookEvent * CharmState)) w :
  is_leader w = false →
  secrets (handle_all env api events w) = secrets w
  ∧ peer_app_data (handle_all env api events w) ⊆ peer_app_data w
  ∧ get_main_unit (handle_all env api events w) = get_main_unit w
  ∧ unit_name (handle_all env api events w) = unit_name w
  ∧ app_name (handle_all env api events w) = app_name w
  ∧ is_leader (handle_all env api events w) = false
  ∧ planned_units (handle_all env api events w) = planned_units w.
Proof.
  intros Hl.
  assert (H : same_main w (handle_all env api events w)
              ∧ no_publication w (handle_all env api events w)).
  { revert w Hl. induction events as [|[event cs] rest IH]; intros w Hl.
    - split; [apply same_main_refl|apply no_publication_refl].
    - cbn [handle_all].
      destruct (handle_non_leader event cs w Hl) as [Hsm Hnp].
      destruct (IH (handle env api event cs w)) as [Hsm' Hnp'].
      { destruct Hnp as (-> & _). exact Hl. }
      split.
      + eapply same_main_trans; [exact Hsm|exact Hsm'].
      + eapply no_publication_trans; [exact Hnp|exact Hnp']. }
  destruct H as [((Hn & Ha & Hl' & Hp) & Hm & _) (_ & Hs & Hd)].
  repeat split; try done. by rewrite Hl'.
Qed.

End EventFacts.

(** *** Who becomes main unit *)

Section MainUnitFacts.
Context (api : Services CharmState).

Lemma reconcile_main_cases cs w :
  get_main_unit (post (reconcile env cs w)) = get_main_unit w
  ∨ (is_leader w = true ∧ peer_relations w ≠ []
     ∧ get_main_unit (post (reconcile env cs w)) = Some (unit_name w)).
Proof.
  rewrite reconcile_main. destruct (get_main_unit w) as [m|]; [by left|].
  destruct (is_leader w); [|by left]. cbn [andb].
  case_bool_decide as Hrel; [|by left]. by right.
Qed.

Lemma set_main_then_reconcile_cases cs w :
  is_leader w = true →
  get_main_unit
    (post (reconcile env cs
             (with_peer_app_data (<[MAIN_UNIT_ID := unit_name w]>) w)))
  = get_main_unit w
  ∨ (is_leader w = true ∧ peer_relations w ≠ []
     ∧ get_main_unit
         (post (reconcile env cs
                  (with_peer_app_data (<[MAIN_UNIT_ID := unit_name w]>) w)))
       = Some (unit_name w)).
Proof.
  intros Hl. destruct (decide (peer_relations w = [])) as [Hrel|Hrel].
  - rewrite with_peer_app_data_nil by done. apply reconcile_main_cases.
  - right. split; [done|]. split; [done|].
    rewrite reconcile_main. by rewrite get_main_unit_set_some.
Qed.

Lemma on_relation_departed_cases d cs w :
  post (_on_relation_departed env d cs w) = w
  ∨ post (_on_relation_departed env d cs w) = post (reconcile env cs w)
  ∨ (is_leader w = true
     ∧ post (_on_relation_departed env d cs w)
       = post (reconcile env cs
                 (with_peer_app_data (<[MAIN_UNIT_ID := unit_name w]>) w))).
Proof.
  assert (Hgen : ∀ r w' t,
            runs (_on_relation_departed env d cs) w r w' t →
            w' = w ∨ w' = post (reconcile env cs w)
            ∨ (is_leader w = true
               ∧ w' = post (reconcile env cs
                              (with_peer_app_data
                                 (<[MAIN_UNIT_ID := unit_name w]>) w)))).
  { intros r w' t H. unfold _on_relation_departed in H.
    destruct d as [d|]; run_inv_with handler_op H.
    all: try (by left).
    all: try discriminate.
    all: right.
    all: match goal with
         | H : runs (reconcile _ _) (with_peer_app_data _ _) _ _ _ |- _ =>
             right; apply runs_post in H; split; [|exact H]
         | H : runs (reconcile _ _) _ _ _ _ |- _ =>
             left; by apply runs_post in H
         end.
    all: match goal with
         | H : _ && ?b = true |- ?b = true => by apply andb_prop in H as [_ ?]
         end. }
  apply (Hgen _ _ _ (runs_intro _ _)).
Qed.

(** X26: whatever hook event is handled, the recorded main unit either
    stays as it was or becomes the handling unit itself, and the latter
    only on a unit that holds leadership and has a peer relation: no
    handler ever records another unit as main, and no unit without
    leadership changes the record. *)
Theorem main_unit_changes_to_self (event : HookEvent) cs w :
  get_main_unit (handle env api event cs w) = get_main_unit w
  ∨ (is_leader w = true ∧ peer_relations w ≠ []
     ∧ get_main_unit (handle env api event cs w) = Some (unit_name w)).
Proof.
  destruct event as [| |d| |]; cbn [handle].
  - unfold _on_config_changed, _set_workload_version.
    destruct (redis_config_is_none api cs && (peer_units_total w >? 1));
      [by left|].
    destruct (res (reconcile env cs w)); cbn [hook_post];
      [|apply reconcile_main_cases].
    destruct (negb (can_connect (container (post (reconcile env cs w)))));
      [cbn [hook_post]; apply reconcile_main_cases|].
    destruct (get_version api _); apply reconcile_main_cases.
  - destruct (is_leader w) eqn:Hl.
    + rewrite on_leader_elected_post by done.
      destruct (set_main_then_reconcile_cases cs w Hl) as [?|(_ & ? & ?)];
        [by left|by right].
    + left. unfold _on_leader_elected, bind, gets. cbn [res post trace].
      by rewrite Hl.
  - destruct (on_relation_departed_cases d cs w) as [-> | [-> | (Hl & ->)]].
    + by left.
    + apply reconcile_main_cases.
    + by apply set_main_then_reconcile_cases.
  - apply reconcile_main_cases.
  - rewrite on_synapse_pebble_ready_run.
    destruct (redis_config_is_none api cs && (peer_units_total w >? 1));
      [by left|].
    apply reconcile_main_cases.
Qed.

End MainUnitFacts.

(** *** The instance map across a reconcile *)

Lemma same_peers_refl w : same_peers w w.
Proof. done. Qed.

Lemma same_peers_trans w1 w2 w3 :
  same_peers w1 w2 → same_peers w2 w3 → same_peers w1 w3.
Proof. unfold same_peers. congruence. Qed.

Lemma same_peers_with_status s w : same_peers w (with_status s w).
Proof. done. Qed.

Lemma same_peers_with_container c w : same_peers w (with_container c w).
Proof. done. Qed.

Lemma same_peers_with_secrets ss w : same_peers w (with_secrets ss w).
Proof. done. Qed.

Lemma same_peers_with_peer_app_data f w :
  same_peers w (with_peer_app_data f w).
Proof. unfold same_peers. cbn. by destruct (peer_relations w). Qed.

Lemma same_peers_clear_dangling w : same_peers w (clear_dangling w).
Proof.
  unfold clear_dangling. destruct (dangling_reference w).
  - apply same_peers_with_peer_app_data.
  - apply same_peers_refl.
Qed.

Lemma same_peers_publish_key key w : same_peers w (publish_key env key w).
Proof.
  unfold publish_key. eapply same_peers_trans; [apply same_peers_with_secrets|].
  apply same_peers_with_peer_app_data.
Qed.

Lemma same_peers_bootstrap w : same_peers w (bootstrap w).
Proof.
  unfold bootstrap.
  destruct (bool_decide (get_main_unit w = None) && is_leader w).
  - apply same_peers_with_peer_app_data.
  - apply same_peers_refl.
Qed.

Ltac same_peers_step :=
  first
    [ apply same_peers_with_status
    | apply same_peers_with_container
    | apply same_peers_with_secrets
    | apply same_peers_clear_dangling
    | apply same_peers_publish_key ].

Ltac same_peers_tac :=
  frame_with same_peers_refl same_peers_trans same_peers_step.

Lemma try_outcome_same_peers cs w :
  same_peers w (post (reconcile_try_outcome env cs w)).
Proof. try_cases; same_peers_tac. Qed.

Lemma reconcile_same_peers cs w :
  same_peers w (post (reconcile env cs w)).
Proof.
  pose proof (runs_intro (reconcile env cs) w) as H.
  revert H. generalize (res (reconcile env cs w)).
  generalize (trace (reconcile env cs w)).
  generalize (post (reconcile env cs w)). intros w' t r H.
  eapply same_peers_trans; [apply same_peers_bootstrap|].
  destruct (reconcile_cases cs w _ _ _ H)
    as [(_ & _ & -> & _)|(_ & r1 & w1 & t1 & Htry & Hcases)];
    [apply same_peers_with_status|].
  apply reconcile_try_runs in Htry.
  pose proof (try_outcome_same_peers cs
                (with_status (MaintenanceStatus "Configuring Synapse")
                   (bootstrap w))) as Hsp.
  rewrite Htry in Hsp. cbn [post] in Hsp.
  eapply same_peers_trans; [apply (same_peers_with_status
                                     (MaintenanceStatus "Configuring Synapse"))|].
  eapply same_peers_trans; [exact Hsp|].
  destruct Hcases
    as [(_ & t2 & Hfin & _)
       |[(e & m & _ & _ & _ & -> & _)|(e & _ & _ & _ & -> & _)]].
  - unfold runs in Hfin. rewrite reconcile_finish_run in Hfin.
    cbv zeta in Hfin.
    destruct (restart_nginx env (container w1) (get_main_unit_address w1)).1;
      injection Hfin as _ <- _; [|apply same_peers_with_container].
    destruct (is_blocked (status w1)); [apply same_peers_with_container|].
    eapply same_peers_trans; [apply same_peers_with_container|].
    apply same_peers_with_status.
  - apply same_peers_with_status.
  - apply same_peers_refl.
Qed.

Lemma addresses_same w w' :
  same_identity w w' → same_peers w w' → addresses w' = addresses w.
Proof.
  intros (Hn & Ha & _) Hp. unfold addresses, same_peers in *.
  rewrite Hn, Ha.
  destruct (peer_relations w), (peer_relations w'); try done.
  cbn [map] in Hp. injection Hp as -> _. done.
Qed.

Lemma main_address_bootstrap w :
  get_main_unit_address (bootstrap w) = get_main_unit_address w.
Proof.
  unfold get_main_unit_address. rewrite get_main_unit_bootstrap.
  destruct (same_identity_bootstrap w) as (-> & -> & _).
  destruct (get_main_unit w); [done|].
  by destruct (is_leader w && bool_decide (peer_relations w ≠ [])).
Qed.

(** X27: [reconcile] never changes what [instance_map] returns, nor the
    main unit address and the address list it is built from: a leader
    that records itself as main unit leaves the main address as it was,
    since without a record that address is already the unit's own. *)
Theorem reconcile_keeps_instance_map cs w :
  instance_map (post (reconcile env cs w)) = instance_map w
  ∧ get_main_unit_address (post (reconcile env cs w))
    = get_main_unit_address w
  ∧ addresses (post (reconcile env cs w)) = addresses w.
Proof.
  pose proof (reconcile_same_main cs w _ _ _ (runs_intro _ _)) as Hsm.
  pose proof (reconcile_same_identity cs w) as Hid.
  pose proof (reconcile_same_peers cs w) as Hsp.
  assert (Hmain : get_main_unit_address (post (reconcile env cs w))
                  = get_main_unit_address w).
  { rewrite (main_address_same_main _ _ Hsm). apply main_address_bootstrap. }
  assert (Haddr : addresses (post (reconcile env cs w)) = addresses w)
    by (by apply addresses_same).
  split; [|by split].
  unfold instance_map, peer_units_total. rewrite Hmain, Haddr.
  by destruct Hid as (_ & _ & _ & ->).
Qed.

End CharmFacts.

(** ** The properties on the scenarios *)

Section Scenarios.
Import Scenario.

(** [instance_map_shape] on the example of the specification. *)
Lemma instance_map_shape_witness :
  peer_units_total three_units ≠ 1
  ∧ ∃ imap,
      instance_map three_units = Ret (Some imap)
      ∧ imap = [ ("main", mkEndpoint "unit-0.app-endpoints" 8035);
                 ("federationsender1", mkEndpoint "unit-0.app-endpoints" 8034);
                 ("worker1", mkEndpoint "unit-1.app-endpoints" 8034);
                 ("worker2", mkEndpoint "unit-2.app-endpoints" 8034) ]
      ∧ length imap = 4%nat.
Proof.
  split; [by vm_compute|].
  destruct (proj2 (instance_map_shape three_units)) as (imap & H1 & H2 & H3).
  - by vm_compute.
  - compute_done.
  - compute_done.
  - reflexivity.
  - exists imap. split; [exact H1|]. split; [|exact H3].
    rewrite H2. reflexivity.
Defined.

(** C1 as stated fails: two units are planned and only this unit is in
    the address list; the map is neither empty, as for a group of one, nor
    of three entries, as for a group of two. *)
Lemma instance_map_joining_counterexample :
  peer_units_total second_unit_joining = 2
  ∧ addresses second_unit_joining = ["synapse-0.synapse-endpoints"]
  ∧ instance_map second_unit_joining
    = Ret (Some [ ("main", mkEndpoint "synapse-0.synapse-endpoints" 8035);
                  ("federationsender1",
                   mkEndpoint "synapse-0.synapse-endpoints" 8034) ])
  ∧ instance_map second_unit_joining ≠ Ret None
  ∧ ¬ ∃ imap, instance_map second_unit_joining = Ret (Some imap)
              ∧ length imap = 3%nat.
Proof.
  repeat split; try done.
  intros (imap & H & Hlen). vm_compute in H. injection H as <-. discriminate.
Qed.

(** With an application name that holds a hyphen followed by a digit the
    search reads the same number off every address: the workers of
    [syn-2go/1] and [syn-2go/2] share the name [worker2]. *)
Example instance_map_hyphen_digit_app :
  instance_map hyphen_digit_app
  = Ret (Some [ ("main", mkEndpoint "syn-2go-0.syn-2go-endpoints" 8035);
                ("federationsender1",
                 mkEndpoint "syn-2go-0.syn-2go-endpoints" 8034);
                ("worker2", mkEndpoint "syn-2go-2.syn-2go-endpoints" 8034) ]).
Proof. reflexivity. Qed.

Lemma get_unit_number_spec_witness :
  get_unit_number three_units "synapse/0" = Ret "0"
  ∧ get_unit_number three_units "synapse-12.synapse-endpoints" = Ret "12".
Proof.
  destruct (get_unit_number_spec three_units "synapse" "0" "")
    as (H1 & _); [reflexivity|reflexivity|by left|].
  destruct (get_unit_number_spec three_units "synapse" "12"
              ".synapse-endpoints")
    as (_ & H2 & _); [reflexivity|reflexivity|right; by eexists|].
  split; [exact H1|exact (H2 eq_refl)].
Defined.

(** C2 as stated fails: a name without digits gives no error. *)
Lemma get_unit_number_no_error_counterexample :
  PyStr.has_digit "synapse" = false
  ∧ get_unit_number three_units "synapse" = Ret "synapse"
  ∧ ¬ ∃ e, get_unit_number three_units "synapse" = Raise e.
Proof. repeat split; try done. by intros [e H]. Qed.

Lemma instance_map_malformed_address_witness :
  "broken.synapse-endpoints" ∈ addresses peer_without_number
  ∧ PyStr.re_search_hyphen_digits "broken.synapse-endpoints" = None
  ∧ instance_map peer_without_number = Raise AttributeError.
Proof.
  assert (Hin : "broken.synapse-endpoints" ∈ addresses peer_without_number).
  { compute_done. }
  split; [exact Hin|]. split; [reflexivity|].
  apply (instance_map_malformed_address peer_without_number
           "broken.synapse-endpoints").
  - by vm_compute.
  - exact Hin.
  - by vm_compute.
  - reflexivity.
Defined.

(** C3 as stated fails: the main address has no number, it is skipped and
    a map is returned. *)
Lemma instance_map_main_skipped_counterexample :
  "synapse.synapse-endpoints" ∈ addresses main_without_number
  ∧ PyStr.re_search_hyphen_digits "synapse.synapse-endpoints" = None
  ∧ instance_map main_without_number
    = Ret (Some [ ("main", mkEndpoint "synapse.synapse-endpoints" 8035);
                  ("federationsender1",
                   mkEndpoint "synapse.synapse-endpoints" 8034);
                  ("worker1", mkEndpoint "synapse-1.synapse-endpoints" 8034) ])
  ∧ ¬ ∃ e, instance_map main_without_number = Raise e.
Proof.
  repeat split; try done.
  - compute_done.
  - by intros [e H].
Qed.

Lemma relation_departed_main_witness :
  get_main_unit other_main = Some "synapse/1"
  ∧ is_leader other_main = true
  ∧ get_main_unit
      (post (_on_relation_departed env (Some "synapse/1") tt other_main))
    = Some "synapse/0".
Proof.
  split; [reflexivity|]. split; [reflexivity|].
  apply (proj1 (relation_departed_main env tt other_main "synapse/1"));
    reflexivity.
Defined.

(** C4 as stated fails: no main unit is recorded, so the departed unit is
    not the recorded main, and yet the handler, through [reconcile],
    records the observer. *)
Lemma relation_departed_bootstrap_counterexample :
  get_main_unit fresh_leader = None
  ∧ get_main_unit
      (post (_on_relation_departed env (Some "synapse/1") tt fresh_leader))
    = Some "synapse/0".
Proof. split; by vm_compute. Qed.

Lemma leader_elected_sets_main_witness :
  is_leader other_main = true
  ∧ get_main_unit other_main = Some "synapse/1"
  ∧ get_main_unit (post (_on_leader_elected env tt other_main))
    = Some "synapse/0"
  ∧ get_main_unit
      (post (_on_leader_elected env tt
               (post (_on_leader_elected env tt other_main))))
    = Some "synapse/0".
Proof.
  split; [reflexivity|]. split; [reflexivity|].
  apply (leader_elected_sets_main env tt other_main); [reflexivity|].
  by vm_compute.
Defined.

(** C5 as stated fails: without a peer relation nothing is recorded. *)
Lemma leader_elected_without_relation_counterexample :
  is_leader leader_without_relation = true
  ∧ get_main_unit (post (_on_leader_elected env tt leader_without_relation))
    = None.
Proof. split; by vm_compute. Qed.

Lemma signing_key_published_once_witness :
  stored_key key_published = Some "ed25519 a_key abc"
  ∧ created_secrets (trace (reconcile env tt key_published)) = []
  ∧ created_secrets
      (trace (reconcile env tt (post (reconcile env tt key_published)))) = []
  ∧ secrets (post (reconcile env tt (post (reconcile env tt key_published))))
    = secrets key_published.
Proof.
  destruct (signing_key_published_once env tt key_published
              "ed25519 a_key abc")
    as ((H1 & _ & H2 & H3 & _) & _); [by vm_compute|reflexivity|].
  split; [by vm_compute|]. split; [exact H1|]. split; [exact H2|exact H3].
Defined.

(** C6 as stated fails: the published reference resolves, to a secret
    whose signing key is empty, and [reconcile] on the main unit creates
    a second secret; so it does when the published reference does not
    resolve. *)
Lemma signing_key_second_secret_counterexample :
  referenced_secret empty_key_published = Some {[ SECRET_SIGNING_KEY := "" ]}
  ∧ created_secrets (trace (reconcile env tt empty_key_published))
    = [{[ SECRET_SIGNING_KEY := "ed25519 a_key abc" ]}]
  ∧ size (secrets (post (reconcile env tt empty_key_published))) = 2%nat
  ∧ peer_app_data dangling_key !! SECRET_SIGNING_ID = Some "secret:9"
  ∧ created_secrets (trace (reconcile env tt dangling_key))
    = [{[ SECRET_SIGNING_KEY := "ed25519 a_key abc" ]}].
Proof. repeat split; by vm_compute. Qed.

Lemma steady_workload_applying_env : steady_workload applying_env.
Proof.
  assert (Hkey : ∀ cs c main n,
            files (pebble_reconcile applying_env cs c main n).2
            !! signing_key_path applying_env cs ≠ None).
  { intros cs c main n. cbn.
    change (signing_key_path applying_env cs) with key_path.
    rewrite lookup_insert_ne by done.
    destruct (files c !! key_path) eqn:Hf.
    - by rewrite Hf.
    - by rewrite lookup_insert_eq. }
  repeat split; try done.
  - intros c c' address Hs. cbn. by rewrite Hs.
  - intros H. by apply Hkey in H.
  - intros H. by apply Hkey in H.
Qed.



(** [blocked_status_sticky]: [_set_unit_status] leaves a blocked unit
    blocked; a [reconcile] whose configuration step fails ends blocked,
    without a restart of NGINX. *)
Lemma blocked_status_sticky_witness :
  status blocked = BlockedStatus "Redis integration is required."
  ∧ post (_set_unit_status env blocked) = blocked
  ∧ status (post (reconcile failing_env tt fresh_leader))
    = BlockedStatus "Failed to restart Synapse"
  ∧ res (reconcile failing_env tt fresh_leader) = Ret tt
  ∧ nginx_restarts (trace (reconcile failing_env tt fresh_leader)) = [].
Proof.
  split; [reflexivity|].
  destruct (blocked_status_sticky env tt blocked
              "Redis integration is required.") as (H1 & _).
  destruct (H1 eq_refl) as (_ & H2).
  split; [exact H2|].
  assert (Hs : status (post (reconcile failing_env tt fresh_leader))
               = BlockedStatus "Failed to restart Synapse") by (by vm_compute).
  split; [exact Hs|].
  destruct (blocked_status_sticky failing_env tt fresh_leader
              "Failed to restart Synapse") as (_ & _ & H3 & _).
  exact (H3 Hs).
Defined.

(** C8 as stated fails: a blocked unit whose workload cannot be reached
    is left in [Maintenance] by a [reconcile] that configured nothing. *)
Lemma blocked_overwritten_counterexample :
  status blocked_unreachable = BlockedStatus "Redis integration is required."
  ∧ res (reconcile env tt blocked_unreachable) = Ret tt
  ∧ trace (reconcile env tt blocked_unreachable) = []
  ∧ status (post (reconcile env tt blocked_unreachable))
    = MaintenanceStatus "Waiting for Synapse pebble".
Proof. repeat split; by vm_compute. Qed.

Lemma get_main_unit_address_fallback_witness :
  peer_relations leader_without_relation = []
  ∧ get_main_unit_address leader_without_relation
    = "synapse-0.synapse-endpoints".
Proof.
  split; [reflexivity|].
  destruct (get_main_unit_address_fallback leader_without_relation)
    as (_ & H & _); [by left|].
  rewrite H. reflexivity.
Defined.

(** [set_signing_key_needs_leadership] on the main unit without
    leadership: with no key published the call returns; with a published
    reference that does not resolve it raises. *)
Lemma set_signing_key_needs_leadership_witness :
  is_leader main_not_leader = false
  ∧ res (set_signing_key env "ed25519 a_key abc" main_not_leader) = Ret tt
  ∧ created_secrets (trace (reconcile env tt main_not_leader)) = []
  ∧ is_leader dangling_non_leader = false
  ∧ dangling_reference dangling_non_leader = true
  ∧ res (set_signing_key env "ed25519 a_key abc" dangling_non_leader)
    = Raise RelationDataAccessError
  ∧ post (set_signing_key env "ed25519 a_key abc" dangling_non_leader)
    = dangling_non_leader
  ∧ res (reconcile env tt dangling_non_leader) = Raise RelationDataAccessError.
Proof.
  split; [reflexivity|].
  destruct (set_signing_key_needs_leadership env "ed25519 a_key abc" tt
              main_not_leader)
    as ((H1 & _) & (_ & H2 & _)); [reflexivity|].
  split; [exact H1|]. split; [exact H2|].
  split; [reflexivity|]. split; [by vm_compute|].
  destruct (set_signing_key_needs_leadership env "ed25519 a_key abc" tt
              dangling_non_leader)
    as ((H3 & H4 & _) & _); [reflexivity|].
  split; [exact H3|]. split; [exact H4|by vm_compute].
Defined.

(** [instance_map_entries] on an instance map in which two worker names
    collide. *)
Lemma instance_map_entries_witness :
  instance_map hyphen_digit_app
  = Ret (Some [ ("main", mkEndpoint "syn-2go-0.syn-2go-endpoints" 8035);
                ("federationsender1",
                 mkEndpoint "syn-2go-0.syn-2go-endpoints" 8034);
                ("worker2", mkEndpoint "syn-2go-2.syn-2go-endpoints" 8034) ])
  ∧ ∃ workers,
      [ ("main", mkEndpoint "syn-2go-0.syn-2go-endpoints" 8035);
        ("federationsender1", mkEndpoint "syn-2go-0.syn-2go-endpoints" 8034);
        ("worker2", mkEndpoint "syn-2go-2.syn-2go-endpoints" 8034) ]
      = ("main", mkEndpoint (get_main_unit_address hyphen_digit_app) 8035)
        :: ("federationsender1",
            mkEndpoint (get_main_unit_address hyphen_digit_app) 8034)
        :: workers
      ∧ (length workers ≤ length (non_main_addresses hyphen_digit_app))%nat.
Proof.
  split; [reflexivity|].
  destruct (instance_map_entries hyphen_digit_app _ eq_refl)
    as (workers & H1 & _ & H2 & _).
  exists workers. split; [exact H1|exact H2].
Defined.

Lemma instance_map_juju_units_witness :
  instance_map three_units
  = Ret (Some [ ("main", mkEndpoint "unit-0.app-endpoints" 8035);
                ("federationsender1", mkEndpoint "unit-0.app-endpoints" 8034);
                ("worker1", mkEndpoint "unit-1.app-endpoints" 8034);
                ("worker2", mkEndpoint "unit-2.app-endpoints" 8034) ]).
Proof.
  rewrite (instance_map_juju_units three_units "unit" "0" "0" ["1"; "2"]
             (mkRelation ["unit/1"; "unit/2"] {[ MAIN_UNIT_ID := "unit/0" ]})
             []).
  - reflexivity.
  - by vm_compute.
  - reflexivity.
  - reflexivity.
  - reflexivity.
  - reflexivity.
  - reflexivity.
  - repeat constructor.
  - compute_done.
Defined.

Lemma unit_number_agreement_witness :
  get_unit_number three_units "synapse/12" = Ret "12"
  ∧ get_unit_number three_units "synapse-12.synapse-endpoints" = Ret "12"
  ∧ PyStr.re_search_hyphen_digits "synapse-12.synapse-endpoints" = Some "12".
Proof.
  destruct (unit_number_agreement three_units "synapse" "12" "synapse")
    as (H1 & _ & H2 & H3); [reflexivity..|].
  split; [exact H1|]. split; [exact H2|exact H3].
Defined.

Lemma leader_elected_configures_main_witness :
  is_main other_main = false
  ∧ applied_configs (trace (_on_leader_elected env tt other_main))
    = [(tt, true, "0")].
Proof.
  split; [reflexivity|].
  destruct (leader_elected_configures_main env tt other_main) as [H _];
    [reflexivity|by vm_compute|reflexivity|].
  exact H.
Defined.

Lemma get_signing_key_dangling_witness :
  peer_app_data dangling_key !! SECRET_SIGNING_ID = Some "secret:9"
  ∧ res (get_signing_key (CharmState := unit) dangling_key) = Ret None
  ∧ peer_app_data (post (get_signing_key (CharmState := unit) dangling_key))
    = delete SECRET_SIGNING_ID (peer_app_data dangling_key)
  ∧ get_signing_key (CharmState := unit) dangling_non_leader
    = mkOutcome (Raise RelationDataAccessError) dangling_non_leader [].
Proof.
  assert (H : peer_app_data dangling_key !! SECRET_SIGNING_ID
              = Some "secret:9") by reflexivity.
  split; [exact H|].
  destruct (get_signing_key_dangling (CharmState := unit) dangling_key
              "secret:9" H)
    as (Hleader & _); [reflexivity|reflexivity|].
  destruct (Hleader eq_refl) as (H1 & _ & H2 & _).
  split; [exact H1|]. split; [exact H2|].
  destruct (get_signing_key_dangling (CharmState := unit) dangling_non_leader
              "secret:9")
    as (_ & Hother); [reflexivity..|].
  exact (Hother eq_refl).
Defined.

Lemma set_signing_key_round_trip_witness :
  res (get_signing_key (CharmState := unit)
         (post (set_signing_key env "ed25519 a_key abc" fresh_leader)))
  = Ret (Some "ed25519 a_key abc")
  ∧ created_secrets
      (trace (set_signing_key env "ed25519 a_key abc"
                (post (set_signing_key env "ed25519 a_key abc" fresh_leader))))
    = [].
Proof.
  destruct (set_signing_key_round_trip env "ed25519 a_key abc" fresh_leader)
    as (H1 & H2 & _); [reflexivity|by vm_compute|reflexivity|].
  rewrite H1, H2. by split.
Defined.

Lemma reconcile_unreachable_witness :
  can_connect (container unreachable) = false
  ∧ trace (reconcile env tt unreachable) = []
  ∧ status (post (reconcile env tt unreachable))
    = MaintenanceStatus "Waiting for Synapse pebble".
Proof.
  split; [reflexivity|].
  destruct (reconcile_unreachable env tt unreachable) as (_ & H1 & H2 & _);
    [reflexivity|].
  split; [exact H1|exact H2].
Defined.

Lemma reconcile_pebble_error_witness :
  res (reconcile failing_env tt fresh_leader) = Ret tt
  ∧ status (post (reconcile failing_env tt fresh_leader))
    = BlockedStatus "Failed to restart Synapse"
  ∧ nginx_restarts (trace (reconcile failing_env tt fresh_leader)) = [].
Proof.
  destruct (reconcile_pebble_error failing_env tt fresh_leader
              (PebbleServiceError "Failed to restart Synapse"))
    as (H1 & _ & _ & _ & _ & H2 & H3); [reflexivity|by left|by intros|].
  split; [exact H2|]. split; [exact H3|exact H1].
Defined.

Lemma reconcile_missing_key_file_witness :
  files (container no_key_file) !! key_path = None
  ∧ res (reconcile env tt no_key_file) = Raise (PathError "not-found")
  ∧ status (post (reconcile env tt no_key_file))
    = MaintenanceStatus "Configuring Synapse"
  ∧ created_secrets (trace (reconcile env tt no_key_file)) = [].
Proof.
  split; [reflexivity|].
  destruct (reconcile_missing_key_file env tt no_key_file
              (container no_key_file))
    as (H1 & H2 & _ & H3 & _); [reflexivity|reflexivity|by left|reflexivity..|].
  split; [exact H1|]. split; [exact H2|exact H3].
Defined.

(** [redis_block_not_sticky] on three units without Redis and with the
    workload up: blocked by [config-changed], active after the next
    [relation-changed]. *)
Lemma redis_block_not_sticky_witness :
  redis_config_is_none api tt = true
  ∧ peer_units_total three_units = 3
  ∧ status (hook_post (_on_config_changed env api tt three_units))
    = BlockedStatus "Redis integration is required."
  ∧ status (post (_on_relation_changed env tt
                    (hook_post (_on_config_changed env api tt three_units))))
    = ActiveStatus "".
Proof.
  split; [reflexivity|]. split; [reflexivity|].
  destruct (redis_block_not_sticky env api tt three_units)
    as (_ & _ & H1 & H2); [reflexivity|by vm_compute|].
  rewrite H2, H1. split; [reflexivity|by vm_compute].
Defined.

(** [reconcile_publishes_key] on a leader that is the recorded main unit
    and has no key in the store: the key file ends with a line break, the
    published key does not. *)
Lemma reconcile_publishes_key_witness :
  files (container second_unit_joining) !! key_path
  = Some ("ed25519 a_key abc" +:+ String "010" "")
  ∧ created_secrets (trace (reconcile env tt second_unit_joining))
    = [{[SECRET_SIGNING_KEY := "ed25519 a_key abc"]}]
  ∧ res (get_signing_key (CharmState := unit)
           (post (reconcile env tt second_unit_joining)))
    = Ret (Some "ed25519 a_key abc").
Proof.
  split; [reflexivity|].
  destruct (reconcile_publishes_key env tt second_unit_joining workload
              ("ed25519 a_key abc" +:+ String "010" ""))
    as (H1 & _ & _ & H2); [reflexivity..|].
  split; [exact H1|exact H2].
Defined.

(** [reconcile_active_or_blocked] on a fresh leader with the workload
    up. *)
Lemma reconcile_active_or_blocked_witness :
  status (post (reconcile env tt fresh_leader)) = ActiveStatus ""
  ∧ healthy env (container (post (reconcile env tt fresh_leader)))
  ∧ nginx_restarts (trace (reconcile env tt fresh_leader))
    = ["synapse-0.synapse-endpoints"].
Proof.
  assert (H : status (post (reconcile env tt fresh_leader)) = ActiveStatus "")
    by (by vm_compute).
  split; [exact H|].
  destruct (proj1 (reconcile_active_or_blocked env tt fresh_leader) "" H)
    as (_ & _ & H1 & _ & H2).
  split; [exact H1|]. rewrite H2. by vm_compute.
Defined.

(** [config_changed_workload_version] on a single unit with the workload
    up. *)
Lemma config_changed_workload_version_witness :
  workload_versions (hook_trace (_on_config_changed env api tt fresh_leader))
  = ["1.98.0"]
  ∧ hook_res (_on_config_changed env api tt fresh_leader) = Ret tt
  ∧ status (hook_post (_on_config_changed env api_down tt fresh_leader))
    = ActiveStatus ""
  ∧ workload_versions
      (hook_trace (_on_config_changed env api_down tt fresh_leader)) = [].
Proof.
  destruct (config_changed_workload_version env api tt fresh_leader)
    as (H & _).
  destruct (H "1.98.0") as (H1 & _ & H2 & _); [compute_done|].
  destruct (config_changed_workload_version env api_down tt fresh_leader)
    as (_ & _ & H').
  destruct (H' "Failed to connect to Synapse") as (_ & H3 & H4);
    [reflexivity|by vm_compute|by vm_compute|reflexivity|].
  split; [exact H1|]. split; [exact H2|]. split; [|exact H4].
  rewrite H3. by vm_compute.
Defined.

(** [pebble_ready_active_only_if_healthy]: with Redis missing and three
    units planned the unit is blocked; on a single unit the handler is a
    [reconcile]. *)
Lemma pebble_ready_active_only_if_healthy_witness :
  post (_on_synapse_pebble_ready env api tt three_units)
  = with_status (BlockedStatus "Redis integration is required.") three_units
  ∧ _on_synapse_pebble_ready env api tt fresh_leader
    = reconcile env tt fresh_leader.
Proof.
  destruct (pebble_ready_active_only_if_healthy env api tt three_units)
    as (H1 & _).
  destruct (pebble_ready_active_only_if_healthy env api tt fresh_leader)
    as (_ & H2 & _).
  split; [apply H1; reflexivity|apply H2; reflexivity].
Defined.

(** [non_leader_never_publishes] on the main unit without leadership,
    over one event of each kind. *)
Lemma non_leader_never_publishes_witness :
  is_leader main_not_leader = false
  ∧ secrets
      (handle_all env api
         [ (ConfigChanged, tt); (SynapsePebbleReady, tt);
           (PeerRelationChanged, tt); (LeaderElected, tt);
           (PeerRelationDeparted (Some "synapse/1"), tt) ]
         main_not_leader)
    = secrets main_not_leader
  ∧ get_main_unit
      (handle_all env api
         [ (ConfigChanged, tt); (SynapsePebbleReady, tt);
           (PeerRelationChanged, tt); (LeaderElected, tt);
           (PeerRelationDeparted (Some "synapse/1"), tt) ]
         main_not_leader)
    = Some "synapse/0".
Proof.
  split; [reflexivity|].
  destruct (non_leader_never_publishes env api
              [ (ConfigChanged, tt); (SynapsePebbleReady, tt);
                (PeerRelationChanged, tt); (LeaderElected, tt);
                (PeerRelationDeparted (Some "synapse/1"), tt) ]
              main_not_leader)
    as (H1 & _ & H2 & _); [reflexivity|].
  split; [exact H1|]. rewrite H2. reflexivity.
Defined.

(** [main_unit_changes_to_self]: the leader takes over from the recorded
    main unit when it handles [leader-elected]. *)
Lemma main_unit_changes_to_self_witness :
  get_main_unit other_main = Some "synapse/1"
  ∧ get_main_unit (handle env api LeaderElected tt other_main)
    = Some (unit_name other_main).
Proof.
  split; [reflexivity|].
  destruct (main_unit_changes_to_self env api LeaderElected tt other_main)
    as [H|(_ & _ & H)]; [|exact H].
  exfalso. vm_compute in H. discriminate H.
Defined.

(** [reconcile_keeps_instance_map] on a leader that records itself. *)
Lemma reconcile_keeps_instance_map_witness :
  get_main_unit main_without_number = None
  ∧ get_main_unit (post (reconcile env tt main_without_number))
    = Some "synapse"
  ∧ instance_map (post (reconcile env tt main_without_number))
    = instance_map main_without_number.
Proof.
  split; [reflexivity|]. split; [by vm_compute|].
  apply (reconcile_keeps_instance_map env tt main_without_number).
Defined.


(** [reconcile_applies_config_once]: on a unit that is not leader and
    finds a reference that does not resolve, nothing is applied. *)
Lemma reconcile_applies_config_once_witness :
  applied_configs (trace (reconcile env tt main_not_leader))
  = [(tt, true, "0")]
  ∧ res (reconcile env tt dangling_non_leader) = Raise RelationDataAccessError
  ∧ trace (reconcile env tt dangling_non_leader) = [].
Proof.
  destruct (reconcile_applies_config_once env tt main_not_leader) as (H1 & _).
  destruct (reconcile_applies_config_once env tt dangling_non_leader)
    as (_ & H2).
  split; [rewrite H1; by vm_compute|].
  apply H2; reflexivity || by vm_compute.
Defined.

End Scenarios.
